(** * PRISM: the analysis pipeline of [src/prism.py]

    A shallow embedding of the [Engine] methods [parse], [clean], [fit],
    [analyze], [anom], [calc_stability] and [proc], followed by the
    properties the specification states about them; then of what [run]
    computes, and further properties of all of them.

    The Python code computes on [float]s.  The embedding is written once,
    over an interface [PyFloat] of the primitive operations, and is read
    at two instances:
    - [B64.binary64]: IEEE 754 double precision (the kernel's primitive
      floats), the arithmetic CPython runs; definitions evaluate there,
      and the numeric properties of the code are proved there, from the
      specification of the rounded operations;
    - [Exact.reals]: the real numbers, i.e. the same code without rounding,
      overflow, NaN or infinities; an idealisation, at which some
      properties are read as well.

    Python exceptions are modelled by the error monad [result]: a
    [try] block is a [match] on the result of its body.  Python ints
    are [Z]; a list of floats may hold ints (the sentinel [[0]]), which
    are read as floats through [of_int].  An int that meets a float in
    an operation is converted: by [of_int] when it is a literal, a length
    or a position, by [float_of_int], which raises OverflowError beyond
    the floats, when it is any int.  The fields [min], [max],
    [range] and [anom] of a batch summary are [s_min], [s_max],
    [s_range] and [s_anom] here, their names being taken. *)

From Stdlib Require Import ZArith List String Ascii Bool Lia.
From Stdlib Require Import Floats.
From Stdlib Require Import Reals Lra.
From Stdlib Require Import Sorted Permutation.
Import ListNotations.

Local Open Scope string_scope.
Local Open Scope list_scope.
Local Open Scope Z_scope.

(** ** Exceptions *)

Inductive exn : Set :=
| ZeroDivisionError
| OverflowError
| ValueError
| IndexError.

Inductive result (A : Type) : Type :=
| Ok (a : A)
| Raise (e : exn).

Arguments Ok {A} a.
Arguments Raise {A} e.

Definition bind {A B : Type} (m : result A) (k : A -> result B) : result B :=
  match m with
  | Ok a => k a
  | Raise e => Raise e
  end.

Notation "x <- m ;; k" := (bind m (fun x => k))
  (at level 61, m at next level, right associativity).
Notation "' pat <- m ;; k" := (bind m (fun x => match x with pat => k end))
  (at level 61, pat pattern, m at next level, right associativity).

Fixpoint mapM {A B : Type} (f : A -> result B) (l : list A) : result (list B) :=
  match l with
  | [] => Ok []
  | a :: l' => b <- f a ;; bs <- mapM f l' ;; Ok (b :: bs)
  end.

(** [l[i]] for [i >= 0]. *)
Definition index {A : Type} (l : list A) (i : nat) : result A :=
  match nth_error l i with
  | Some a => Ok a
  | None => Raise IndexError
  end.

(** [list(range(n))], a list of Python ints. *)
Definition range (n : nat) : list Z := map Z.of_nat (seq 0 n).

(** [len(l)], a Python int. *)
Definition len {A : Type} (l : list A) : Z := Z.of_nat (List.length l).

(** Truth value of a list: [if l] holds when [l] is not empty. *)
Definition truthy {A : Type} (l : list A) : bool :=
  match l with [] => false | _ :: _ => true end.

(** ** Dictionaries

    A [dict] keeps its keys in insertion order; assigning to a key that
    is present replaces the value in place. *)

Definition dict (V : Type) : Type := list (string * V).

Fixpoint dict_set {V : Type} (d : dict V) (k : string) (v : V) : dict V :=
  match d with
  | [] => [(k, v)]
  | (k', v') :: d' =>
      if String.eqb k' k then (k', v) :: d' else (k', v') :: dict_set d' k v
  end.

Fixpoint dict_get {V : Type} (d : dict V) (k : string) : option V :=
  match d with
  | [] => None
  | (k', v') :: d' => if String.eqb k' k then Some v' else dict_get d' k
  end.

(** [d.get(k, dflt)] *)
Definition get {V : Type} (d : dict V) (k : string) (dflt : V) : V :=
  match dict_get d k with Some v => v | None => dflt end.

(** ** The floating-point interface *)

Class PyFloat (F : Type) : Type := {
  (** the literal [m * 10^e], e.g. [1e-10], [0.5]; [of_decimal n 0] is
      [float(n)] for an int [n] *)
  of_decimal : Z -> Z -> F;
  (** [a / b] on two ints, [b <> 0] *)
  int_div : Z -> Z -> F;
  fadd : F -> F -> F;
  fsub : F -> F -> F;
  fmul : F -> F -> F;
  (** [x / y] for [y <> 0] *)
  fdiv : F -> F -> F;
  fabs : F -> F;
  fsqrt : F -> F;
  (** [x < y] and [x == y] *)
  flt : F -> F -> bool;
  feq : F -> F -> bool;
  isnan : F -> bool;
  isinf : F -> bool;
  (** [round(x, 2)] *)
  round2 : F -> F
}.

(** The two functions of the C mathematical library that the engine
    calls through [math.log] and [math.exp]. *)
Class PyMath (F : Type) : Type := {
  flog : F -> F;
  fexp : F -> F
}.

(** ** The engine *)

Section Engine.

Context {F : Type} {PF : PyFloat F} {PM : PyMath F}.

(** [float(n)] for an int [n] that is a literal, a length or a position
    in a list: an int below 2^63, far inside the range of the floats
    (on the doubles the conversion of an int below 2^1023 is finite:
    [b64_of_int_finite]). *)
Definition of_int (n : Z) : F := of_decimal n 0.

(** The conversion of any other int that meets a float in an operation,
    as [x[i]] does in [x[i] - mx]: it raises OverflowError ("int too large
    to convert to float") when the nearest float is not finite. *)
Definition float_of_int (n : Z) : result F :=
  let v := of_int n in
  if isinf v then Raise OverflowError else Ok v.

(** [x > y] *)
Definition fgt (x y : F) : bool := flt y x.

(** [x / y] on floats raises on a zero divisor. *)
Definition truediv (x y : F) : result F :=
  if feq y (of_int 0) then Raise ZeroDivisionError else Ok (fdiv x y).

(** [a / b] on ints: the float nearest to the quotient.  It raises
    ZeroDivisionError on a zero divisor and OverflowError ("integer
    division result too large for a float") when that float is not
    finite. *)
Definition int_truediv (a b : Z) : result F :=
  if b =? 0 then Raise ZeroDivisionError
  else
    let q := int_div a b in
    if isinf q then Raise OverflowError else Ok q.

(** [x ** 2], the C library's [pow(x, 2.0)], read as the rounded product
    [x * x]: NaN and the infinities pass through, a finite [x] whose
    square is out of range raises.  (A C library whose [pow] is not
    correctly rounded may return a neighbour of that double; its sign
    and the overflow are the same.) *)
Definition pow2 (x : F) : result F :=
  let r := fmul x x in
  if isinf r && negb (isinf x) then Raise OverflowError else Ok r.

(** [math.sqrt(x)] *)
Definition py_sqrt (x : F) : result F :=
  if flt x (of_int 0) then Raise ValueError else Ok (fsqrt x).

(** [math.log(x)] *)
Definition py_log (x : F) : result F :=
  if fgt x (of_int 0) || isnan x then Ok (flog x) else Raise ValueError.

(** [math.exp(x)] *)
Definition py_exp (x : F) : result F :=
  let r := fexp x in
  if isinf r && negb (isinf x) then Raise OverflowError else Ok r.

(** [sum(l)]: starts from the int 0 and adds from the left.  (From
    version 3.12 CPython also carries the rounding errors along and adds
    them at the end; that changes nothing when the partial sums are
    exact.) *)
Definition fsum (l : list F) : F := fold_left fadd l (of_int 0).

(** [sum(l)] on ints. *)
Definition zsum (l : list Z) : Z := fold_left Z.add l 0.

(** [max(0, v)]: the first argument is kept unless the second is greater. *)
Definition max0 (v : F) : F := if fgt v (of_int 0) then v else of_int 0.

(** [max(l, key=key)]: the first element whose key is greatest. *)
Fixpoint max_from {A : Type} (key : A -> F) (best : A) (l : list A) : A :=
  match l with
  | [] => best
  | a :: l' => max_from key (if fgt (key a) (key best) then a else best) l'
  end.

Definition max_by {A : Type} (key : A -> F) (l : list A) : result A :=
  match l with
  | [] => Raise ValueError
  | a :: l' => Ok (max_from key a l')
  end.

(** [min(l)] and [max(l)] on a non-empty list of floats. *)
Fixpoint min_from (best : F) (l : list F) : F :=
  match l with
  | [] => best
  | a :: l' => min_from (if flt a best then a else best) l'
  end.

Definition py_min (l : list F) : result F :=
  match l with [] => Raise ValueError | a :: l' => Ok (min_from a l') end.

Definition py_max (l : list F) : result F := max_by (fun v => v) l.

(** [sorted(l)]: a stable sort that compares with [<] only. *)
Fixpoint insert (v : F) (l : list F) : list F :=
  match l with
  | [] => [v]
  | a :: l' => if flt v a then v :: a :: l' else a :: insert v l'
  end.

Definition sorted (l : list F) : list F :=
  fold_left (fun acc v => insert v acc) l [].

(** *** Literals of the source *)

Definition c_1e15 : F := of_decimal 1 15.
Definition c_1em10 : F := of_decimal 1 (-10).
Definition c_0_5 : F := of_decimal 5 (-1).
Definition c_0_3 : F := of_decimal 3 (-1).
Definition c_0_2 : F := of_decimal 2 (-1).

(** [self.z_th = 3.0] *)
Definition z_th : F := of_decimal 30 (-1).

(** *** [clean] *)

Definition keep (v : F) : bool :=
  negb (isnan v || isinf v || fgt (fabs v) c_1e15).

Fixpoint clean_loop (d : list F) (clean : list F) (inv : Z) : list F * Z :=
  match d with
  | [] => (clean, inv)
  | v :: d' =>
      if keep v then clean_loop d' (clean ++ [v]) inv
      else clean_loop d' clean (inv + 1)
  end.

Definition clean (d : list F) : list F * Z :=
  let '(clean, inv) := clean_loop d [] 0 in
  (if truthy clean then clean else [of_int 0], inv).

(** *** [fit] *)

(** [1-(ss_res/ss_tot) if ss_tot > 1e-10 else dflt] *)
Definition r_squared (ss_res ss_tot dflt : F) : result F :=
  if fgt ss_tot c_1em10 then
    q <- truediv ss_res ss_tot ;; Ok (fsub (of_int 1) q)
  else Ok dflt.

(** [sum((yi-my)**2 for yi in y)] *)
Definition ss_total (y : list F) (my : F) : result F :=
  sq <- mapM (fun yi => pow2 (fsub yi my)) y ;; Ok (fsum sq).

(** [sum((yi-pi)**2 for yi, pi in zip(y, pred))] *)
Definition ss_resid (y pred : list F) : result F :=
  sq <- mapM (fun '(yi, pi) => pow2 (fsub yi pi)) (combine y pred) ;;
  Ok (fsum sq).

Definition fit (x : list Z) (y : list F) : result (F * F * F) :=
  let n := List.length x in
  mx <- int_truediv (zsum x) (len x) ;;
  my <- truediv (fsum y) (of_int (len y)) ;;
  nums <- mapM (fun i => xi <- index x i ;; fx <- float_of_int xi ;;
                  yi <- index y i ;;
                  Ok (fmul (fsub fx mx) (fsub yi my))) (seq 0 n) ;;
  let num := fsum nums in
  dens <- mapM (fun i => xi <- index x i ;; fx <- float_of_int xi ;;
                  pow2 (fsub fx mx)) (seq 0 n) ;;
  let den := fsum dens in
  a <- (if fgt (fabs den) c_1em10 then truediv num den else Ok (of_int 0)) ;;
  let b := fsub my (fmul a mx) in
  pred <- mapM (fun xi => fx <- float_of_int xi ;; Ok (fadd (fmul a fx) b))
            x ;;
  ss_tot <- ss_total y my ;;
  ss_res <- ss_resid y pred ;;
  r2 <- r_squared ss_res ss_tot c_0_5 ;;
  Ok (a, b, max0 r2).

(** *** [analyze] *)

Record Pattern : Type := {
  t : string;
  r : F;
  p : dict F
}.

(** [[l[i+1]-l[i] for i in range(len(l)-1)]] *)
Definition diffs (l : list F) : result (list F) :=
  mapM (fun i => hi <- index l (i + 1) ;; lo <- index l i ;; Ok (fsub hi lo))
    (seq 0 (List.length l - 1)).

(** The body of the second [try] block; [None] when the length test
    fails and nothing is recorded. *)
Definition quad (x : list Z) (y : list F) : result (option (dict F)) :=
  if len y >? 2 then
    d1 <- diffs y ;;
    d2 <- diffs d1 ;;
    aq <- (if truthy d2 then truediv (fsum d2) (of_int (2 * len d2))
           else Ok (of_int 0)) ;;
    d10 <- (if truthy d1 then index d1 0 else Ok (of_int 0)) ;;
    let bq := fsub d10 aq in
    cq <- index y 0 ;;
    pred <- mapM (fun i => fi <- float_of_int i ;;
                    Ok (fadd (fadd (fmul (fmul aq fi) fi) (fmul bq fi)) cq))
              x ;;
    my <- truediv (fsum y) (of_int (len y)) ;;
    ss_tot <- ss_total y my ;;
    ss_res <- ss_resid y pred ;;
    r2q <- r_squared ss_res ss_tot c_0_3 ;;
    Ok (Some [("r2", max0 r2q); ("a", aq); ("b", bq); ("c", cq)])
  else Ok None.

(** The body of the third [try] block. *)
Definition expo (x : list Z) (y : list F) : result (option (dict F)) :=
  if forallb (fun yi => fgt yi (of_int 0)) y then
    log_y <- mapM py_log y ;;
    '(ae, be, re) <- fit x log_y ;;
    amp <- py_exp be ;;
    Ok (Some [("r2", re); ("a", amp); ("b", ae)])
  else Ok None.

Definition failed : dict F := [("r2", of_int (-1))].

(** The candidate table [res] after the three [try] blocks. *)
Definition candidates (y : list F) : dict (dict F) :=
  let x := range (List.length y) in
  let res : dict (dict F) := [] in
  let res :=
    match fit x y with
    | Ok (a, b, r2) => dict_set res "LINEAR" [("r2", r2); ("a", a); ("b", b)]
    | Raise _ => dict_set res "LINEAR" failed
    end in
  let res :=
    match quad x y with
    | Ok (Some q) => dict_set res "QUAD" q
    | Ok None => res
    | Raise _ => dict_set res "QUAD" failed
    end in
  let res :=
    match expo x y with
    | Ok (Some e) => dict_set res "EXP" e
    | Ok None => res
    | Raise _ => dict_set res "EXP" failed
    end in
  res.

Definition score (kv : string * dict F) : F := get (snd kv) "r2" (of_int (-1)).

Definition analyze (y : list F) : result Pattern :=
  best <- max_by score (candidates y) ;;
  Ok {| t := fst best; r := get (snd best) "r2" (of_int 0); p := snd best |}.

(** *** [anom] *)

Record Anomaly : Type := {
  idx : Z;
  val : F;
  z : F;
  sev : string
}.

Fixpoint anom_loop (m s : F) (i : Z) (y : list F) (anomalies : list Anomaly)
  : result (list Anomaly) :=
  match y with
  | [] => Ok anomalies
  | yi :: y' =>
      q <- truediv (fsub yi m) s ;;
      let z := fabs q in
      if fgt z z_th then
        let severity := if fgt z (of_int 5) then "CRITICAL" else "HIGH" in
        anom_loop m s (i + 1) y'
          (anomalies ++ [{| idx := i; val := yi; z := z; sev := severity |}])
      else anom_loop m s (i + 1) y' anomalies
  end.

Definition anom_body (y : list F) : result (Z * string * list Anomaly) :=
  if len y <? 2 then Ok (0, "LOW", [])
  else
    m <- truediv (fsum y) (of_int (len y)) ;;
    s <- (if len y >? 1 then
            sq <- mapM (fun x => pow2 (fsub x m)) y ;;
            v <- truediv (fsum sq) (of_int (len y)) ;;
            py_sqrt v
          else Ok (of_int 1)) ;;
    let s := if fgt s c_1em10 then s else of_int 1 in
    anomalies <- anom_loop m s 0 y [] ;;
    let crit :=
      len (filter (fun a => String.eqb (sev a) "CRITICAL") anomalies) in
    let danger :=
      if crit >? 0 then "CRITICAL"
      else if truthy anomalies then "HIGH" else "LOW" in
    Ok (len anomalies, danger, anomalies).

Definition anom (y : list F) : Z * string * list Anomaly :=
  match anom_body y with
  | Ok v => v
  | Raise _ => (0, "LOW", [])
  end.

(** *** [calc_stability] *)

(** [{'LOW': 100, 'HIGH': 50, 'CRITICAL': 0}.get(danger, 75)] *)
Definition danger_score (danger : string) : Z :=
  get [("LOW", 100); ("HIGH", 50); ("CRITICAL", 0)] danger 75.

Definition calc_stability (total_invalid total_points anomalies : Z)
    (danger : string) : result F :=
  data_quality <-
    (if total_points >? 0 then
       q <- int_truediv (total_points - total_invalid) total_points ;;
       Ok (fmul q (of_int 100))
     else Ok (of_int 0)) ;;
  anomaly_ratio <-
    (if total_points >? 0 then
       q <- int_truediv anomalies total_points ;;
       Ok (fmul q (of_int 100))
     else Ok (of_int 0)) ;;
  let stability :=
    fadd (fadd (fmul data_quality c_0_5)
               (fmul (fsub (of_int 100) anomaly_ratio) c_0_3))
         (fmul (of_int (danger_score danger)) c_0_2) in
  Ok (round2 stability).

(** *** [proc] *)

Record Summary : Type := {
  bid : Z;
  total : Z;
  valid : Z;
  invalid_parse : Z;
  invalid_clean : Z;
  total_invalid : Z;
  mean : F;
  std : F;
  s_min : F;
  s_max : F;
  median : F;
  s_range : F;
  cv : F;
  type : string;
  r2 : F;
  params : dict F;
  s_anom : Z;
  danger : string;
  anom_details : list Anomaly
}.

Definition proc (batch : list F) (bid : Z) (invalid_from_parse : Z)
  : result (option Summary) :=
  let '(clean, inv_clean) := clean batch in
  if negb (truthy clean) then Ok None
  else
    m <- truediv (fsum clean) (of_int (len clean)) ;;
    sq <- mapM (fun x => pow2 (fsub x m)) clean ;;
    v <- truediv (fsum sq) (of_int (len clean)) ;;
    s <- py_sqrt v ;;
    pat <- analyze clean ;;
    let '(anom_c, dang, anom_details) := anom clean in
    let total_invalid := invalid_from_parse + inv_clean in
    lo <- py_min clean ;;
    hi <- py_max clean ;;
    med <- index (sorted clean) (Z.to_nat (len clean / 2)) ;;
    hi' <- py_max clean ;;
    lo' <- py_min clean ;;
    cv <- (if negb (feq m (of_int 0)) then
             q <- truediv s m ;; Ok (fmul q (of_int 100))
           else Ok (of_int 0)) ;;
    Ok (Some {|
      bid := bid; total := len batch; valid := len clean;
      invalid_parse := invalid_from_parse;
      invalid_clean := inv_clean;
      total_invalid := total_invalid;
      mean := m; std := s; s_min := lo; s_max := hi;
      median := med;
      s_range := fsub hi' lo';
      cv := cv;
      type := t pat; r2 := r pat; params := p pat;
      s_anom := anom_c; danger := dang; anom_details := anom_details
    |}).

End Engine.

(** ** [parse]

    A [str] is modelled by [string], one [ascii] per code point below
    256. *)

Definition code (c : ascii) : Z := Z.of_nat (nat_of_ascii c).

(** [c.isspace()] *)
Definition is_space (c : ascii) : bool :=
  let n := code c in
  ((9 <=? n) && (n <=? 13)) || ((28 <=? n) && (n <=? 32))
  || (n =? 133) || (n =? 160).

Fixpoint lstrip (s : string) : string :=
  match s with
  | EmptyString => EmptyString
  | String c s' => if is_space c then lstrip s' else s
  end.

Fixpoint rstrip (s : string) : string :=
  match s with
  | EmptyString => EmptyString
  | String c s' =>
      match rstrip s' with
      | EmptyString => if is_space c then EmptyString else String c EmptyString
      | s'' => String c s''
      end
  end.

(** [s.strip()] *)
Definition strip (s : string) : string := rstrip (lstrip s).

(** [s.replace(old, new)] for a one-character [old]. *)
Fixpoint replace (old : ascii) (new : string) (s : string) : string :=
  match s with
  | EmptyString => EmptyString
  | String c s' =>
      if Ascii.eqb c old then (new ++ replace old new s')%string
      else String c (replace old new s')
  end.

(** [s.split()]: the maximal runs of characters that are not white
    space; [cur] is the run being read. *)
Fixpoint split_from (cur : string) (s : string) : list string :=
  match s with
  | EmptyString => match cur with EmptyString => [] | _ => [cur] end
  | String c s' =>
      if is_space c then
        match cur with
        | EmptyString => split_from EmptyString s'
        | _ => cur :: split_from EmptyString s'
        end
      else split_from (cur ++ String c EmptyString)%string s'
  end.

Definition split (s : string) : list string := split_from EmptyString s.

(** [s.upper()].  Only the ASCII letters are mapped: a character above
    127 has no upper case that occurs in the words [parse] compares
    with. *)
Definition upper_char (c : ascii) : ascii :=
  let n := code c in
  if (97 <=? n) && (n <=? 122) then ascii_of_nat (Z.to_nat (n - 32)) else c.

Fixpoint upper (s : string) : string :=
  match s with
  | EmptyString => EmptyString
  | String c s' => String (upper_char c) (upper s')
  end.

(** [if s] on a string. *)
Definition nonempty (s : string) : bool :=
  match s with EmptyString => false | _ => true end.

Definition missing_markers : list string :=
  ["NULL"; "NA"; "NAN"; "NONE"; "N/A"; "-"].

(** [w in l] on strings. *)
Definition str_in (w : string) (l : list string) : bool :=
  existsb (String.eqb w) l.

Section Parse.

Context {F : Type} {PF : PyFloat F}.

(** [float(p)] on a string; it raises [ValueError] on a string that is
    not a number. *)
Variable py_float : string -> result F.

Fixpoint parse_loop (parts : list string) (vals : list F) (invalid_count : Z)
  : result (list F * Z) :=
  match parts with
  | [] => Ok (vals, invalid_count)
  | p :: parts' =>
      let p := strip p in
      if negb (nonempty p) then parse_loop parts' vals (invalid_count + 1)
      else if str_in (upper p) missing_markers then
        parse_loop parts' vals (invalid_count + 1)
      else
        match py_float p with
        | Ok val =>
            if isnan val || isinf val then
              parse_loop parts' vals (invalid_count + 1)
            else parse_loop parts' (vals ++ [val]) invalid_count
        | Raise ValueError => parse_loop parts' vals (invalid_count + 1)
        | Raise e => Raise e
        end
  end.

(** The tokens [parts] that the loop runs over. *)
Definition tokens (raw : string) : list string :=
  let raw := replace "]" "" (replace "[" "" (strip raw)) in
  let raw := replace "," " " raw in
  split raw.

(** The body of the outer [try]. *)
Definition parse_body (raw : string) : result (list F * Z) :=
  '(vals, invalid_count) <- parse_loop (tokens raw) [] 0 ;;
  Ok (if truthy vals then vals else [of_int 0], invalid_count).

Definition parse (raw : string) : list F * Z :=
  match parse_body raw with
  | Ok v => v
  | Raise _ => ([of_int 0], 1)
  end.

End Parse.

(** ** IEEE 754 double precision

    CPython's [float] is the C [double].  Sums, products, quotients and
    square roots are the kernel's primitive operations (round to nearest,
    ties to even).  Conversions from ints and decimal literals, int/int
    division and [round(x, 2)] are correctly rounded in CPython; they are
    computed here from the exact integers with the library's reference
    operations.  [math.log] and [math.exp] are the C library's: [libm]
    takes them as parameters. *)

Module B64.

Definition SF_of_Z (n : Z) : spec_float :=
  match n with
  | Z0 => S754_zero false
  | Zpos m => S754_finite false m 0
  | Zneg m => S754_finite true m 0
  end.

(** The double nearest to [a / b], for [b <> 0]. *)
Definition b64_int_div (a b : Z) : float :=
  SF2Prim (SFdiv prec emax (SF_of_Z a) (SF_of_Z b)).

(** The double nearest to [m * 10^e]. *)
Definition b64_of_decimal (m e : Z) : float :=
  if 0 <=? e then SF2Prim (binary_normalize prec emax (m * 10 ^ e) 0 false)
  else b64_int_div m (10 ^ (- e)).

(** The integer nearest to [n / d], ties to even, for [0 <= n], [0 < d]. *)
Definition div_half_even (n d : Z) : Z :=
  let q := n / d in
  let r := n mod d in
  match 2 * r ?= d with
  | Lt => q
  | Gt => q + 1
  | Eq => if Z.even q then q else q + 1
  end.

(** [round(x, 2)]: the exact value of [x] is rounded to a multiple of
    1/100 (ties to even) and that decimal is read back as a double. *)
Definition b64_round2 (x : float) : float :=
  match Prim2SF x with
  | S754_finite s m e =>
      let k := if 0 <=? e then 100 * Zpos m * 2 ^ e
               else div_half_even (100 * Zpos m) (2 ^ (- e)) in
      match k with
      | Zpos k' =>
          SF2Prim (SFdiv prec emax (S754_finite s k' 0) (SF_of_Z 100))
      | _ => SF2Prim (S754_zero s)
      end
  | _ => x
  end.

#[global] Instance binary64 : PyFloat float := {
  of_decimal := b64_of_decimal;
  int_div := b64_int_div;
  fadd := PrimFloat.add;
  fsub := PrimFloat.sub;
  fmul := PrimFloat.mul;
  fdiv := PrimFloat.div;
  fabs := PrimFloat.abs;
  fsqrt := PrimFloat.sqrt;
  flt := PrimFloat.ltb;
  feq := PrimFloat.eqb;
  isnan := PrimFloat.is_nan;
  isinf := PrimFloat.is_infinity;
  round2 := b64_round2
}.

Definition libm (log exp : float -> float) : PyMath float :=
  {| flog := log; fexp := exp |}.

(** A C library known at seven arguments only: the correctly rounded
    logarithms of 1, 2, 4, 8, 16, 32 and the correctly rounded exponential
    of [-2^-52]. *)
Definition log_sample (x : float) : float :=
  if PrimFloat.eqb x 1 then 0
  else if PrimFloat.eqb x 2 then 0x1.62e42fefa39efp-1
  else if PrimFloat.eqb x 4 then 0x1.62e42fefa39efp+0
  else if PrimFloat.eqb x 8 then 0x1.0a2b23f3bab73p+1
  else if PrimFloat.eqb x 16 then 0x1.62e42fefa39efp+1
  else if PrimFloat.eqb x 32 then 0x1.bb9d3beb8c86bp+1
  else nan.

Definition exp_sample (x : float) : float :=
  if PrimFloat.eqb x (-0x1p-52) then 0x1.ffffffffffffep-1 else nan.

(** *** [float(s)] on a string

    The syntax is [[sign] (digits [. digits] | . digits) [e [sign] digits]],
    or [inf], [infinity], [nan] in any case; one underscore may stand
    between two digits.  The value is the double nearest to the decimal. *)

Definition is_digit (c : ascii) : bool := (48 <=? code c) && (code c <=? 57).

Definition lower_char (c : ascii) : ascii :=
  let n := code c in
  if (65 <=? n) && (n <=? 90) then ascii_of_nat (Z.to_nat (n + 32)) else c.

Fixpoint lower (s : string) : string :=
  match s with
  | EmptyString => EmptyString
  | String c s' => String (lower_char c) (lower s')
  end.

(** Removes the underscores; [None] when one is not between two digits. *)
Fixpoint drop_underscores (prev : ascii) (s : string) : option string :=
  match s with
  | EmptyString => if Ascii.eqb prev "_" then None else Some EmptyString
  | String c s' =>
      if Ascii.eqb c "_" then
        if is_digit prev then drop_underscores c s' else None
      else if Ascii.eqb prev "_" && negb (is_digit c) then None
      else option_map (String c) (drop_underscores c s')
  end.

(** Reads the leading digits of [s]: the number [acc] extended by them,
    how many were read, and the rest of [s]. *)
Fixpoint read_digits (s : string) (acc : Z) (count : Z) : Z * Z * string :=
  match s with
  | String c s' =>
      if is_digit c then read_digits s' (10 * acc + (code c - 48)) (count + 1)
      else (acc, count, s)
  | EmptyString => (acc, count, s)
  end.

Definition read_sign (s : string) : bool * string :=
  match s with
  | String "-" s' => (true, s')
  | String "+" s' => (false, s')
  | _ => (false, s)
  end.

(** The exponent part, or the end of the string. *)
Definition read_exponent (s : string) : option Z :=
  match s with
  | EmptyString => Some 0
  | String c s' =>
      if Ascii.eqb (lower_char c) "e" then
        let '(neg, s'') := read_sign s' in
        match read_digits s'' 0 0 with
        | (e, n, EmptyString) =>
            if 0 <? n then Some (if neg then - e else e) else None
        | _ => None
        end
      else None
  end.

(** Mantissa and decimal exponent of an unsigned number. *)
Definition read_number (s : string) : option (Z * Z) :=
  let '(m1, n1, rest) := read_digits s 0 0 in
  let '(m2, n2, rest) :=
    match rest with
    | String "." rest' => read_digits rest' m1 0
    | _ => (m1, 0, rest)
    end in
  if 0 <? n1 + n2 then
    match read_exponent rest with
    | Some e => Some (m2, e - n2)
    | None => None
    end
  else None.

Definition signed (neg : bool) (x : float) : float :=
  if neg then PrimFloat.opp x else x.

Definition py_float (s : string) : result float :=
  match drop_underscores "000" (strip s) with
  | None => Raise ValueError
  | Some s =>
      let '(neg, body) := read_sign s in
      let word := lower body in
      if String.eqb word "inf" || String.eqb word "infinity" then
        Ok (signed neg infinity)
      else if String.eqb word "nan" then Ok (signed neg nan)
      else
        match read_number body with
        | Some (m, e) => Ok (signed neg (b64_of_decimal m e))
        | None => Raise ValueError
        end
  end.

End B64.

(** ** Exact arithmetic

    The same engine over the real numbers: no rounding, no overflow, no
    NaN and no infinity.  Comparisons are decided classically. *)

Module Exact.

Definition Rltb (x y : R) : bool := if Rlt_dec x y then true else false.

Definition Reqb (x y : R) : bool := if Req_dec_T x y then true else false.

Definition real_of_decimal (m e : Z) : R :=
  if 0 <=? e then IZR (m * 10 ^ e) else (IZR m / IZR (10 ^ (- e)))%R.

Definition real_int_div (a b : Z) : R := (IZR a / IZR b)%R.

(** The integer nearest to [x], ties to even. *)
Definition half_even (x : R) : Z :=
  let f := Int_part x in
  let d := frac_part x in
  if Rlt_dec d (1 / 2) then f
  else if Rlt_dec (1 / 2) d then f + 1
  else if Z.even f then f else f + 1.

Definition real_round2 (x : R) : R := (IZR (half_even (x * 100)) / 100)%R.

#[global] Instance reals : PyFloat R := {
  of_decimal := real_of_decimal;
  int_div := real_int_div;
  fadd := Rplus;
  fsub := Rminus;
  fmul := Rmult;
  fdiv := Rdiv;
  fabs := Rabs;
  fsqrt := sqrt;
  flt := Rltb;
  feq := Reqb;
  isnan := fun _ => false;
  isinf := fun _ => false;
  round2 := real_round2
}.

#[global] Instance real_math : PyMath R := {
  flog := ln;
  fexp := exp
}.

End Exact.

(** ** The stability score in the words of the specification

    [0.5 x data_quality + 0.3 x (100 - anomaly_ratio) + 0.2 x danger_score],
    rounded to 2 decimals; the ratios are 0 when there is no point. *)

Section StabilitySpec.

Context {F : Type} {PF : PyFloat F}.

(** The two quotients of the score are within the floats. *)
Definition quotients_in_range (total_invalid total_points anomalies : Z)
  : bool :=
  negb (isinf (int_div (total_points - total_invalid) total_points)
        || isinf (int_div anomalies total_points)).

Definition spec_data_quality (total_invalid total_points : Z) : F :=
  if total_points =? 0 then of_int 0
  else fmul (int_div (total_points - total_invalid) total_points) (of_int 100).

Definition spec_anomaly_ratio (anomalies total_points : Z) : F :=
  if total_points =? 0 then of_int 0
  else fmul (int_div anomalies total_points) (of_int 100).

Definition spec_danger_score (danger : string) : Z :=
  if String.eqb danger "LOW" then 100
  else if String.eqb danger "HIGH" then 50
  else if String.eqb danger "CRITICAL" then 0
  else 75.

Definition spec_stability (total_invalid total_points anomalies : Z)
    (danger : string) : F :=
  round2
    (fadd
       (fadd (fmul c_0_5 (spec_data_quality total_invalid total_points))
             (fmul c_0_3
                (fsub (of_int 100)
                   (spec_anomaly_ratio anomalies total_points))))
       (fmul c_0_2 (of_int (spec_danger_score danger)))).

End StabilitySpec.

(** ** Anomalies in the words of the specification

    The z-score of a sample is [|sample - mean| / deviation], for the
    population mean and the population standard deviation, the latter
    replaced by 1 when it is at most 1e-10.  A sample is recorded when
    its z-score exceeds the threshold, as CRITICAL above 5 and as HIGH
    otherwise. *)

Section AnomalySpec.

Context {F : Type} {PF : PyFloat F}.

Definition spec_mean (y : list F) : F := fdiv (fsum y) (of_int (len y)).









End AnomalySpec.

(** ** The fits in closed form

    What [fit] and the three candidate blocks of [analyze] compute when
    no operation raises: the sums of the specification, without the
    index loops and the error plumbing. *)

Section FitSpec.

Context {F : Type} {PF : PyFloat F} {PM : PyMath F}.

Definition sq (v : F) : F := fmul v v.

(** R squared, floored at 0: [1 - SS_res / SS_tot], or [dflt] when
    [SS_tot] is at most 1e-10. *)
Definition spec_r2 (ss_res ss_tot dflt : F) : F :=
  max0 (if fgt ss_tot c_1em10 then fsub (of_int 1) (fdiv ss_res ss_tot)
        else dflt).

Definition spec_ss_tot (y : list F) : F :=
  fsum (map (fun yi => sq (fsub yi (spec_mean y))) y).

Definition spec_ss_res (y pred : list F) : F :=
  fsum (map (fun '(yi, pi) => sq (fsub yi pi)) (combine y pred)).

Definition spec_slope (x : list Z) (y : list F) : F :=
  let mx := int_div (zsum x) (len x) in
  let my := spec_mean y in
  let num :=
    fsum (map (fun '(xi, yi) => fmul (fsub (of_int xi) mx) (fsub yi my))
            (combine x y)) in
  let den := fsum (map (fun xi => sq (fsub (of_int xi) mx)) x) in
  if fgt (fabs den) c_1em10 then fdiv num den else of_int 0.

Definition spec_fit (x : list Z) (y : list F) : F * F * F :=
  let a := spec_slope x y in
  let b := fsub (spec_mean y) (fmul a (int_div (zsum x) (len x))) in
  let pred := map (fun xi => fadd (fmul a (of_int xi)) b) x in
  (a, b, spec_r2 (spec_ss_res y pred) (spec_ss_tot y) c_0_5).

(** First differences. *)
Definition spec_diffs (l : list F) : list F :=
  map (fun '(hi, lo) => fsub hi lo) (combine (tl l) l).

Definition spec_quad (x : list Z) (y : list F) : dict F :=
  let d1 := spec_diffs y in
  let d2 := spec_diffs d1 in
  let aq := fdiv (fsum d2) (of_int (2 * len d2)) in
  let bq := fsub (hd (of_int 0) d1) aq in
  let cq := hd (of_int 0) y in
  let pred :=
    map (fun i => fadd (fadd (fmul (fmul aq (of_int i)) (of_int i))
                          (fmul bq (of_int i))) cq) x in
  [("r2", spec_r2 (spec_ss_res y pred) (spec_ss_tot y) c_0_3);
   ("a", aq); ("b", bq); ("c", cq)].

Definition spec_expo (x : list Z) (y : list F) : dict F :=
  let '(ae, be, re) := spec_fit x (map flog y) in
  [("r2", re); ("a", fexp be); ("b", ae)].

End FitSpec.

(** The sequence of the specification's exponential example. *)
Definition powers : list R := [1; 2; 4; 8; 16; 32]%R.

(** ** [run]

    What [run] computes between the reading of the input text [raw] and
    the printing of the report: the batches, the figures of the overall
    summary and the three predictions.  Reading the input, the clock and
    the layout of the printed lines are left out; the report holds the
    values that are printed.  The dictionary [params] of the best batch is
    [run_params] here, its name being taken. *)

(** [self.batch_sz = 1000] *)
Definition batch_sz : Z := 1000.

(** [l[s:e]] for [0 <= s] and [0 <= e]. *)
Definition slice {A : Type} (l : list A) (s e : Z) : list A :=
  skipn (Z.to_nat s) (firstn (Z.to_nat e) l).

(** [max(1, (len(data) + self.batch_sz - 1) // self.batch_sz)] *)
Definition nb_of {A : Type} (data : list A) : Z :=
  Z.max 1 ((len data + batch_sz - 1) / batch_sz).

(** The batch of index [i]: [data[s:e]] for [s = i * self.batch_sz] and
    [e = min(s + self.batch_sz, len(data))]. *)
Definition batch_of {A : Type} (data : list A) (i : Z) : list A :=
  let s := i * batch_sz in
  let e := Z.min (s + batch_sz) (len data) in
  slice data s e.

(** [max(l, key=key)] for a key that is an int. *)
Fixpoint max_from_int {A : Type} (key : A -> Z) (best : A) (l : list A) : A :=
  match l with
  | [] => best
  | a :: l' => max_from_int key (if key a >? key best then a else best) l'
  end.

Definition max_by_int {A : Type} (key : A -> Z) (l : list A) : result A :=
  match l with
  | [] => Raise ValueError
  | a :: l' => Ok (max_from_int key a l')
  end.

(** [{'LOW':0, 'HIGH':1, 'CRITICAL':2}.get(x,0)] *)
Definition danger_rank (x : string) : Z :=
  get [("LOW", 0); ("HIGH", 1); ("CRITICAL", 2)] x 0.

(** The colours that [run] chooses between for the stability score. *)
Definition RED : string := String "027" "[91m".
Definition GREEN : string := String "027" "[92m".
Definition YELLOW : string := String "027" "[93m".

Section Run.

Context {F : Type} {PF : PyFloat F} {PM : PyMath F}.

Variable py_float : string -> result F.

(** [x >= y] *)
Definition fge (x y : F) : bool := flt y x || feq x y.

(** The loop over the batches; [proc] never returns [None], the test
    [if result] is modelled all the same. *)
Fixpoint run_loop (data : list F) (invalid_parse : Z) (indexes : list Z)
    (batches : list (@Summary F)) : result (list (@Summary F)) :=
  match indexes with
  | [] => Ok batches
  | i :: indexes' =>
      let batch := batch_of data i in
      res <- proc batch (i + 1) (if i =? 0 then invalid_parse else 0) ;;
      run_loop data invalid_parse indexes'
        (match res with Some b => batches ++ [b] | None => batches end)
  end.

(** The relation between the index of a batch and its summary. *)
Definition batch_summary (data : list F) (invalid_parse : Z) (i : Z)
    (s : @Summary F) : Prop :=
  proc (batch_of data i) (i + 1) (if i =? 0 then invalid_parse else 0)
  = Ok (Some s).

(** The body of the [try] block of a prediction; [None] stands for an
    exception, which the [except] clause catches whatever it is: the
    [KeyError] of a missing parameter or the [OverflowError] of
    [math.exp].  The position [pos] is a number of points, far below the
    range of a float. *)
Definition predict_body (pat_type : string) (params : dict F)
    (overall_mean : F) (pos : Z) : option F :=
  if String.eqb pat_type "LINEAR" then
    match dict_get params "b" with
    | None => None
    | Some b =>
        match dict_get params "a" with
        | None => None
        | Some a => Some (fadd b (fmul a (of_int pos)))
        end
    end
  else if String.eqb pat_type "QUAD" then
    match dict_get params "c" with
    | None => None
    | Some c =>
        match dict_get params "b" with
        | None => None
        | Some b =>
            match dict_get params "a" with
            | None => None
            | Some a =>
                Some (fadd (fadd c (fmul b (of_int pos)))
                        (fmul (fmul a (of_int pos)) (of_int pos)))
            end
        end
    end
  else if String.eqb pat_type "EXP" then
    match dict_get params "a" with
    | None => None
    | Some a =>
        match dict_get params "b" with
        | None => None
        | Some b =>
            match py_exp (fmul b (of_int pos)) with
            | Ok e => Some (fmul a e)
            | Raise _ => None
            end
        end
    end
  else Some overall_mean.

Definition predict (pat_type : string) (params : dict F) (overall_mean : F)
    (pos : Z) : F :=
  match predict_body pat_type params overall_mean pos with
  | Some val => val
  | None => overall_mean
  end.

Record Report : Type := {
  nb : Z;
  batches : list (@Summary F);
  overall_mean : F;
  avg_r2 : F;
  overall_std : F;
  total_invalid_all : Z;
  total_valid_all : Z;
  total_points : Z;
  total_anom : Z;
  pat_type : string;
  run_params : dict F;
  max_danger_val : string;
  stability : F;
  stab_color : string;
  (** the "Data Quality" figure, [total_valid_all/total_points*100] *)
  data_quality : F;
  (** the positions and the values of "FUTURE PREDICTIONS" *)
  predictions : list (Z * F);
  all_anomalies : list (@Anomaly F)
}.

(** [run] from the computation of [nb] on, for the parsed [data]. *)
Definition run_body (data : list F) (invalid_parse : Z) : result Report :=
  let nb := nb_of data in
  batches <- run_loop data invalid_parse (range (Z.to_nat nb)) [] ;;
  let all_means := map mean batches in
  overall_mean <- truediv (fsum all_means) (of_int (len all_means)) ;;
  let r2_scores := map r2 batches in
  avg_r2 <- truediv (fsum r2_scores) (of_int (len r2_scores)) ;;
  let all_stds := map std batches in
  overall_std <- truediv (fsum all_stds) (of_int (len all_stds)) ;;
  let total_invalid_all := zsum (map total_invalid batches) in
  let total_valid_all := zsum (map valid batches) in
  let total_points := zsum (map total batches) in
  let total_anom := zsum (map s_anom batches) in
  best_batch <- max_by r2 batches ;;
  let pat_type := type best_batch in
  let params := params best_batch in
  max_danger_val <- max_by_int danger_rank (map danger batches) ;;
  stability <-
    calc_stability total_invalid_all total_points total_anom max_danger_val ;;
  let stab_color :=
    if fge stability (of_int 80) then GREEN
    else if fge stability (of_int 60) then YELLOW
    else RED in
  q <- int_truediv total_valid_all total_points ;;
  let data_quality := fmul q (of_int 100) in
  let total_pts := zsum (map total batches) in
  let predictions :=
    map (fun pos => (pos, predict pat_type params overall_mean pos))
      [total_pts; total_pts + 5; total_pts + 10] in
  let all_anomalies := List.concat (map anom_details batches) in
  Ok {|
    nb := nb; batches := batches;
    overall_mean := overall_mean; avg_r2 := avg_r2;
    overall_std := overall_std;
    total_invalid_all := total_invalid_all;
    total_valid_all := total_valid_all;
    total_points := total_points; total_anom := total_anom;
    pat_type := pat_type; run_params := params;
    max_danger_val := max_danger_val;
    stability := stability; stab_color := stab_color;
    data_quality := data_quality;
    predictions := predictions;
    all_anomalies := all_anomalies
  |}.

(** How [run] ends: with the message "Empty input", with the message
    "Could not parse valid data", or with a report. *)
Inductive outcome : Type :=
| EmptyInput
| CouldNotParse
| Analysed (report : Report).

Definition run (raw : string) : result outcome :=
  if negb (nonempty raw) then Ok EmptyInput
  else
    let '(data, invalid_parse) := parse py_float raw in
    unparsed <-
      (if negb (truthy data) then Ok true
       else if len data =? 1 then
         d0 <- index data 0 ;; Ok (feq d0 (of_int 0))
       else Ok false) ;;
    if (unparsed : bool) then Ok CouldNotParse
    else
      report <- run_body data invalid_parse ;;
      Ok (Analysed report).

End Run.

(** ** Auxiliary notions of the properties *)

(** Strings of white space. *)
Definition blank (s : string) : Prop :=
  Forall (fun c => is_space c = true) (list_ascii_of_string s).

(** What [parse] does to the text before splitting it, [strip] apart. *)
Definition scrub (s : string) : string :=
  replace "," " " (replace "]" "" (replace "[" "" s)).

(** The image of one character under [scrub]. *)
Definition scrub_char (c : ascii) : string :=
  if Ascii.eqb c "[" then ""
  else if Ascii.eqb c "]" then ""
  else if Ascii.eqb c "," then " "
  else String c "".

(** *** Doubles and their rounding

    A double is read through [Prim2SF] as a sign, a mantissa and an
    exponent.  [Zdigits2 m] is the number of binary digits of [m]. *)

(** The number [m * 2^e] is at most [2^k]. *)
Definition le_pow2 (m e k : Z) : Prop :=
  Zdigits2 m + e <= k \/
  (m = 2 ^ (Zdigits2 m - 1) /\ Zdigits2 m + e = k + 1).

(** What rounding to nearest returns for a number of sign [sx] whose
    mantissa and exponent add up to [t] digits, [t <= k]: a number in
    canonical form that is at most [2^k] in magnitude; 0 only on
    underflow, an infinity only when [2^k] is beyond the doubles. *)
Definition rounded (sx : bool) (t k : Z) (x : spec_float) : Prop :=
  match x with
  | S754_nan => False
  | S754_zero s => s = sx /\ t <= SpecFloat.fexp prec emax t
  | S754_infinity s => s = sx /\ 1024 <= k
  | S754_finite s m e =>
      s = sx /\ SpecFloat.bounded prec emax m e = true /\ le_pow2 (Zpos m) e k
  end.

(** The sign bit is [sx], or the number is NaN. *)
Definition sf_sign (sx : bool) (x : spec_float) : Prop :=
  match x with
  | S754_nan => True
  | S754_zero s | S754_infinity s | S754_finite s _ _ => s = sx
  end.

(** The sign bit is clear, or the number is NaN. *)
Definition sf_nonneg (x : spec_float) : Prop := sf_sign false x.

(** The double 1.0. *)
Definition sf_one : spec_float := S754_finite false 4503599627370496 (-52).

Definition b64_nonneg (x : float) : Prop := sf_nonneg (Prim2SF x).

(** [0 <= v <= 1] on doubles; it fails on NaN. *)
Definition in_unit_interval (v : float) : bool :=
  PrimFloat.leb 0 v && PrimFloat.leb v 1.

(** * Properties *)

(** ** The error monad *)

Lemma bind_Ok_inv {A B : Type} (m : result A) (k : A -> result B) (b : B) :
  bind m k = Ok b -> exists a, m = Ok a /\ k a = Ok b.
Proof. destruct m as [a | e]; simpl; [eauto | discriminate]. Qed.

(** ** Double precision: multiplication commutes *)

Lemma SFmul_comm (x y : spec_float) :
  SFmul prec emax x y = SFmul prec emax y x.
Proof.
  destruct x as [sx | sx | | sx mx ex], y as [sy | sy | | sy my ey];
    simpl; try reflexivity; try (now rewrite xorb_comm).
  now rewrite xorb_comm, Pos.mul_comm, Z.add_comm.
Qed.

Lemma b64_mul_comm (x y : float) : PrimFloat.mul x y = PrimFloat.mul y x.
Proof.
  apply Prim2SF_inj. rewrite !mul_spec. apply SFmul_comm.
Qed.

(** ** Double precision: the order *)

(** Reads the comparisons of a goal as facts about their arguments. *)
Ltac compare_cases :=
  repeat match goal with
    | H : context [Pos.compare_cont Eq ?a ?b] |- _ =>
        change (Pos.compare_cont Eq a b) with (Pos.compare a b) in H
    | |- context [Pos.compare_cont Eq ?a ?b] =>
        change (Pos.compare_cont Eq a b) with (Pos.compare a b)
    end;
  repeat match goal with
    | H : context [Z.compare ?a ?b] |- _ =>
        destruct (Z.compare_spec a b); cbn in H
    | |- context [Z.compare ?a ?b] => destruct (Z.compare_spec a b); cbn
    | H : context [Pos.compare ?a ?b] |- _ =>
        destruct (Pos.compare_spec a b); cbn in H
    | |- context [Pos.compare ?a ?b] => destruct (Pos.compare_spec a b); cbn
    end.

Lemma SFltb_trans (x y z : spec_float) :
  SFltb x y = true -> SFltb y z = true -> SFltb x z = true.
Proof.
  unfold SFltb, SFcompare.
  destruct x as [sx | sx | | sx mx ex], y as [sy | sy | | sy my ey],
    z as [sz | sz | | sz mz ez];
    try discriminate; try (destruct sx); try (destruct sy); try (destruct sz);
    try discriminate; try reflexivity; intros H1 H2;
    compare_cases; try discriminate; try reflexivity; try lia.
Qed.

Lemma SFltb_total (x y z : spec_float) :
  SFltb x z = true -> y <> S754_nan ->
  SFltb x y = true \/ SFltb y z = true.
Proof.
  unfold SFltb, SFcompare.
  destruct x as [sx | sx | | sx mx ex], y as [sy | sy | | sy my ey],
    z as [sz | sz | | sz mz ez];
    try discriminate; try easy;
    try (destruct sx); try (destruct sy); try (destruct sz);
    try discriminate; try (now left); try (now right); intros H1 _;
    compare_cases; try discriminate; try (now left); try (now right);
    try lia.
Qed.

Lemma SFleb_not_ltb (x y : spec_float) :
  x <> S754_nan -> y <> S754_nan ->
  SFleb x y = negb (SFltb y x).
Proof.
  unfold SFleb, SFltb, SFcompare.
  destruct x as [sx | sx | | sx mx ex], y as [sy | sy | | sy my ey];
    try easy; try (destruct sx); try (destruct sy); try reflexivity;
    intros _ _; compare_cases; try reflexivity; try lia.
Qed.

Lemma SFltb_not_nan (x y : spec_float) :
  SFltb x y = true -> x <> S754_nan /\ y <> S754_nan.
Proof.
  unfold SFltb, SFcompare. destruct x, y; try discriminate; split; discriminate.
Qed.

Lemma b64_is_nan (x : float) :
  PrimFloat.is_nan x = false <-> Prim2SF x <> S754_nan.
Proof.
  unfold PrimFloat.is_nan. rewrite eqb_spec. unfold SFeqb, SFcompare.
  destruct (Prim2SF x) as [s | s | | s m e]; try (destruct s); cbn;
    try (split; [discriminate | reflexivity]).
  - split; [discriminate | easy].
  - rewrite Z.compare_refl, Pos.compare_cont_refl. cbn.
    split; [discriminate | reflexivity].
  - rewrite Z.compare_refl, Pos.compare_cont_refl. cbn.
    split; [discriminate | reflexivity].
Qed.

Lemma SFltb_irrefl (x : spec_float) : SFltb x x = false.
Proof.
  unfold SFltb, SFcompare.
  destruct x as [s | s | | s m e]; try (destruct s); try reflexivity;
    now rewrite Z.compare_refl, Pos.compare_cont_refl.
Qed.

Lemma b64_ltb_irrefl (x : float) : PrimFloat.ltb x x = false.
Proof. rewrite ltb_spec. apply SFltb_irrefl. Qed.

Lemma b64_ltb_trans (x y z : float) :
  PrimFloat.ltb x y = true -> PrimFloat.ltb y z = true ->
  PrimFloat.ltb x z = true.
Proof. rewrite !ltb_spec. apply SFltb_trans. Qed.

Lemma b64_ltb_total (x y z : float) :
  PrimFloat.ltb x z = true -> PrimFloat.is_nan y = false ->
  PrimFloat.ltb x y = true \/ PrimFloat.ltb y z = true.
Proof.
  rewrite !ltb_spec, b64_is_nan. apply SFltb_total.
Qed.

Lemma b64_leb_not_ltb (x y : float) :
  PrimFloat.is_nan x = false -> PrimFloat.is_nan y = false ->
  PrimFloat.leb x y = negb (PrimFloat.ltb y x).
Proof.
  rewrite !b64_is_nan, leb_spec, ltb_spec. apply SFleb_not_ltb.
Qed.

Lemma b64_ltb_not_nan (x y : float) :
  PrimFloat.ltb x y = true ->
  PrimFloat.is_nan x = false /\ PrimFloat.is_nan y = false.
Proof.
  rewrite ltb_spec, !b64_is_nan. apply SFltb_not_nan.
Qed.

Lemma SFleb_ltb (x y : spec_float) :
  SFleb x y = true -> SFltb y x = false.
Proof.
  unfold SFleb, SFltb, SFcompare.
  destruct x as [sx | sx | | sx mx ex], y as [sy | sy | | sy my ey];
    try discriminate; try reflexivity;
    try (destruct sx); try (destruct sy); try discriminate; try reflexivity;
    intros H; compare_cases; try discriminate; try reflexivity; try lia.
Qed.

Lemma b64_leb_ltb (x y : float) :
  PrimFloat.leb x y = true -> PrimFloat.ltb y x = false.
Proof. rewrite leb_spec, ltb_spec. apply SFleb_ltb. Qed.

(** ** Double precision: rounding

    What the comparison of two doubles says about their values rests on
    the results of the operations being in canonical form.  The facts
    below follow the rounding of a mantissa [mx] with exponent [ex]
    through its two shifts: the result is canonical, and it does not
    exceed a power of two that [mx * 2^ex] does not exceed. *)

Lemma fexp_eq (e : Z) : SpecFloat.fexp prec emax e = Z.max (e - 53) (-1074).
Proof. reflexivity. Qed.

Lemma digits2_size (p : positive) : digits2_pos p = Pos.size p.
Proof. induction p; cbn; congruence. Qed.

Lemma Zdigits2_log2 (m : Z) : 0 < m -> Zdigits2 m = Z.log2 m + 1.
Proof.
  destruct m as [| p | p]; try lia. intros _. cbn [Zdigits2].
  rewrite digits2_size. destruct p; cbn [Z.log2 Pos.size]; lia.
Qed.

Lemma Zdigits2_pos (m : Z) : 0 < m -> 0 < Zdigits2 m.
Proof.
  intros H. rewrite Zdigits2_log2 by exact H.
  pose proof (Z.log2_nonneg m). lia.
Qed.

(** [m] has at most [k] digits exactly when it is below [2^k]. *)
Lemma Zdigits2_le (m k : Z) :
  0 <= m -> 0 <= k -> (Zdigits2 m <= k <-> m < 2 ^ k).
Proof.
  intros Hm Hk. destruct (Z.eq_dec m 0) as [-> | Hne].
  - cbn [Zdigits2]. pose proof (Z.pow_pos_nonneg 2 k). lia.
  - rewrite Zdigits2_log2 by lia.
    pose proof (Z.log2_lt_pow2 m k). lia.
Qed.

Lemma Zdigits2_ge (m k : Z) :
  0 < m -> 0 < k -> (k <= Zdigits2 m <-> 2 ^ (k - 1) <= m).
Proof.
  intros Hm Hk. rewrite Zdigits2_log2 by lia.
  pose proof (Z.log2_le_pow2 m (k - 1)). lia.
Qed.

Lemma Zdigits2_shiftr (m n : Z) :
  0 <= m -> 0 <= n -> Zdigits2 (m / 2 ^ n) = Z.max 0 (Zdigits2 m - n).
Proof.
  intros Hm Hn. destruct (Z.eq_dec m 0) as [-> | Hne].
  { rewrite Z.div_0_l by (apply Z.pow_nonzero; lia). cbn [Zdigits2]. lia. }
  assert (Hp : 0 < 2 ^ n) by (apply Z.pow_pos_nonneg; lia).
  destruct (Z.lt_ge_cases m (2 ^ n)) as [Hlt | Hge].
  - rewrite Z.div_small by lia. cbn [Zdigits2].
    pose proof (proj2 (Zdigits2_le m n Hm Hn) Hlt). lia.
  - assert (Hq : 0 < m / 2 ^ n).
    { apply Z.div_str_pos. lia. }
    rewrite !Zdigits2_log2 by lia.
    rewrite <- Z.shiftr_div_pow2 by lia.
    rewrite Z.log2_shiftr by lia.
    pose proof (proj1 (Z.log2_le_pow2 m n ltac:(lia)) Hge). lia.
Qed.

(** Adding one to a mantissa adds a digit only when it yields a power of
    two. *)
Lemma Zdigits2_succ (m : Z) :
  0 <= m ->
  Zdigits2 (m + 1) = Zdigits2 m \/
  Zdigits2 (m + 1) = Zdigits2 m + 1 /\ m + 1 = 2 ^ Zdigits2 m.
Proof.
  intros Hm. destruct (Z.eq_dec m 0) as [-> | Hne].
  { right. split; reflexivity. }
  pose proof (Zdigits2_pos m ltac:(lia)) as Hd.
  assert (Hup : m < 2 ^ Zdigits2 m) by (apply Zdigits2_le; lia).
  assert (Hlo : 2 ^ (Zdigits2 m - 1) <= m) by (apply Zdigits2_ge; lia).
  destruct (Z.eq_dec (m + 1) (2 ^ Zdigits2 m)) as [Heq | Hneq].
  - right. split; [| exact Heq].
    assert (H1 : Zdigits2 m + 1 <= Zdigits2 (m + 1)).
    { apply Zdigits2_ge; try lia.
      replace (Zdigits2 m + 1 - 1) with (Zdigits2 m) by lia. lia. }
    assert (H2 : Zdigits2 (m + 1) <= Zdigits2 m + 1).
    { apply Zdigits2_le; try lia.
      rewrite Z.pow_add_r by lia. lia. }
    lia.
  - left.
    assert (H1 : Zdigits2 (m + 1) <= Zdigits2 m)
      by (apply Zdigits2_le; lia).
    assert (H2 : Zdigits2 m <= Zdigits2 (m + 1))
      by (apply Zdigits2_ge; lia).
    lia.
Qed.

Lemma Zdigits2_mono (a b : Z) : 0 <= a <= b -> Zdigits2 a <= Zdigits2 b.
Proof.
  intros H. destruct (Z.eq_dec a 0) as [-> | Hne].
  - destruct b; cbn [Zdigits2]; lia.
  - rewrite !Zdigits2_log2 by lia. pose proof (Z.log2_le_mono a b). lia.
Qed.

(** *** The shifts *)

Lemma iter_pos_iter {A : Type} (f : A -> A) (p : positive) (x : A) :
  SpecFloat.iter_pos f p x = Pos.iter f x p.
Proof.
  revert x. induction p as [p IH | p IH |]; intros x;
    cbn [SpecFloat.iter_pos Pos.iter]; rewrite ?IH; [| reflexivity | reflexivity].
  now rewrite !Pos.iter_swap.
Qed.

Lemma shr_1_m (mrs : shr_record) :
  0 <= shr_m mrs -> shr_m (shr_1 mrs) = Z.div2 (shr_m mrs).
Proof.
  destruct mrs as [m r s]. cbn [shr_m]. intros H.
  destruct m as [| [p | p |] | p]; try lia; reflexivity.
Qed.

Lemma shr_iter_m (p : positive) (mrs : shr_record) :
  0 <= shr_m mrs ->
  shr_m (Pos.iter shr_1 mrs p) = shr_m mrs / 2 ^ Zpos p.
Proof.
  intros H. rewrite <- Z.shiftr_div_pow2 by lia.
  induction p as [| p IH] using Pos.peano_ind.
  - cbn [Pos.iter]. rewrite shr_1_m by exact H.
    now rewrite Z.div2_spec.
  - rewrite Pos.iter_succ, shr_1_m.
    + rewrite IH, Z.div2_spec, Z.shiftr_shiftr by lia. f_equal. lia.
    + rewrite IH. now apply Z.shiftr_nonneg.
Qed.

Lemma shr_record_of_loc_m (m : Z) (l : location) :
  shr_m (shr_record_of_loc m l) = m.
Proof. destruct l as [| []]; reflexivity. Qed.

(** [shr_fexp] shifts by the number of digits in excess. *)
Lemma shr_fexp_spec (m e : Z) (l : location) :
  0 <= m ->
  let n := Z.max 0 (SpecFloat.fexp prec emax (Zdigits2 m + e) - e) in
  shr_m (fst (shr_fexp prec emax m e l)) = m / 2 ^ n /\
  snd (shr_fexp prec emax m e l) = e + n.
Proof.
  intros Hm n. unfold shr_fexp, shr. subst n.
  destruct (SpecFloat.fexp prec emax (Zdigits2 m + e) - e) as [| p | p];
    cbn [fst snd].
  - rewrite shr_record_of_loc_m. cbn. rewrite Z.div_1_r. lia.
  - rewrite iter_pos_iter, shr_iter_m
      by (rewrite shr_record_of_loc_m; exact Hm).
    rewrite shr_record_of_loc_m. rewrite Z.max_r by lia. lia.
  - rewrite shr_record_of_loc_m. cbn. rewrite Z.div_1_r. lia.
Qed.

Lemma round_nearest_even_bounds (m : Z) (l : location) :
  m <= round_nearest_even m l <= m + 1.
Proof.
  destruct l as [| []]; cbn [round_nearest_even]; try lia.
  destruct (Z.even m); lia.
Qed.

Lemma shl_iter (m d : positive) :
  Zpos (Pos.iter xO m d) = Zpos m * 2 ^ Zpos d.
Proof.
  induction d as [| d IH] using Pos.peano_ind.
  - cbn [Pos.iter]. lia.
  - rewrite Pos.iter_succ, Pos2Z.inj_xO, IH, Pos2Z.inj_succ.
    rewrite Z.pow_succ_r by lia. lia.
Qed.

(** *** The rounded value *)

Lemma rounded_finish (sx : bool) (t k : Z) (m : positive) (e : Z) :
  SpecFloat.fexp prec emax (Zpos (digits2_pos m) + e) = e ->
  le_pow2 (Zpos m) e k ->
  rounded sx t k
    (if e <=? emax - prec then S754_finite sx m e else S754_infinity sx).
Proof.
  intros Hcan Hle. destruct (e <=? emax - prec) eqn:Hov; cbn [rounded].
  - split; [reflexivity |]. split; [| exact Hle].
    unfold SpecFloat.bounded, canonical_mantissa. rewrite Hov, andb_true_r.
    now apply Z.eqb_eq.
  - split; [reflexivity |]. apply Z.leb_gt in Hov.
    change (emax - prec) with 971 in Hov. rewrite fexp_eq in Hcan.
    unfold le_pow2 in Hle. cbn [Zdigits2] in Hle. lia.
Qed.

Lemma binary_round_aux_rounded (sx : bool) (mx ex : Z) (lx : location)
    (k : Z) :
  0 < mx -> ex <= SpecFloat.fexp prec emax (Zdigits2 mx + ex) ->
  Zdigits2 mx + ex <= k -> -1074 <= k ->
  rounded sx (Zdigits2 mx + ex) k (binary_round_aux prec emax sx mx ex lx).
Proof.
  intros Hmx Hex Hk Hk'.
  unfold binary_round_aux.
  pose proof (shr_fexp_spec mx ex lx ltac:(lia)) as H1. cbv zeta in H1.
  destruct (shr_fexp prec emax mx ex lx) as [mrs1 e1]. cbn [fst snd] in H1.
  destruct H1 as [Hm1 He1].
  set (t := Zdigits2 mx + ex) in *.
  set (E := SpecFloat.fexp prec emax t) in *.
  assert (HE : E = Z.max (t - 53) (-1074)) by reflexivity.
  clearbody E.
  rewrite Z.max_r in Hm1, He1 by lia.
  assert (He1' : e1 = E) by lia. clear He1.
  set (m1 := shr_m mrs1) in *.
  assert (Hp1 : 0 < 2 ^ (E - ex)) by (apply Z.pow_pos_nonneg; lia).
  assert (Hm1n : 0 <= m1) by (rewrite Hm1; apply Z.div_pos; lia).
  assert (Hd1 : Zdigits2 m1 = Z.max 0 (t - E)).
  { rewrite Hm1, Zdigits2_shiftr by lia. unfold t. f_equal. lia. }
  pose proof (round_nearest_even_bounds m1 (loc_of_shr_record mrs1)) as Hr.
  set (m2 := round_nearest_even m1 (loc_of_shr_record mrs1)) in *.
  pose proof (shr_fexp_spec m2 e1 loc_Exact ltac:(lia)) as H2.
  cbv zeta in H2.
  destruct (shr_fexp prec emax m2 e1 loc_Exact) as [mrs2 e2].
  cbn [fst snd] in H2. destruct H2 as [Hm3 He2].
  set (m3 := shr_m mrs2) in *.
  rewrite He1' in Hm3, He2. rewrite fexp_eq in Hm3, He2.
  (* the digits of [m2] *)
  assert (Hd2 : Zdigits2 m2 = Zdigits2 m1 \/
                Zdigits2 m2 = Zdigits2 m1 + 1 /\ m2 = 2 ^ Zdigits2 m1).
  { destruct (Z.eq_dec m2 m1) as [-> | Hne]; [now left |].
    assert (Hs : m2 = m1 + 1) by lia. rewrite Hs.
    apply Zdigits2_succ. exact Hm1n. }
  assert (Hd1le : Zdigits2 m1 <= 53) by lia.
  destruct (Z.eq_dec (Zdigits2 m2) 54) as [H54 | H54].
  - (* the carry *)
    destruct Hd2 as [Hd2 | [Hd2 Hpow]]; [lia |].
    assert (Hd1e : Zdigits2 m1 = 53) by lia.
    rewrite H54 in Hm3, He2.
    assert (Hn2 : Z.max 0 (Z.max (54 + E - 53) (-1074) - E) = 1) by lia.
    rewrite Hn2 in Hm3, He2.
    rewrite Hpow, Hd1e in Hm3. change (2 ^ 53 / 2 ^ 1) with (2 ^ 52) in Hm3.
    rewrite Hm3. cbn [Z.pow Z.pow_pos Pos.iter Z.mul Pos.mul].
    apply rounded_finish.
    + rewrite fexp_eq. cbn [digits2_pos Pos.succ]. lia.
    + unfold le_pow2. cbn [Zdigits2 digits2_pos Pos.succ].
      destruct (Z.eq_dec t k) as [Htk | Htk].
      * right. split; [reflexivity | lia].
      * left. lia.
  - assert (Hd2le : Zdigits2 m2 <= 53) by lia.
    rewrite Z.max_l in Hm3, He2 by lia.
    cbn [Z.pow] in Hm3. rewrite Z.div_1_r in Hm3.
    rewrite Hm3.
    destruct m2 as [| p2 | p2]; [| | lia].
    + cbn [rounded]. split; [reflexivity |].
      assert (m1 = 0) by lia.
      assert (Hz : Zdigits2 m1 = 0) by (replace m1 with 0 by lia; reflexivity).
      rewrite fexp_eq. lia.
    + apply rounded_finish.
      * rewrite fexp_eq. change (Zpos (digits2_pos p2)) with
          (Zdigits2 (Zpos p2)).
        destruct (Z.eq_dec E (-1074)) as [HE1 | HE1]; [lia |].
        assert (Zdigits2 m1 = 53) by lia.
        pose proof (Zdigits2_mono m1 (Zpos p2) ltac:(lia)). lia.
      * unfold le_pow2.
        destruct Hd2 as [Hd2 | [Hd2 Hpow]].
        -- destruct (Z.eq_dec (Zdigits2 m1) 0) as [Hz | Hz].
           ++ exfalso. pose proof (Zdigits2_pos (Zpos p2) ltac:(lia)). lia.
           ++ left. lia.
        -- destruct (Z.eq_dec (Zdigits2 m1) 0) as [Hz | Hz].
           ++ (* everything was shifted out and the rest rounded up *)
              rewrite Hz in Hpow, Hd2.
              destruct (Z.eq_dec k (-1074)) as [Hk1 | Hk1].
              ** right. rewrite Hd2. split; [rewrite Hpow; reflexivity |].
                 lia.
              ** left. lia.
           ++ destruct (Z.eq_dec t k) as [Htk | Htk].
              ** right. split; [| lia].
                 rewrite Hd2, Hpow. f_equal. lia.
              ** left. lia.
Qed.

Lemma Zdigits2_shiftl (m n : Z) :
  0 < m -> 0 <= n -> Zdigits2 (m * 2 ^ n) = Zdigits2 m + n.
Proof.
  intros Hm Hn.
  assert (0 < 2 ^ n) by (apply Z.pow_pos_nonneg; lia).
  rewrite !Zdigits2_log2 by nia.
  rewrite Z.log2_mul_pow2 by lia. lia.
Qed.

Lemma shl_align_spec (mx : positive) (ex ex' : Z) :
  Zpos (fst (shl_align mx ex ex')) = Zpos mx * 2 ^ Z.max 0 (ex - ex') /\
  snd (shl_align mx ex ex') = Z.min ex ex'.
Proof.
  unfold shl_align. destruct (ex' - ex) as [| d | d] eqn:E; cbn [fst snd].
  - replace (Z.max 0 (ex - ex')) with 0 by lia. cbn [Z.pow]. lia.
  - replace (Z.max 0 (ex - ex')) with 0 by lia. cbn [Z.pow]. lia.
  - rewrite shl_iter. replace (Z.max 0 (ex - ex')) with (Zpos d) by lia. lia.
Qed.

Lemma binary_round_rounded (sx : bool) (mx : positive) (ex k : Z) :
  Zdigits2 (Zpos mx) + ex <= k -> -1074 <= k ->
  rounded sx (Zdigits2 (Zpos mx) + ex) k (binary_round prec emax sx mx ex).
Proof.
  intros Hk Hk'. unfold binary_round.
  set (E := SpecFloat.fexp prec emax (Zpos (digits2_pos mx) + ex)).
  pose proof (shl_align_spec mx ex E) as [Hm He].
  destruct (shl_align mx ex E) as [mz ez]. cbn [fst snd] in Hm, He.
  assert (Hd : Zdigits2 (Zpos mz) + ez = Zdigits2 (Zpos mx) + ex).
  { rewrite Hm, Zdigits2_shiftl by lia. lia. }
  rewrite <- Hd. apply binary_round_aux_rounded; try lia.
  rewrite Hd. change (ez <= E). lia.
Qed.

Lemma binary_round_aux_sign (sx : bool) (mx ex : Z) (lx : location) :
  sf_sign sx (binary_round_aux prec emax sx mx ex lx).
Proof.
  unfold binary_round_aux.
  destruct (shr_fexp prec emax mx ex lx) as [mrs1 e1].
  destruct (shr_fexp prec emax _ e1 loc_Exact) as [mrs2 e2].
  destruct (shr_m mrs2); [reflexivity | | exact I].
  destruct (e2 <=? emax - prec); reflexivity.
Qed.

Lemma binary_round_sign (sx : bool) (mx : positive) (ex : Z) :
  sf_sign sx (binary_round prec emax sx mx ex).
Proof.
  unfold binary_round. destruct (shl_align _ _ _) as [mz ez].
  apply binary_round_aux_sign.
Qed.


(** *** Sums of squares are not negative *)

Lemma SFmul_square_nonneg (x : spec_float) :
  sf_nonneg (SFmul prec emax x x).
Proof.
  destruct x as [s | s | | s m e]; cbn [SFmul]; try exact I.
  - destruct s; reflexivity.
  - destruct s; reflexivity.
  - replace (xorb s s) with false by (destruct s; reflexivity).
    apply binary_round_aux_sign.
Qed.

Lemma SFadd_nonneg (x y : spec_float) :
  sf_nonneg x -> sf_nonneg y -> sf_nonneg (SFadd prec emax x y).
Proof.
  destruct x as [sx | sx | | sx mx ex], y as [sy | sy | | sy my ey];
    cbn [sf_nonneg sf_sign]; intros Hx Hy; subst; cbn [SFadd];
    try exact I; try reflexivity.
  cbn [cond_Zopp Z.add binary_normalize]. apply binary_round_sign.
Qed.

Lemma SFdiv_nonneg (x y : spec_float) :
  sf_nonneg x -> sf_nonneg y -> sf_nonneg (SFdiv prec emax x y).
Proof.
  destruct x as [sx | sx | | sx mx ex], y as [sy | sy | | sy my ey];
    cbn [sf_nonneg sf_sign]; intros Hx Hy; subst; cbn [SFdiv xorb];
    try exact I; try reflexivity.
  destruct (SFdiv_core_binary prec emax (Zpos mx) ex (Zpos my) ey)
    as [[mz ez] lz].
  apply binary_round_aux_sign.
Qed.



(** *** One minus a number that is not negative *)

Lemma rounded_le_one (t : Z) (x : spec_float) :
  rounded false t 0 x \/ sf_sign true x ->
  SFltb sf_one x = false.
Proof.
  unfold SFltb, SFcompare, sf_one.
  destruct x as [s | s | | s m e]; try reflexivity.
  - intros [[-> H] | H]; [lia |]. cbn in H. now subst.
  - intros [[-> [Hb Hle]] | H].
    2:{ cbn in H. now subst. }
    unfold SpecFloat.bounded, canonical_mantissa in Hb.
    apply andb_prop in Hb. destruct Hb as [Hc _]. apply Z.eqb_eq in Hc.
    rewrite fexp_eq in Hc. unfold le_pow2 in Hle. cbn [Zdigits2] in Hle.
    destruct (Z.compare_spec (-52) e) as [He | He | He]; try reflexivity.
    + subst e. assert (Hd : Zpos (digits2_pos m) = 53) by lia.
      destruct Hle as [Hle | [Hpow _]]; [lia |].
      rewrite Hd in Hpow. injection Hpow as ->. reflexivity.
    + exfalso. lia.
Qed.

Lemma SFsub_one_le (q : spec_float) :
  sf_nonneg q -> SFltb sf_one (SFsub prec emax sf_one q) = false.
Proof.
  destruct q as [s | s | | s m e]; cbn [sf_nonneg sf_sign]; intros H; subst;
    try reflexivity.
  unfold sf_one. cbn [SFsub cond_Zopp].
  set (ez := Z.min (-52) e).
  pose proof (shl_align_spec 4503599627370496 (-52) ez) as [H1 _].
  pose proof (shl_align_spec m e ez) as [H2 _].
  set (a := fst (shl_align 4503599627370496 (-52) ez)) in *.
  set (b := fst (shl_align m e ez)) in *.
  assert (Ha : Zpos a = 2 ^ (- ez)).
  { rewrite H1. change 4503599627370496 with (2 ^ 52).
    rewrite <- Z.pow_add_r by lia. f_equal. lia. }
  destruct (Zpos a - Zpos b) as [| p | p] eqn:Ed; cbn [binary_normalize].
  - reflexivity.
  - apply (rounded_le_one (Zdigits2 (Zpos p) + ez)). left.
    apply binary_round_rounded; [| lia].
    assert (Hlt : Zpos p < 2 ^ (- ez)) by lia.
    apply Zdigits2_le in Hlt; lia.
  - apply (rounded_le_one 0). right. apply binary_round_sign.
Qed.

(** *** The same facts on the doubles *)

Lemma b64_square_nonneg (x : float) : b64_nonneg (PrimFloat.mul x x).
Proof. unfold b64_nonneg. rewrite mul_spec. apply SFmul_square_nonneg. Qed.

Lemma b64_add_nonneg (x y : float) :
  b64_nonneg x -> b64_nonneg y -> b64_nonneg (PrimFloat.add x y).
Proof. unfold b64_nonneg. rewrite add_spec. apply SFadd_nonneg. Qed.

Lemma b64_div_nonneg (x y : float) :
  b64_nonneg x -> b64_nonneg y -> b64_nonneg (PrimFloat.div x y).
Proof. unfold b64_nonneg. rewrite div_spec. apply SFdiv_nonneg. Qed.



Lemma b64_one_minus_le (q : float) :
  b64_nonneg q -> PrimFloat.ltb 1 (PrimFloat.sub 1 q) = false.
Proof.
  unfold b64_nonneg. intros H. rewrite ltb_spec, sub_spec.
  now apply SFsub_one_le.
Qed.

(** A number above a positive one has its sign bit clear and is not 0. *)
Lemma b64_gt_pos (c x : float) :
  PrimFloat.ltb 0 c = true -> PrimFloat.ltb c x = true ->
  b64_nonneg x /\ PrimFloat.eqb x 0 = false.
Proof.
  unfold b64_nonneg. rewrite !ltb_spec, eqb_spec.
  change (Prim2SF 0) with (S754_zero false).
  unfold SFltb, SFeqb, SFcompare.
  destruct (Prim2SF c) as [sc | sc | | sc mc ec],
    (Prim2SF x) as [s | s | | s m e]; try discriminate;
    try (destruct sc); try (destruct s); try discriminate;
    intros _ _; split; reflexivity.
Qed.

(** *** The conversion of an int *)



(** An int below [2^1023] in magnitude, as every literal, length and
    position is, converts to a finite double: on such an int [of_int] is
    the whole of the conversion, and [float_of_int] does not raise. *)
Lemma b64_of_int_finite (n : Z) :
  - 2 ^ 1023 < n < 2 ^ 1023 ->
  isinf (F := float) (of_int (PF := B64.binary64) n) = false.
Proof.
  intros Hn. cbn [isinf B64.binary64]. unfold PrimFloat.is_infinity.
  rewrite eqb_spec, abs_spec.
  unfold of_int. cbn [of_decimal B64.binary64].
  unfold B64.b64_of_decimal. cbn [Z.leb Z.compare Z.pow].
  rewrite Z.mul_1_r.
  assert (Hr : forall s p, Zpos p < 2 ^ 1023 ->
            SFeqb (SFabs (Prim2SF (SF2Prim (binary_round prec emax s p 0))))
                  (Prim2SF infinity) = false).
  { intros s p Hp.
    assert (Hd : Zdigits2 (Zpos p) <= 1023)
      by (apply Zdigits2_le; lia).
    pose proof (binary_round_rounded s p 0
                  (Z.max (Zdigits2 (Zpos p) + 0) (-1074))
                  ltac:(lia) ltac:(lia)) as H.
    destruct (binary_round prec emax s p 0) as [s' | s' | | s' m e];
      cbn [rounded] in H.
    - destruct s'; reflexivity.
    - exfalso. lia.
    - destruct H.
    - destruct H as [_ [Hb _]].
      rewrite (Prim2SF_SF2Prim (S754_finite s' m e) Hb). reflexivity. }
  destruct n as [| p | p].
  - reflexivity.
  - cbn [binary_normalize]. apply Hr. lia.
  - cbn [binary_normalize]. apply Hr. lia.
Qed.

Lemma float_of_int_in_range_b64 (n : Z) :
  - 2 ^ 1023 < n < 2 ^ 1023 ->
  float_of_int (PF := B64.binary64) n = Ok (of_int n).
Proof.
  intros Hn. unfold float_of_int. now rewrite b64_of_int_finite.
Qed.

(** *** Sums of squares on the doubles *)

Lemma mapM_Forall {A B : Type} (f : A -> result B) (P : B -> Prop)
    (l : list A) (l' : list B) :
  (forall a v, f a = Ok v -> P v) -> mapM f l = Ok l' -> Forall P l'.
Proof.
  intros Hf. revert l'. induction l as [| a l IH]; intros l' H.
  - cbn [mapM] in H. inversion H. constructor.
  - cbn [mapM] in H. apply bind_Ok_inv in H. destruct H as [v [Hv H]].
    apply bind_Ok_inv in H. destruct H as [vs [Hvs H]].
    inversion H; subst. constructor; [eapply Hf; exact Hv | now apply IH].
Qed.

Lemma pow2_nonneg_b64 (x r : float) :
  pow2 (PF := B64.binary64) x = Ok r -> b64_nonneg r.
Proof.
  unfold pow2. cbv zeta. destruct (_ && _); [discriminate |].
  intros [= <-]. apply b64_square_nonneg.
Qed.

Lemma fold_add_nonneg_b64 (l : list float) (acc : float) :
  b64_nonneg acc -> Forall b64_nonneg l ->
  b64_nonneg (fold_left PrimFloat.add l acc).
Proof.
  revert acc. induction l as [| v l IH]; intros acc Ha Hl; cbn [fold_left].
  - exact Ha.
  - inversion Hl; subst. apply IH; [| assumption].
    now apply b64_add_nonneg.
Qed.

Lemma fsum_nonneg_b64 (l : list float) :
  Forall b64_nonneg l -> b64_nonneg (fsum (PF := B64.binary64) l).
Proof. apply fold_add_nonneg_b64. reflexivity. Qed.

Lemma c_1em10_pos_b64 :
  PrimFloat.ltb 0 (c_1em10 (PF := B64.binary64)) = true.
Proof. vm_compute. reflexivity. Qed.

(** ** [clean] and the sentinel *)

Section CleanFacts.

Context {F : Type} {PF : PyFloat F}.

Lemma clean_loop_spec (d acc : list F) (inv : Z) :
  clean_loop d acc inv =
  (acc ++ filter keep d, inv + len (filter (fun v => negb (keep v)) d)).
Proof.
  revert acc inv. induction d as [| v d IH]; intros acc inv; simpl.
  - rewrite app_nil_r. unfold len. simpl. f_equal. lia.
  - destruct (keep v); simpl; rewrite IH.
    + now rewrite <- app_assoc.
    + f_equal. unfold len. simpl. lia.
Qed.

(** What [clean] returns, in one equation. *)
Lemma clean_spec (d : list F) :
  clean d =
  (if truthy (filter keep d) then filter keep d else [of_int 0],
   len (filter (fun v => negb (keep v)) d)).
Proof.
  unfold clean. rewrite clean_loop_spec. reflexivity.
Qed.

(** [clean] never returns an empty list. *)
Lemma clean_truthy (d : list F) : truthy (fst (clean d)) = true.
Proof.
  rewrite clean_spec. simpl. destruct (filter keep d); reflexivity.
Qed.

End CleanFacts.

(** ** [proc] and the sentinel *)

Section ProcFacts.

Context {F : Type} {PF : PyFloat F} {PM : PyMath F}.

(** [proc] never returns [None]: the list it tests is never empty. *)
Lemma proc_never_none (batch : list F) (bid inv : Z) :
  proc batch bid inv <> Ok None.
Proof.
  unfold proc. pose proof (clean_truthy batch) as Ht.
  destruct (clean batch) as [cl inv_clean]. cbn [fst] in Ht.
  rewrite Ht. cbn [negb]. intros H.
  repeat (apply bind_Ok_inv in H; destruct H as [? [_ H]]).
  destruct (anom cl) as [[? ?] ?].
  repeat (apply bind_Ok_inv in H; destruct H as [? [_ H]]).
  discriminate H.
Qed.

(** Whenever [proc] returns a summary, its median is the element at
    index [len(clean) // 2] of the sorted cleaned values. *)
Lemma proc_median (batch : list F) (bid inv : Z) (s : Summary) :
  proc batch bid inv = Ok (Some s) ->
  nth_error (sorted (fst (clean batch)))
    (Z.to_nat (len (fst (clean batch)) / 2)) = Some (median s).
Proof.
  unfold proc. destruct (clean batch) as [cl inv_clean]. cbn [fst].
  destruct (negb (truthy cl)); [discriminate |]. intros H.
  do 5 (apply bind_Ok_inv in H; destruct H as [? [_ H]]).
  destruct (anom cl) as [[? ?] ?].
  do 2 (apply bind_Ok_inv in H; destruct H as [? [_ H]]).
  apply bind_Ok_inv in H. destruct H as [med [Hmed H]].
  do 3 (apply bind_Ok_inv in H; destruct H as [? [_ H]]).
  inversion H. cbn [median].
  unfold index in Hmed.
  destruct (nth_error (sorted cl) (Z.to_nat (len cl / 2))); [| discriminate].
  now inversion Hmed.
Qed.

End ProcFacts.

(** C1 (the code departs from the claim): in every arithmetic [clean]
    returns a non-empty list and [proc] never returns [None].  The batch
    [[1e16]] loses its only value in [clean], yet [proc] returns a
    summary for it, computed on the sentinel [[0]] as if 0 were a sample:
    one valid point of mean 0, fitted by the LINEAR model. *)
Theorem proc_emptied_batch_not_skipped :
  (forall (F : Type) (PF : PyFloat F) (PM : PyMath F)
          (batch : list F) (bid inv : Z),
      truthy (fst (clean batch)) = true /\
      proc batch bid inv <> Ok None) /\
  (forall log exp : float -> float,
      clean (PF := B64.binary64) [1e16%float] = ([0%float], 1) /\
      exists s : Summary,
        proc (PF := B64.binary64) (PM := B64.libm log exp) [1e16%float] 1 0
        = Ok (Some s) /\
        total s = 1 /\ valid s = 1 /\ invalid_clean s = 1 /\
        mean s = 0%float /\ type s = "LINEAR" /\ r2 s = 0.5%float).
Proof.
  split.
  - intros F PF PM batch bid inv.
    split; [apply clean_truthy | apply proc_never_none].
  - intros log exp. split; [vm_compute; reflexivity |].
    eexists. split; [vm_compute; reflexivity |].
    repeat split; reflexivity.
Qed.

(** ** [calc_stability] *)

(** C2, as the code has it: with every point invalid and a CRITICAL
    rating the anomaly term still contributes 0.3 x 100, and the score is
    30.0, not 0.0. *)
Lemma stability_all_invalid_is_30 :
  calc_stability (PF := B64.binary64) 100 100 0 "CRITICAL" = Ok 30%float /\
  calc_stability (PF := B64.binary64) 100 100 0 "CRITICAL" <> Ok 0%float.
Proof.
  split; [vm_compute; reflexivity |].
  intros H.
  apply (f_equal (fun v => match v with
                           | Ok x => PrimFloat.eqb x 0
                           | Raise _ => false
                           end)) in H.
  vm_compute in H. discriminate H.
Qed.

(** C2 (amended): [calc_stability(0, 100, 0, LOW)] is exactly 100.0 and
    [calc_stability(100, 100, 0, CRITICAL)] is exactly 30.0. *)
Theorem stability_examples :
  calc_stability (PF := B64.binary64) 0 100 0 "LOW" = Ok 100%float /\
  calc_stability (PF := B64.binary64) 100 100 0 "CRITICAL" = Ok 30%float.
Proof.
  split; vm_compute; reflexivity.
Qed.

Section StabilityFacts.

Context {F : Type} {PF : PyFloat F}.

Lemma danger_score_spec (d : string) : danger_score d = spec_danger_score d.
Proof.
  unfold danger_score, spec_danger_score, get, dict_get.
  rewrite (String.eqb_sym "LOW"), (String.eqb_sym "HIGH"),
    (String.eqb_sym "CRITICAL").
  destruct (String.eqb d "LOW"); [reflexivity |].
  destruct (String.eqb d "HIGH"); [reflexivity |].
  destruct (String.eqb d "CRITICAL"); reflexivity.
Qed.

End StabilityFacts.

Lemma calc_stability_spec {F : Type} {PF : PyFloat F}
    (Hcomm : forall a b : F, fmul a b = fmul b a)
    (total_invalid total_points anomalies : Z) (danger : string) :
  0 <= total_points ->
  calc_stability total_invalid total_points anomalies danger
  = if (total_points =? 0)
       || quotients_in_range total_invalid total_points anomalies
    then Ok (spec_stability total_invalid total_points anomalies danger)
    else Raise OverflowError.
Proof.
  intros Htp.
  unfold calc_stability, spec_stability, spec_data_quality,
    spec_anomaly_ratio, int_truediv, quotients_in_range.
  rewrite danger_score_spec.
  destruct (Z.eqb_spec total_points 0) as [-> | Hne].
  - simpl. rewrite !(Hcomm c_0_5), !(Hcomm c_0_3), !(Hcomm c_0_2).
    reflexivity.
  - assert (Hgt : (total_points >? 0) = true) by lia.
    rewrite Hgt. cbn [orb].
    destruct (isinf (int_div (total_points - total_invalid) total_points));
      [reflexivity |].
    destruct (isinf (int_div anomalies total_points)); [reflexivity |].
    simpl. rewrite !(Hcomm c_0_5), !(Hcomm c_0_3), !(Hcomm c_0_2).
    reflexivity.
Qed.

(** C4, as the code has it: a quotient of two ints that is beyond the
    floats raises OverflowError, so some calls with [total_points > 0]
    return nothing: 10^400 anomalies among 1 point, or -10^400 invalid
    values among 1 point. *)
Lemma calc_stability_overflows :
  calc_stability (PF := B64.binary64) 0 1 (10 ^ 400) "LOW"
  = Raise OverflowError /\
  calc_stability (PF := B64.binary64) (- 10 ^ 400) 1 0 "LOW"
  = Raise OverflowError.
Proof. split; vm_compute; reflexivity. Qed.

(** C4 (amended): for [total_points >= 0], in every arithmetic whose
    product commutes and in double precision, [calc_stability] returns
    the weighted sum [0.5 x data_quality + 0.3 x (100 - anomaly_ratio) +
    0.2 x danger_score] rounded to 2 decimals, with the ratios and the
    rating scores (100, 50, 0, and 75 for an unknown rating) of the
    specification, both ratios being 0 when [total_points = 0], provided
    that the two quotients [(total_points - total_invalid) / total_points]
    and [anomalies / total_points] are within the floats; otherwise it
    raises OverflowError.  In double precision the call (7, 100, 3, HIGH)
    returns 85.6, the call (1, 3, 1, other) 68.33, the call (10^400,
    10^400, 10^400, LOW) 20.0, and the calls (0, 1, 10^400, LOW) and
    (-10^400, 1, 0, LOW) raise. *)
Theorem calc_stability_formula :
  (forall (F : Type) (PF : PyFloat F),
      (forall a b : F, fmul a b = fmul b a) ->
      forall (total_invalid total_points anomalies : Z) (danger : string),
        0 <= total_points ->
        calc_stability total_invalid total_points anomalies danger
        = if (total_points =? 0)
             || quotients_in_range total_invalid total_points anomalies
          then Ok (spec_stability total_invalid total_points anomalies danger)
          else Raise OverflowError) /\
  (forall (total_invalid total_points anomalies : Z) (danger : string),
      0 <= total_points ->
      calc_stability (PF := B64.binary64)
        total_invalid total_points anomalies danger
      = if (total_points =? 0)
           || quotients_in_range (PF := B64.binary64)
                total_invalid total_points anomalies
        then Ok (spec_stability (PF := B64.binary64)
                   total_invalid total_points anomalies danger)
        else Raise OverflowError) /\
  spec_stability (PF := B64.binary64) 7 100 3 "HIGH"
  = B64.b64_of_decimal 856 (-1) /\
  calc_stability (PF := B64.binary64) 7 100 3 "HIGH"
  = Ok (B64.b64_of_decimal 856 (-1)) /\
  calc_stability (PF := B64.binary64) 1 3 1 "MEDIUM"
  = Ok (B64.b64_of_decimal 6833 (-2)) /\
  calc_stability (PF := B64.binary64) (10 ^ 400) (10 ^ 400) (10 ^ 400) "LOW"
  = Ok 20%float /\
  calc_stability (PF := B64.binary64) 0 1 (10 ^ 400) "LOW"
  = Raise OverflowError /\
  calc_stability (PF := B64.binary64) (- 10 ^ 400) 1 0 "LOW"
  = Raise OverflowError.
Proof.
  split; [intros F PF Hcomm; intros; now apply calc_stability_spec |].
  split; [intros; now apply (calc_stability_spec (PF := B64.binary64) b64_mul_comm) |].
  repeat split; vm_compute; reflexivity.
Qed.

(** ** Exact arithmetic: basic facts *)

Lemma mapM_ok {A B : Type} (f : A -> result B) (g : A -> B) (l : list A) :
  (forall a, In a l -> f a = Ok (g a)) -> mapM f l = Ok (map g l).
Proof.
  induction l as [| a l IH]; intros H; simpl; [reflexivity |].
  rewrite (H a (or_introl eq_refl)). simpl.
  rewrite IH by (intros; apply H; now right). reflexivity.
Qed.

Lemma Rltb_true (x y : R) : Exact.Rltb x y = true <-> (x < y)%R.
Proof.
  unfold Exact.Rltb. destruct (Rlt_dec x y); split; intros; try easy.
Qed.

Lemma Rltb_false (x y : R) : Exact.Rltb x y = false <-> (y <= x)%R.
Proof.
  unfold Exact.Rltb. destruct (Rlt_dec x y); split; intros; try easy; lra.
Qed.

Lemma Reqb_false (x y : R) : Exact.Reqb x y = false <-> x <> y.
Proof.
  unfold Exact.Reqb. destruct (Req_dec_T x y); split; intros; try easy.
Qed.

Lemma of_int_R (n : Z) : of_int (PF := Exact.reals) n = IZR n.
Proof.
  unfold of_int. simpl. unfold Exact.real_of_decimal. simpl.
  now rewrite Z.mul_1_r.
Qed.

Lemma truediv_R (x y : R) : y <> 0%R -> truediv x y = Ok (x / y)%R.
Proof.
  intros H. unfold truediv. rewrite of_int_R. simpl.
  apply Reqb_false in H. now rewrite H.
Qed.

Lemma c_1em10_R : c_1em10 (PF := Exact.reals) = (/ 10000000000)%R.
Proof. unfold c_1em10. simpl. unfold Exact.real_of_decimal. simpl. lra. Qed.

(** ** [anom] *)

Section AnomFacts.

Context {F : Type} {PF : PyFloat F}.


Lemma len_filter_critical (l : list (@Anomaly F)) :
  (len (filter (fun a => String.eqb (sev a) "CRITICAL") l) >? 0)
  = existsb (fun a => String.eqb (sev a) "CRITICAL") l.
Proof.
  induction l as [| a l IH]; [reflexivity |]. cbn [filter existsb].
  destruct (String.eqb (sev a) "CRITICAL"); cbn [orb].
  - unfold len. cbn [List.length]. rewrite Nat2Z.inj_succ.
    apply Z.gtb_lt. apply Zle_lt_succ, Nat2Z.is_nonneg.
  - exact IH.
Qed.

End AnomFacts.

Lemma fsum_acc (l : list R) (a : R) :
  fold_left Rplus l a = (a + fold_left Rplus l 0)%R.
Proof.
  revert a. induction l as [| x l IH]; intros a; simpl; [lra |].
  rewrite IH, (IH (0 + x)%R). lra.
Qed.

Lemma fsum_cons (x : R) (l : list R) :
  fsum (PF := Exact.reals) (x :: l) = (x + fsum l)%R.
Proof.
  unfold fsum. rewrite of_int_R. simpl. rewrite fsum_acc. lra.
Qed.

Lemma fsum_nil : fsum (PF := Exact.reals) [] = 0%R.
Proof. unfold fsum. now rewrite of_int_R. Qed.

Lemma fsum_nonneg (l : list R) :
  (forall x, In x l -> (0 <= x)%R) -> (0 <= fsum l)%R.
Proof.
  induction l as [| x l IH]; intros H.
  - rewrite fsum_nil. lra.
  - rewrite fsum_cons.
    assert (0 <= x)%R by (apply H; now left).
    assert (0 <= fsum l)%R by (apply IH; intros; apply H; now right).
    lra.
Qed.

Lemma fsum_squares_nonneg {A : Type} (f : A -> R) (l : list A) :
  (0 <= fsum (map (fun a => f a * f a)%R l))%R.
Proof.
  apply fsum_nonneg. intros x Hx. apply in_map_iff in Hx.
  destruct Hx as [a [<- _]]. nra.
Qed.

Lemma py_sqrt_R (v : R) : (0 <= v)%R -> py_sqrt v = Ok (sqrt v).
Proof.
  intros H. unfold py_sqrt. rewrite of_int_R. simpl.
  apply Rltb_false in H. now rewrite H.
Qed.

Lemma len_pos_R {A : Type} (l : list A) : l <> [] -> (0 < IZR (len l))%R.
Proof.
  intros H. apply IZR_lt. unfold len. destruct l; [easy | simpl; lia].
Qed.

Section AnomalyMembership.
Context {F : Type} {PF : PyFloat F}.



End AnomalyMembership.

(** *** [anom] in double precision *)








(** ** Loops over indices *)

Lemma mapM_ext {A B : Type} (f g : A -> result B) (l : list A) :
  (forall a, f a = g a) -> mapM f l = mapM g l.
Proof.
  intros H. induction l as [| a l IH]; simpl; [reflexivity |].
  now rewrite H, IH.
Qed.

Lemma mapM_map {A B C : Type} (f : B -> result C) (g : A -> B) (l : list A) :
  mapM f (map g l) = mapM (fun a => f (g a)) l.
Proof.
  induction l as [| a l IH]; simpl; [reflexivity |]. now rewrite IH.
Qed.

(** A loop [for i in range(len(x))] that reads [x[i]] and [y[i]]. *)
Lemma mapM_index2 {A B C : Type} (h : A -> B -> C) (x : list A) (y : list B) :
  (List.length x <= List.length y)%nat ->
  mapM (fun i => a <- index x i ;; b <- index y i ;; Ok (h a b))
    (seq 0 (List.length x))
  = Ok (map (fun '(a, b) => h a b) (combine x y)).
Proof.
  revert y. induction x as [| a x IH]; intros y Hlen; [reflexivity |].
  destruct y as [| b y]; [simpl in Hlen; lia |].
  cbn [List.length]. rewrite <- cons_seq, <- seq_shift.
  cbn [mapM]. unfold index at 1 2. cbn [nth_error bind].
  rewrite mapM_map.
  rewrite (mapM_ext _ (fun i => a0 <- index x i ;; b0 <- index y i ;;
                                Ok (h a0 b0)))
    by (intros; reflexivity).
  rewrite IH by (simpl in Hlen; lia). reflexivity.
Qed.

Lemma mapM_index1 {A C : Type} (h : A -> C) (x : list A) :
  mapM (fun i => a <- index x i ;; Ok (h a)) (seq 0 (List.length x))
  = Ok (map h x).
Proof.
  induction x as [| a x IH]; [reflexivity |].
  cbn [List.length]. rewrite <- cons_seq, <- seq_shift.
  cbn [mapM]. unfold index at 1. cbn [nth_error bind].
  rewrite mapM_map.
  rewrite (mapM_ext _ (fun i => a0 <- index x i ;; Ok (h a0)))
    by (intros; reflexivity).
  rewrite IH. reflexivity.
Qed.

(** ** [fit] in exact arithmetic *)

Lemma c_1em10_pos : (0 < c_1em10 (PF := Exact.reals))%R.
Proof. rewrite c_1em10_R. apply Rinv_0_lt_compat. lra. Qed.

Lemma fgt_R (a b : R) : fgt a b = true <-> (b < a)%R.
Proof. unfold fgt. apply Rltb_true. Qed.

Lemma fgt_R_false (a b : R) : fgt a b = false <-> (a <= b)%R.
Proof. unfold fgt. apply Rltb_false. Qed.

Lemma int_truediv_R (a b : Z) :
  b <> 0 -> int_truediv (PF := Exact.reals) a b = Ok (IZR a / IZR b)%R.
Proof.
  intros H. unfold int_truediv. apply Z.eqb_neq in H. now rewrite H.
Qed.

Lemma len_nonzero {A : Type} (l : list A) : l <> [] -> len l <> 0.
Proof. destruct l; [easy |]. unfold len. simpl. lia. Qed.

Lemma IZR_len_nonzero {A : Type} (l : list A) : l <> [] -> IZR (len l) <> 0%R.
Proof. intros H. apply Rgt_not_eq. now apply len_pos_R. Qed.

Lemma ss_total_R (y : list R) (my : R) :
  ss_total y my = Ok (fsum (map (fun yi => sq (yi - my)%R) y)).
Proof.
  unfold ss_total.
  rewrite (mapM_ok _ (fun yi => sq (yi - my)%R)) by (intros; reflexivity).
  reflexivity.
Qed.

Lemma ss_resid_R (y pred : list R) :
  ss_resid y pred = Ok (spec_ss_res y pred).
Proof.
  unfold ss_resid, spec_ss_res.
  rewrite (mapM_ok _ (fun '(yi, pi) => sq (yi - pi)%R)).
  - reflexivity.
  - intros [yi pi] _. reflexivity.
Qed.

Lemma r_squared_R (ss_res ss_tot dflt : R) :
  exists v, r_squared ss_res ss_tot dflt = Ok v /\
            max0 v = spec_r2 ss_res ss_tot dflt.
Proof.
  unfold r_squared, spec_r2.
  destruct (fgt ss_tot c_1em10) eqn:E.
  - apply fgt_R in E. pose proof c_1em10_pos.
    rewrite truediv_R by (apply Rgt_not_eq; lra).
    eexists. split; reflexivity.
  - eexists. split; reflexivity.
Qed.

Lemma spec_mean_R (y : list R) : spec_mean y = (fsum y / IZR (len y))%R.
Proof. unfold spec_mean. now rewrite of_int_R. Qed.

Lemma fit_R (x : list Z) (y : list R) :
  x <> [] -> (List.length x <= List.length y)%nat ->
  fit x y = Ok (spec_fit x y).
Proof.
  intros Hx Hlen.
  assert (Hy : y <> []) by (destruct x, y; simpl in *; try easy; lia).
  unfold fit.
  rewrite int_truediv_R by now apply len_nonzero. cbn [bind].
  rewrite of_int_R, truediv_R by now apply IZR_len_nonzero. cbn [bind].
  rewrite <- spec_mean_R.
  set (mx := (IZR (zsum x) / IZR (len x))%R).
  set (my := spec_mean y).
  rewrite (mapM_ext _ (fun i => xi <- index x i ;; yi <- index y i ;;
                          Ok (fmul (fsub (of_int xi) mx) (fsub yi my))))
    by (intros; reflexivity).
  rewrite (mapM_index2 (fun xi yi => fmul (fsub (of_int xi) mx) (fsub yi my)))
    by exact Hlen.
  cbn [bind].
  rewrite (mapM_ext _ (fun i => xi <- index x i ;;
                          Ok (sq (fsub (of_int xi) mx))))
    by (intros; reflexivity).
  rewrite (mapM_index1 (fun xi => sq (fsub (of_int xi) mx))).
  cbn [bind].
  set (num := fsum (map _ (combine x y))).
  set (den := fsum (map _ x)).
  assert (Ha : (if fgt (fabs den) c_1em10 then truediv num den
                else Ok (of_int 0))
               = Ok (spec_slope x y)).
  { change (spec_slope x y)
      with (if fgt (fabs den) c_1em10 then fdiv num den else of_int 0).
    destruct (fgt (fabs den) c_1em10) eqn:E; [| reflexivity].
    apply fgt_R in E. pose proof c_1em10_pos.
    rewrite truediv_R; [reflexivity |].
    intros ->. change (fabs 0%R) with (Rabs 0) in E.
    rewrite Rabs_R0 in E. lra. }
  rewrite Ha. cbn [bind].
  rewrite (mapM_ok _ (fun xi => fadd (fmul (spec_slope x y) (of_int xi))
                                  (fsub my (fmul (spec_slope x y) mx))))
    by (intros; reflexivity).
  cbn [bind].
  rewrite ss_total_R, ss_resid_R. cbn [bind].
  match goal with
  | |- context [r_squared ?a ?b ?c] =>
      destruct (r_squared_R a b c) as [v [Hv Hmax]]
  end.
  rewrite Hv. cbn [bind]. rewrite Hmax. reflexivity.
Qed.

Lemma max0_R (v : R) : max0 v = Rmax 0 v.
Proof.
  unfold max0. rewrite of_int_R. destruct (fgt v 0%R) eqn:E.
  - apply fgt_R in E. rewrite Rmax_right; lra.
  - apply fgt_R_false in E. rewrite Rmax_left; lra.
Qed.

Lemma c_0_5_R : c_0_5 (PF := Exact.reals) = (1 / 2)%R.
Proof. unfold c_0_5. simpl. unfold Exact.real_of_decimal. simpl. lra. Qed.

Lemma c_0_3_R : c_0_3 (PF := Exact.reals) = (3 / 10)%R.
Proof. unfold c_0_3. simpl. unfold Exact.real_of_decimal. simpl. lra. Qed.

Lemma range_length (n : nat) : List.length (range n) = n.
Proof. unfold range. now rewrite length_map, length_seq. Qed.

(** ** Double precision: [max(0, v)] is not negative *)

Lemma b64_pos_not_neg (v : float) :
  PrimFloat.ltb 0 v = true -> PrimFloat.ltb v 0 = false.
Proof.
  rewrite !ltb_spec. change (Prim2SF 0) with (S754_zero false).
  destruct (Prim2SF v) as [s | s | | s m e]; cbn; try easy;
    destruct s; easy.
Qed.

Lemma fit_max0 {F : Type} {PF : PyFloat F} (x : list Z) (y : list F)
    (a b r2 : F) :
  fit x y = Ok (a, b, r2) -> exists v, r2 = max0 v.
Proof.
  unfold fit. intros H.
  repeat (apply bind_Ok_inv in H; destruct H as [? [_ H]]).
  inversion H. eauto.
Qed.

(** ** The candidate blocks of [analyze] *)

Section DiffFacts.

Context {F : Type} {PF : PyFloat F}.

Lemma diffs_spec (l : list F) : diffs l = Ok (spec_diffs l).
Proof.
  unfold diffs, spec_diffs. destruct l as [| a l]; [reflexivity |].
  cbn [List.length tl]. rewrite Nat.sub_succ, Nat.sub_0_r.
  rewrite (mapM_ext _ (fun i => hi <- index l i ;; lo <- index (a :: l) i ;;
                                Ok (fsub hi lo))).
  - apply mapM_index2. simpl. lia.
  - intros i. rewrite Nat.add_1_r. reflexivity.
Qed.

Lemma spec_diffs_length (l : list F) :
  List.length (spec_diffs l) = (List.length l - 1)%nat.
Proof.
  unfold spec_diffs. rewrite length_map, length_combine.
  destruct l; simpl; lia.
Qed.

End DiffFacts.

Lemma index_hd {A : Type} (d : A) (l : list A) :
  l <> [] -> index l 0 = Ok (hd d l).
Proof. destruct l; [easy | reflexivity]. Qed.

Lemma truthy_nonempty {A : Type} (l : list A) : truthy l = true <-> l <> [].
Proof. destruct l; simpl; split; intros; easy. Qed.

Lemma quad_R (x : list Z) (y : list R) :
  2 < len y -> quad x y = Ok (Some (spec_quad x y)).
Proof.
  intros Hlen. unfold quad.
  assert (Hgt : (len y >? 2) = true) by lia. rewrite Hgt.
  rewrite diffs_spec. cbn [bind]. rewrite diffs_spec. cbn [bind].
  assert (Hy : y <> []) by (intros ->; unfold len in Hlen; simpl in Hlen; lia).
  assert (Hn1 : (List.length (spec_diffs y) >= 2)%nat).
  { rewrite spec_diffs_length. unfold len in Hlen. lia. }
  assert (Hn2 : (List.length (spec_diffs (spec_diffs y)) >= 1)%nat).
  { rewrite spec_diffs_length. lia. }
  assert (Hd1 : spec_diffs y <> [])
    by (intros E; rewrite E in Hn1; simpl in Hn1; lia).
  assert (Hd2 : spec_diffs (spec_diffs y) <> [])
    by (intros E; rewrite E in Hn2; simpl in Hn2; lia).
  rewrite (proj2 (truthy_nonempty _) Hd1), (proj2 (truthy_nonempty _) Hd2).
  rewrite of_int_R, truediv_R.
  2:{ apply not_0_IZR. unfold len. lia. }
  cbn [bind]. rewrite (index_hd (of_int 0)) by exact Hd1. cbn [bind].
  rewrite (index_hd (of_int 0)) by exact Hy. cbn [bind].
  match goal with
  | |- context [mapM ?f x] =>
      rewrite (mapM_ok f (fun i => fadd (fadd (fmul (fmul
                 (fsum (spec_diffs (spec_diffs y))
                  / IZR (2 * len (spec_diffs (spec_diffs y))))%R (of_int i))
                 (of_int i))
                 (fmul (fsub (hd (of_int 0) (spec_diffs y))
                 (fsum (spec_diffs (spec_diffs y))
                  / IZR (2 * len (spec_diffs (spec_diffs y))))%R) (of_int i)))
                 (hd (of_int 0) y)))
        by (intros; reflexivity)
  end.
  cbn [bind].
  rewrite of_int_R, truediv_R by now apply IZR_len_nonzero. cbn [bind].
  rewrite <- spec_mean_R.
  rewrite ss_total_R, ss_resid_R. cbn [bind].
  match goal with
  | |- context [r_squared ?a ?b ?c] =>
      destruct (r_squared_R a b c) as [v [Hv Hmax]]
  end.
  rewrite Hv. cbn [bind]. rewrite Hmax.
  unfold spec_quad. cbv zeta. rewrite !of_int_R. reflexivity.
Qed.

Lemma py_log_R (v : R) : (0 < v)%R -> py_log v = Ok (ln v).
Proof.
  intros H. unfold py_log. rewrite of_int_R.
  apply fgt_R in H. now rewrite H.
Qed.

Lemma expo_R (x : list Z) (y : list R) :
  x <> [] -> (List.length x <= List.length y)%nat ->
  forallb (fun yi => fgt yi (of_int 0)) y = true ->
  expo x y = Ok (Some (spec_expo x y)).
Proof.
  intros Hx Hlen Hpos. unfold expo. rewrite Hpos.
  rewrite (mapM_ok _ ln).
  2:{ intros v Hv. apply py_log_R. rewrite forallb_forall in Hpos.
      specialize (Hpos v Hv). rewrite of_int_R in Hpos.
      now apply fgt_R in Hpos. }
  cbn [bind]. rewrite fit_R by (try rewrite length_map; assumption).
  cbn [bind]. unfold spec_expo. change (map flog y) with (map ln y).
  destruct (spec_fit x (map ln y)) as [[ae be] re]. reflexivity.
Qed.

Section CandidateFacts.

Context {F : Type} {PF : PyFloat F} {PM : PyMath F}.

(** The table [res], entry by entry. *)
Lemma candidates_entries (y : list F) :
  let x := range (List.length y) in
  candidates y =
  ("LINEAR",
   match fit x y with
   | Ok (a, b, r2) => [("r2", r2); ("a", a); ("b", b)]
   | Raise _ => failed
   end)
  :: match quad x y with
     | Ok (Some q) => [("QUAD", q)]
     | Ok None => []
     | Raise _ => [("QUAD", failed)]
     end
  ++ match expo x y with
     | Ok (Some e) => [("EXP", e)]
     | Ok None => []
     | Raise _ => [("EXP", failed)]
     end.
Proof.
  unfold candidates. cbv zeta.
  destruct (fit _ y) as [[[a b] r2] | e1];
    destruct (quad _ y) as [[q |] | e2];
    destruct (expo _ y) as [[e |] | e3]; reflexivity.
Qed.

(** The QUAD block records nothing exactly when [len(y) <= 2]. *)
Lemma quad_none_iff (x : list Z) (y : list F) :
  quad x y = Ok None <-> (len y >? 2) = false.
Proof.
  unfold quad. destruct (len y >? 2); split; try easy.
  intros H.
  repeat (apply bind_Ok_inv in H; destruct H as [? [_ H]]).
  discriminate H.
Qed.

(** The EXP block records nothing exactly when some value is not
    strictly positive. *)
Lemma expo_none_iff (x : list Z) (y : list F) :
  expo x y = Ok None <-> forallb (fun yi => fgt yi (of_int 0)) y = false.
Proof.
  unfold expo. destruct (forallb _ y); split; try easy.
  intros H.
  apply bind_Ok_inv in H. destruct H as [? [_ H]].
  apply bind_Ok_inv in H. destruct H as [[[ae be] re] [_ H]].
  apply bind_Ok_inv in H. destruct H as [? [_ H]].
  discriminate H.
Qed.

Lemma candidates_keys (y : list F) :
  map fst (candidates y) =
  "LINEAR"
  :: (if len y >? 2 then ["QUAD"] else [])
  ++ (if forallb (fun yi => fgt yi (of_int 0)) y then ["EXP"] else []).
Proof.
  rewrite candidates_entries. cbv zeta. cbn [map fst]. rewrite map_app.
  f_equal. f_equal.
  - destruct (quad _ y) as [[q |] | e] eqn:E.
    + destruct (len y >? 2) eqn:L; [reflexivity |].
      apply (proj2 (quad_none_iff (range (List.length y)) y)) in L.
      congruence.
    + apply (proj1 (quad_none_iff _ y)) in E. now rewrite E.
    + destruct (len y >? 2) eqn:L; [reflexivity |].
      apply (proj2 (quad_none_iff (range (List.length y)) y)) in L.
      congruence.
  - destruct (expo _ y) as [[q |] | e] eqn:E.
    + destruct (forallb _ y) eqn:L; [reflexivity |].
      apply (proj2 (expo_none_iff (range (List.length y)) y)) in L.
      congruence.
    + apply (proj1 (expo_none_iff _ y)) in E. now rewrite E.
    + destruct (forallb _ y) eqn:L; [reflexivity |].
      apply (proj2 (expo_none_iff (range (List.length y)) y)) in L.
      congruence.
Qed.

(** A block that raises leaves the score -1 under its name. *)
Lemma candidates_raise (y : list F) :
  let x := range (List.length y) in
  (forall e, fit x y = Raise e ->
             dict_get (candidates y) "LINEAR" = Some failed) /\
  (forall e, quad x y = Raise e ->
             dict_get (candidates y) "QUAD" = Some failed) /\
  (forall e, expo x y = Raise e ->
             dict_get (candidates y) "EXP" = Some failed).
Proof.
  cbv zeta. rewrite candidates_entries. cbv zeta. repeat split; intros e H.
  - rewrite H. reflexivity.
  - rewrite H. reflexivity.
  - rewrite H. destruct (quad _ y) as [[q |] | e2]; reflexivity.
Qed.

Lemma score_failed (name : string) : score (name, failed) = of_int (-1).
Proof. reflexivity. Qed.

End CandidateFacts.

(** ** [analyze] in exact arithmetic *)

Lemma range_nil_iff (n : nat) : range n = [] <-> n = 0%nat.
Proof.
  unfold range. destruct n; [easy |]. rewrite <- cons_seq. easy.
Qed.

(** On a non-empty sequence no block raises. *)
Lemma candidates_R (y : list R) :
  y <> [] ->
  let x := range (List.length y) in
  candidates y =
  ("LINEAR",
   let '(a, b, r2) := spec_fit x y in [("r2", r2); ("a", a); ("b", b)])
  :: (if len y >? 2 then [("QUAD", spec_quad x y)] else [])
  ++ (if forallb (fun yi => fgt yi (of_int 0)) y
      then [("EXP", spec_expo x y)] else []).
Proof.
  intros Hy x. rewrite candidates_entries. cbv zeta. fold x.
  assert (Hx : x <> []).
  { unfold x. intros E. apply range_nil_iff in E.
    destruct y; [easy | discriminate E]. }
  assert (Hlen : (List.length x <= List.length y)%nat)
    by (unfold x; rewrite range_length; lia).
  rewrite fit_R by assumption.
  f_equal. f_equal.
  - destruct (len y >? 2) eqn:L.
    + rewrite quad_R by lia. reflexivity.
    + apply (proj2 (quad_none_iff x y)) in L. now rewrite L.
  - destruct (forallb _ y) eqn:L.
    + rewrite expo_R by assumption. reflexivity.
    + apply (proj2 (expo_none_iff x y)) in L. now rewrite L.
Qed.

(** On the empty sequence LINEAR and EXP raise and QUAD is skipped. *)
Lemma candidates_nil :
  candidates (PF := Exact.reals) [] = [("LINEAR", failed); ("EXP", failed)].
Proof. reflexivity. Qed.

(** [max_from] returns the first element of greatest key. *)
Lemma max_from_R {A : Type} (key : A -> R) (l before mid : list A) (best : A) :
  (forall c, In c before -> (key c < key best)%R) ->
  (forall c, In c mid -> (key c <= key best)%R) ->
  exists l1 l2,
    before ++ best :: mid ++ l = l1 ++ max_from key best l :: l2 /\
    (forall c, In c l1 -> (key c < key (max_from key best l))%R) /\
    (forall c, In c l2 -> (key c <= key (max_from key best l))%R).
Proof.
  revert before mid best.
  induction l as [| a l IH]; intros before mid best Hb Hm.
  - exists before, mid. rewrite app_nil_r. auto.
  - cbn [max_from]. destruct (fgt (key a) (key best)) eqn:E.
    + apply fgt_R in E.
      destruct (IH (before ++ best :: mid) [] a) as [l1 [l2 [Heq H]]].
      * intros c Hc. apply in_app_or in Hc. destruct Hc as [Hc | [<- | Hc]].
        -- specialize (Hb c Hc). lra.
        -- exact E.
        -- specialize (Hm c Hc). lra.
      * intros c [].
      * exists l1, l2. split; [| exact H].
        rewrite <- Heq. rewrite <- !app_assoc. reflexivity.
    + apply fgt_R_false in E.
      destruct (IH before (mid ++ [a]) best) as [l1 [l2 [Heq H]]].
      * exact Hb.
      * intros c Hc. apply in_app_or in Hc. destruct Hc as [Hc | [<- | []]].
        -- now apply Hm.
        -- exact E.
      * exists l1, l2. split; [| exact H].
        rewrite <- Heq. rewrite <- !app_assoc. reflexivity.
Qed.

Lemma max_by_R {A : Type} (key : A -> R) (l : list A) :
  l <> [] ->
  exists best l1 l2,
    max_by key l = Ok best /\ l = l1 ++ best :: l2 /\
    (forall c, In c l1 -> (key c < key best)%R) /\
    (forall c, In c l2 -> (key c <= key best)%R).
Proof.
  destruct l as [| a l]; [easy | intros _].
  destruct (max_from_R key l [] [] a) as [l1 [l2 [Heq H]]]; try (intros c []).
  exists (max_from key a l), l1, l2. split; [reflexivity |].
  split; [exact Heq | exact H].
Qed.

Lemma candidates_nonempty {F : Type} {PF : PyFloat F} {PM : PyMath F}
    (y : list F) : candidates y <> [].
Proof. rewrite candidates_entries. discriminate. Qed.

(** Every recorded parameter set has its score under ["r2"]. *)
Lemma candidates_have_r2 {F : Type} {PF : PyFloat F} {PM : PyMath F}
    (y : list F) (c : string * dict F) :
  In c (candidates y) -> dict_get (snd c) "r2" <> None.
Proof.
  rewrite candidates_entries. cbv zeta. intros [<- | Hin].
  - cbn [snd]. destruct (fit _ y) as [[[a b] r2] | e]; discriminate.
  - apply in_app_or in Hin. destruct Hin as [Hin | Hin].
    + destruct (quad _ y) as [[q |] | e] eqn:E.
      * destruct Hin as [<- | []]. cbn [snd].
        unfold quad in E. destruct (len y >? 2); [| discriminate E].
        repeat (apply bind_Ok_inv in E; destruct E as [? [_ E]]).
        inversion E. discriminate.
      * destruct Hin.
      * destruct Hin as [<- | []]. discriminate.
    + destruct (expo _ y) as [[q |] | e] eqn:E.
      * destruct Hin as [<- | []]. cbn [snd].
        unfold expo in E. destruct (forallb _ y); [| discriminate E].
        apply bind_Ok_inv in E. destruct E as [? [_ E]].
        apply bind_Ok_inv in E. destruct E as [[[ae be] re] [_ E]].
        apply bind_Ok_inv in E. destruct E as [? [_ E]].
        inversion E. discriminate.
      * destruct Hin.
      * destruct Hin as [<- | []]. discriminate.
Qed.

Lemma get_present {V : Type} (d : dict V) (k : string) (d1 d2 : V) :
  dict_get d k <> None -> get d k d1 = get d k d2.
Proof. unfold get. destruct (dict_get d k); easy. Qed.

Lemma analyze_overflow_b64 (log exp : float -> float) :
  analyze (PF := B64.binary64) (PM := B64.libm log exp)
    [B64.b64_of_decimal 1 200; 0%float]
  = Ok {| t := "LINEAR"; r := (-1)%float; p := [("r2", (-1)%float)] |}.
Proof. vm_compute. reflexivity. Qed.

(** ** The floor of the scores *)

Section FloorFacts.

Context {F : Type} {PF : PyFloat F} {PM : PyMath F}.

(** The score of a block that returns is a [max(0, v)]. *)
Lemma quad_max0 (x : list Z) (y : list F) (q : dict F) (d : F) :
  quad x y = Ok (Some q) -> exists v, get q "r2" d = max0 v.
Proof.
  unfold quad. destruct (len y >? 2); [| discriminate].
  intros H. repeat (apply bind_Ok_inv in H; destruct H as [? [_ H]]).
  inversion H. eexists. reflexivity.
Qed.

Lemma expo_max0 (x : list Z) (y : list F) (e : dict F) (d : F) :
  expo x y = Ok (Some e) -> exists v, get e "r2" d = max0 v.
Proof.
  unfold expo. destruct (forallb _ y); [| discriminate].
  intros H. apply bind_Ok_inv in H. destruct H as [logs [_ H]].
  apply bind_Ok_inv in H. destruct H as [[[ae be] re] [Hfit H]].
  apply bind_Ok_inv in H. destruct H as [amp [_ H]].
  inversion H. apply fit_max0 in Hfit. destruct Hfit as [v ->].
  eexists. reflexivity.
Qed.

Lemma candidates_max0 (y : list F) (c : string * dict F) :
  In c (candidates y) -> snd c = failed \/ exists v, score c = max0 v.
Proof.
  rewrite candidates_entries. cbv zeta. intros [<- | Hin].
  - cbn [snd]. destruct (fit _ y) as [[[a b] r2] | e] eqn:E; [| now left].
    right. apply fit_max0 in E. destruct E as [v ->]. now exists v.
  - apply in_app_or in Hin. destruct Hin as [Hin | Hin].
    + destruct (quad _ y) as [[q |] | e] eqn:E.
      * destruct Hin as [<- | []]. right. apply (quad_max0 _ _ _ _ E).
      * destruct Hin.
      * destruct Hin as [<- | []]. now left.
    + destruct (expo _ y) as [[q |] | e] eqn:E.
      * destruct Hin as [<- | []]. right. apply (expo_max0 _ _ _ _ E).
      * destruct Hin.
      * destruct Hin as [<- | []]. now left.
Qed.

End FloorFacts.

(** ** [analyze]: the selection *)

Section FirstMaximum.

Context {F : Type} {PF : PyFloat F}.

(** The comparison is a strict weak order away from NaN. *)
Hypothesis flt_trans :
  forall a b c : F, flt a b = true -> flt b c = true -> flt a c = true.
Hypothesis flt_total :
  forall a b c : F,
    flt a c = true -> isnan b = false -> flt a b = true \/ flt b c = true.

(** [max_from] returns the first element of greatest key. *)
Lemma max_from_first {A : Type} (key : A -> F) (l before mid : list A)
    (best : A) :
  (forall c, In c (mid ++ l) -> isnan (key c) = false) ->
  (forall c, In c before -> flt (key c) (key best) = true) ->
  (forall c, In c mid -> flt (key best) (key c) = false) ->
  exists l1 l2,
    before ++ best :: mid ++ l = l1 ++ max_from key best l :: l2 /\
    (forall c, In c l1 -> flt (key c) (key (max_from key best l)) = true) /\
    (forall c, In c l2 -> flt (key (max_from key best l)) (key c) = false).
Proof.
  revert before mid best.
  induction l as [| a l IH]; intros before mid best Hn Hb Hm.
  - exists before, mid. rewrite app_nil_r. auto.
  - cbn [max_from]. destruct (fgt (key a) (key best)) eqn:E.
    + unfold fgt in E.
      destruct (IH (before ++ best :: mid) [] a) as [l1 [l2 [Heq H]]].
      * intros c Hc. apply Hn. apply in_or_app. right. now right.
      * intros c Hc. apply in_app_or in Hc. destruct Hc as [Hc | [<- | Hc]].
        -- exact (flt_trans _ _ _ (Hb c Hc) E).
        -- exact E.
        -- assert (Hc' : isnan (key c) = false)
             by (apply Hn, in_or_app; now left).
           destruct (flt_total _ (key c) _ E Hc') as [H | H]; [| exact H].
           rewrite (Hm c Hc) in H. discriminate H.
      * intros c [].
      * exists l1, l2. split; [| exact H].
        rewrite <- Heq. rewrite <- !app_assoc. reflexivity.
    + destruct (IH before (mid ++ [a]) best) as [l1 [l2 [Heq H]]].
      * intros c Hc. apply Hn. rewrite <- app_assoc in Hc. exact Hc.
      * exact Hb.
      * intros c Hc. apply in_app_or in Hc. destruct Hc as [Hc | [<- | []]].
        -- now apply Hm.
        -- exact E.
      * exists l1, l2. split; [| exact H].
        rewrite <- Heq. rewrite <- !app_assoc. reflexivity.
Qed.

Lemma max_by_first {A : Type} (key : A -> F) (l : list A) :
  l <> [] ->
  (forall c, In c l -> isnan (key c) = false) ->
  exists best l1 l2,
    max_by key l = Ok best /\ l = l1 ++ best :: l2 /\
    (forall c, In c l1 -> flt (key c) (key best) = true) /\
    (forall c, In c l2 -> flt (key best) (key c) = false).
Proof.
  destruct l as [| a l]; [easy | intros _ Hn].
  destruct (max_from_first key l [] [] a) as [l1 [l2 [Heq H]]];
    try (intros c []).
  - intros c Hc. apply Hn. now right.
  - exists (max_from key a l), l1, l2. split; [reflexivity |].
    split; [exact Heq | exact H].
Qed.

Context {PM : PyMath F}.

(** A score is never NaN. *)
Hypothesis flt_not_nan :
  forall a b : F, flt a b = true -> isnan b = false.
Hypothesis zero_not_nan : isnan (of_int 0) = false.
Hypothesis minus_one_not_nan : isnan (of_int (-1)) = false.

Lemma score_not_nan (y : list F) (c : string * dict F) :
  In c (candidates y) -> isnan (score c) = false.
Proof.
  intros Hc. destruct (candidates_max0 y c Hc) as [Hf | [v Hv]].
  - unfold score. rewrite Hf. exact minus_one_not_nan.
  - rewrite Hv. unfold max0, fgt. destruct (flt (of_int 0) v) eqn:E.
    + exact (flt_not_nan _ _ E).
    + exact zero_not_nan.
Qed.

(** [analyze] returns the first candidate of greatest score. *)
Lemma analyze_first_maximum (y : list F) :
  exists (best : string * dict F) (before after : dict (dict F)),
    candidates y = before ++ best :: after /\
    analyze y = Ok {| t := fst best; r := score best; p := snd best |} /\
    (forall c, In c before -> flt (score c) (score best) = true) /\
    (forall c, In c after -> flt (score best) (score c) = false) /\
    (forall c, In c (candidates y) -> isnan (score c) = false).
Proof.
  destruct (max_by_first score (candidates y) (candidates_nonempty y)
              (score_not_nan y))
    as [best [l1 [l2 [Hmax [Heq [H1 H2]]]]]].
  exists best, l1, l2. split; [exact Heq |].
  split; [| split; [exact H1 | split; [exact H2 | exact (score_not_nan y)]]].
  unfold analyze. rewrite Hmax. cbn [bind]. do 2 f_equal.
  unfold score. apply get_present.
  apply (candidates_have_r2 y). rewrite Heq.
  apply in_or_app. right. now left.
Qed.

End FirstMaximum.

Lemma analyze_first_maximum_b64 (log exp : float -> float) (y : list float) :
  exists (best : string * dict float) (before after : dict (dict float)),
    candidates (PF := B64.binary64) (PM := B64.libm log exp) y
    = before ++ best :: after /\
    analyze (PF := B64.binary64) (PM := B64.libm log exp) y
    = Ok {| t := fst best; r := score best; p := snd best |} /\
    (forall c, In c before ->
               PrimFloat.ltb (score c) (score best) = true) /\
    (forall c, In c after ->
               PrimFloat.leb (score c) (score best) = true).
Proof.
  destruct (analyze_first_maximum (PF := B64.binary64)
              (PM := B64.libm log exp)
              b64_ltb_trans b64_ltb_total
              (fun a b H => proj2 (b64_ltb_not_nan a b H))
              eq_refl eq_refl y)
    as [best [l1 [l2 [Heq [Han [H1 [H2 Hn]]]]]]].
  exists best, l1, l2. repeat split; try assumption.
  intros c Hc.
  assert (Hin : forall c', In c' (best :: l2) ->
                  In c' (candidates (PF := B64.binary64)
                           (PM := B64.libm log exp) y)).
  { intros c' Hc'. rewrite Heq. apply in_or_app. now right. }
  rewrite b64_leb_not_ltb.
  - change (PrimFloat.ltb (score best) (score c))
      with (flt (score best) (score c)).
    now rewrite (H2 c Hc).
  - apply Hn, Hin. now right.
  - apply Hn, Hin. now left.
Qed.

(** C5: in every arithmetic the table of candidates holds LINEAR, then
    QUAD exactly when the length exceeds 2, then EXP exactly when every
    value is strictly positive, and a block that raises is recorded with
    the score -1 (as LINEAR is on the empty sequence, and in double
    precision on [[1e200, 0]], where a square overflows).  In double
    precision, for every sequence and every C library, [analyze] returns
    the first candidate, in that order, whose score is greatest: the
    candidates before it have a strictly smaller score, those after it a
    score that is not greater; no score is NaN.  On [[0, 1, 2, 3]] LINEAR
    and QUAD both score 1.0 and LINEAR is returned.  The same holds in
    exact arithmetic. *)
Theorem analyze_selects_first_maximum :
  (forall (F : Type) (PF : PyFloat F) (PM : PyMath F) (y : list F),
      let x := range (List.length y) in
      map fst (candidates y) =
      "LINEAR"
      :: (if len y >? 2 then ["QUAD"] else [])
      ++ (if forallb (fun yi => fgt yi (of_int 0)) y then ["EXP"] else [])
      /\ (forall e, fit x y = Raise e ->
                    dict_get (candidates y) "LINEAR" = Some failed)
      /\ (forall e, quad x y = Raise e ->
                    dict_get (candidates y) "QUAD" = Some failed)
      /\ (forall e, expo x y = Raise e ->
                    dict_get (candidates y) "EXP" = Some failed)
      /\ (forall name, score (name, failed) = of_int (-1))
      /\ fit (range 0) (@nil F) = Raise ZeroDivisionError) /\
  (forall (log exp : float -> float) (y : list float),
      exists (best : string * dict float) (before after : dict (dict float)),
        candidates (PF := B64.binary64) (PM := B64.libm log exp) y
        = before ++ best :: after /\
        analyze (PF := B64.binary64) (PM := B64.libm log exp) y
        = Ok {| t := fst best; r := score best; p := snd best |} /\
        (forall c, In c before ->
                   PrimFloat.ltb (score c) (score best) = true) /\
        (forall c, In c after ->
                   PrimFloat.leb (score c) (score best) = true)) /\
  (forall y : list R,
      exists (best : string * dict R) (before after : dict (dict R)),
        candidates y = before ++ best :: after /\
        analyze y = Ok {| t := fst best; r := score best; p := snd best |} /\
        (forall c, In c before -> (score c < score best)%R) /\
        (forall c, In c after -> (score c <= score best)%R)) /\
  (forall log exp : float -> float,
      analyze (PF := B64.binary64) (PM := B64.libm log exp)
        [B64.b64_of_decimal 1 200; 0%float]
      = Ok {| t := "LINEAR"; r := (-1)%float; p := [("r2", (-1)%float)] |}) /\
  (forall log exp : float -> float,
      analyze (PF := B64.binary64) (PM := B64.libm log exp)
        [0; 1; 2; 3]%float
      = Ok {| t := "LINEAR"; r := 1%float;
              p := [("r2", 1); ("a", 1); ("b", 0)]%float |} /\
      map (fun c => (fst c, score c))
        (candidates (PF := B64.binary64) (PM := B64.libm log exp)
           [0; 1; 2; 3]%float)
      = [("LINEAR", 1%float); ("QUAD", 1%float)]).
Proof.
  split; [| split; [exact analyze_first_maximum_b64 |
                    split; [| split; [exact analyze_overflow_b64 |]]]].
  - intros F PF PM y x. split; [apply candidates_keys |].
    destruct (candidates_raise y) as [H1 [H2 H3]].
    repeat split; try assumption; reflexivity.
  - intros y.
    destruct (max_by_R score (candidates y) (candidates_nonempty y))
      as [best [l1 [l2 [Hmax [Heq [H1 H2]]]]]].
    exists best, l1, l2. split; [exact Heq |]. split; [| split; assumption].
    unfold analyze. rewrite Hmax. cbn [bind]. do 2 f_equal.
    unfold score. apply get_present.
    apply (candidates_have_r2 y). rewrite Heq.
    apply in_or_app. right. now left.
  - intros log exp. split; vm_compute; reflexivity.
Qed.

(** ** Scores lie in the unit interval *)

Lemma ss_resid_nonneg_b64 (y pred : list float) (s : float) :
  ss_resid (PF := B64.binary64) y pred = Ok s -> b64_nonneg s.
Proof.
  unfold ss_resid. intros H. apply bind_Ok_inv in H.
  destruct H as [sq [Hsq H]]. inversion H; subst.
  apply fsum_nonneg_b64. eapply mapM_Forall; [| exact Hsq].
  intros [yi p0] v. apply pow2_nonneg_b64.
Qed.

Lemma max0_unit_b64 (v : float) :
  PrimFloat.ltb 1 v = false ->
  in_unit_interval (max0 (PF := B64.binary64) v) = true.
Proof.
  intros H1. unfold max0, fgt, in_unit_interval.
  change (@flt float B64.binary64) with PrimFloat.ltb.
  change (of_int (PF := B64.binary64) 0) with 0%float.
  destruct (PrimFloat.ltb 0 v) eqn:E; [| reflexivity].
  destruct (b64_ltb_not_nan _ _ E) as [H0 Hv].
  rewrite !b64_leb_not_ltb by (assumption || reflexivity).
  rewrite H1, (b64_pos_not_neg v E). reflexivity.
Qed.

(** [max(0, r2)] lies in [0, 1] when the sum of squared residuals is
    not negative and the default is 0.5 or 0.3. *)
Lemma r_squared_unit_b64 (ss_res ss_tot dflt v : float) :
  b64_nonneg ss_res ->
  PrimFloat.ltb 1 dflt = false ->
  r_squared (PF := B64.binary64) ss_res ss_tot dflt = Ok v ->
  in_unit_interval (max0 (PF := B64.binary64) v) = true.
Proof.
  intros Hres Hd. unfold r_squared, fgt, truediv.
  change (@flt float B64.binary64) with PrimFloat.ltb.
  change (@feq float B64.binary64) with PrimFloat.eqb.
  change (of_int (PF := B64.binary64) 0) with 0%float.
  destruct (PrimFloat.ltb c_1em10 ss_tot) eqn:E.
  - destruct (b64_gt_pos (@c_1em10 float B64.binary64) ss_tot c_1em10_pos_b64 E) as [Hn Hz].
    rewrite Hz. cbn [bind]. intros [= <-].
    apply max0_unit_b64.
    change (of_int (PF := B64.binary64) 1) with 1%float.
    apply b64_one_minus_le. now apply b64_div_nonneg.
  - intros [= <-]. now apply max0_unit_b64.
Qed.

Section ScoreForm.

Context {F : Type} {PF : PyFloat F} {PM : PyMath F}.

(** How the score of a block that returns was computed. *)
Lemma fit_score_form (x : list Z) (y : list F) (a b r2 : F) :
  fit x y = Ok (a, b, r2) ->
  exists pred ss_res ss_tot v,
    ss_resid y pred = Ok ss_res /\
    r_squared ss_res ss_tot c_0_5 = Ok v /\ r2 = max0 v.
Proof.
  unfold fit. intros H.
  do 6 (apply bind_Ok_inv in H; destruct H as [? [_ H]]).
  apply bind_Ok_inv in H. destruct H as [ss_tot [_ H]].
  apply bind_Ok_inv in H. destruct H as [ss_res [Hres H]].
  apply bind_Ok_inv in H. destruct H as [v [Hv H]].
  inversion H. eauto 8.
Qed.

Lemma quad_score_form (x : list Z) (y : list F) (q : dict F) (d : F) :
  quad x y = Ok (Some q) ->
  exists pred ss_res ss_tot v,
    ss_resid y pred = Ok ss_res /\
    r_squared ss_res ss_tot c_0_3 = Ok v /\ get q "r2" d = max0 v.
Proof.
  unfold quad. destruct (len y >? 2); [| discriminate]. intros H.
  do 7 (apply bind_Ok_inv in H; destruct H as [? [_ H]]).
  apply bind_Ok_inv in H. destruct H as [ss_tot [_ H]].
  apply bind_Ok_inv in H. destruct H as [ss_res [Hres H]].
  apply bind_Ok_inv in H. destruct H as [v [Hv H]].
  inversion H. eauto 8.
Qed.

Lemma expo_score_form (x : list Z) (y : list F) (e : dict F) (d : F) :
  expo x y = Ok (Some e) ->
  exists logs a b, fit x logs = Ok (a, b, get e "r2" d).
Proof.
  unfold expo. destruct (forallb _ y); [| discriminate].
  intros H. apply bind_Ok_inv in H. destruct H as [logs [_ H]].
  apply bind_Ok_inv in H. destruct H as [[[ae be] re] [Hfit H]].
  apply bind_Ok_inv in H. destruct H as [amp [_ H]].
  inversion H. exists logs, ae, be. exact Hfit.
Qed.

End ScoreForm.

Lemma fit_unit_b64 (x : list Z) (y : list float) (a b r2 : float) :
  fit (PF := B64.binary64) x y = Ok (a, b, r2) ->
  in_unit_interval r2 = true.
Proof.
  intros H. apply fit_score_form in H.
  destruct H as [pred [ss_res [ss_tot [v [Hres [Hv ->]]]]]].
  apply (r_squared_unit_b64 ss_res ss_tot c_0_5); [| reflexivity | exact Hv].
  eapply ss_resid_nonneg_b64. exact Hres.
Qed.

Lemma quad_unit_b64 (x : list Z) (y : list float) (q : dict float)
    (d : float) :
  quad (PF := B64.binary64) x y = Ok (Some q) ->
  in_unit_interval (get q "r2" d) = true.
Proof.
  intros H. apply (quad_score_form _ _ _ d) in H.
  destruct H as [pred [ss_res [ss_tot [v [Hres [Hv ->]]]]]].
  apply (r_squared_unit_b64 ss_res ss_tot c_0_3); [| reflexivity | exact Hv].
  eapply ss_resid_nonneg_b64. exact Hres.
Qed.

Lemma expo_unit_b64 (log exp : float -> float) (x : list Z) (y : list float)
    (e : dict float) (d : float) :
  expo (PF := B64.binary64) (PM := B64.libm log exp) x y = Ok (Some e) ->
  in_unit_interval (get e "r2" d) = true.
Proof.
  intros H. apply (expo_score_form _ _ _ d) in H.
  destruct H as [logs [a [b H]]]. eapply fit_unit_b64. exact H.
Qed.

Lemma candidates_unit_b64 (log exp : float -> float) (y : list float) :
  Forall (fun c => snd c = failed \/ in_unit_interval (score c) = true)
    (candidates (PF := B64.binary64) (PM := B64.libm log exp) y).
Proof.
  rewrite candidates_entries. cbv zeta. constructor.
  - cbn [snd]. destruct (fit _ y) as [[[a b] r2] | e] eqn:E; [| now left].
    right. unfold score. cbn. eapply fit_unit_b64. exact E.
  - apply Forall_app. split.
    + destruct (quad _ y) as [[q |] | e] eqn:E.
      * constructor; [| constructor].
        right. apply (quad_unit_b64 _ _ _ _ E).
      * constructor.
      * constructor; [now left | constructor].
    + destruct (expo _ y) as [[q |] | e] eqn:E.
      * constructor; [| constructor].
        right. apply (expo_unit_b64 _ _ _ _ _ _ E).
      * constructor.
      * constructor; [now left | constructor].
Qed.

(** C9: in double precision, for every sequence and every C library,
    the score of every candidate whose block returns (LINEAR, QUAD or
    EXP) lies in [0, 1]: it is a [max(0, r2)] where [r2] is 0.5, 0.3 or
    [1 - SS_res / SS_tot] with [SS_tot > 1e-10] and [SS_res] a sum of
    squares, which is not negative, so that the rounded difference does
    not exceed 1; a NaN [r2] gives the score 0.  Every recorded score
    lies in [0, 1] unless it is the -1 of a block that raised.  The
    three scores of [[1, 2, 4, 8, 16, 32]] are 0.8204081632653062,
    0.5385572139303483 and 1.0. *)
Theorem candidate_scores_in_unit_interval :
  (forall (log exp : float -> float) (x : list Z) (y : list float),
      (forall a b r2 : float,
          fit (PF := B64.binary64) x y = Ok (a, b, r2) ->
          in_unit_interval r2 = true) /\
      (forall q : dict float,
          quad (PF := B64.binary64) x y = Ok (Some q) ->
          in_unit_interval (get q "r2" (of_int (-1))) = true) /\
      (forall e : dict float,
          expo (PF := B64.binary64) (PM := B64.libm log exp) x y
          = Ok (Some e) ->
          in_unit_interval (get e "r2" (of_int (-1))) = true) /\
      Forall (fun c => snd c = failed \/ in_unit_interval (score c) = true)
        (candidates (PF := B64.binary64) (PM := B64.libm log exp) y)) /\
  map score
    (candidates (PF := B64.binary64)
       (PM := B64.libm B64.log_sample B64.exp_sample)
       [1; 2; 4; 8; 16; 32]%float)
  = [0x1.a40c89ed311c4p-1; 0x1.13bdc569b6212p-1; 1]%float /\
  map score
    (candidates (PF := B64.binary64)
       (PM := B64.libm B64.log_sample B64.exp_sample)
       [5; 5; 5; 5; 5]%float)
  = [0.5%float; B64.b64_of_decimal 3 (-1); 0.5%float] /\
  in_unit_interval (-0x1p-1074)%float = false /\
  in_unit_interval 0x1.0000000000001p+0%float = false /\
  in_unit_interval nan = false.
Proof.
  split; [| repeat split; vm_compute; reflexivity].
  intros log exp x y. split; [| split; [| split]].
  - intros a b r2. apply fit_unit_b64.
  - intros q. apply quad_unit_b64.
  - intros e. apply expo_unit_b64.
  - apply candidates_unit_b64.
Qed.

(** ** [fit] on a constant sequence *)

Lemma analyze_flat_b64 (log exp : float -> float) :
  analyze (PF := B64.binary64) (PM := B64.libm log exp)
    (repeat (B64.b64_of_decimal 17000000000001 (-1)) 3)
  = Ok {| t := "QUAD"; r := 1%float;
          p := [("r2", 1%float); ("a", 0%float); ("b", 0%float);
                ("c", B64.b64_of_decimal 17000000000001 (-1))] |}.
Proof.
  set (c := B64.b64_of_decimal 17000000000001 (-1)).
  unfold analyze. rewrite candidates_entries. cbv zeta.
  change (List.length (repeat c 3)) with 3%nat.
  replace (fit (range 3) (repeat c 3))
    with (Ok (0, 0x1.8bcfe5680019bp+40, 0)%float
          : result (float * float * float))
    by (vm_compute; reflexivity).
  replace (quad (range 3) (repeat c 3))
    with (Ok (Some [("r2", 1%float); ("a", 0%float); ("b", 0%float);
                    ("c", c)]) : result (option (dict float)))
    by (vm_compute; reflexivity).
  destruct (expo (range 3) (repeat c 3)) as [[e |] | err] eqn:E;
    cbn [app max_by max_from bind].
  - change (fgt (score ("QUAD", _)) (score ("LINEAR", _))) with true.
    cbv iota.
    match goal with
    | |- context [fgt ?a ?b] => assert (He : fgt a b = false)
    end.
    { apply (expo_unit_b64 _ _ _ _ _ (of_int (-1))) in E.
      unfold in_unit_interval in E. apply andb_prop in E.
      destruct E as [_ E]. apply b64_leb_ltb in E. exact E. }
    rewrite He. reflexivity.
  - reflexivity.
  - reflexivity.
Qed.

(** C6 (the code departs from the claim): three copies of
    1700000000000.1.  Their sum is rounded (a sum that carries its
    rounding errors rounds the same total), the mean comes out one unit
    in the last place above the constant, SS_tot is about 1.8e-7 and
    exceeds 1e-10, and R squared is [1 - SS_res / SS_tot = 0], not 0.5;
    the slope is 0.  With whatever C library, [analyze] then reports
    these flat data as QUAD with the score 1.0.  Five values 5.0 do get
    the score 0.5.  The other half of the claim holds: whatever [fit]
    returns in double precision is not negative. *)
Theorem fit_constant_rounded_mean :
  fit (PF := B64.binary64) (range 3)
    (repeat (B64.b64_of_decimal 17000000000001 (-1)) 3)
  = Ok (0, 0x1.8bcfe5680019bp+40, 0)%float /\
  B64.b64_of_decimal 17000000000001 (-1) = 0x1.8bcfe5680019ap+40%float /\
  PrimFloat.eqb 0 0.5 = false /\
  (forall log exp : float -> float,
      analyze (PF := B64.binary64) (PM := B64.libm log exp)
        (repeat (B64.b64_of_decimal 17000000000001 (-1)) 3)
      = Ok {| t := "QUAD"; r := 1%float;
              p := [("r2", 1%float); ("a", 0%float); ("b", 0%float);
                    ("c", B64.b64_of_decimal 17000000000001 (-1))] |}) /\
  fit (PF := B64.binary64) (range 5) (repeat 5%float 5)
  = Ok (0, 5, 0.5)%float /\
  (forall (x : list Z) (y : list float) (a b r2 : float),
      fit (PF := B64.binary64) x y = Ok (a, b, r2) ->
      PrimFloat.leb 0 r2 = true).
Proof.
  split; [vm_compute; reflexivity |].
  split; [vm_compute; reflexivity |].
  split; [vm_compute; reflexivity |].
  split; [exact analyze_flat_b64 |].
  split; [vm_compute; reflexivity |].
  intros x y a b r2 H. apply fit_unit_b64 in H.
  unfold in_unit_interval in H. apply andb_prop in H. tauto.
Qed.

(** ** [analyze] on the powers of two *)

(** Reads the operations of the exact instance as those of [R]. *)
Ltac to_R :=
  change (@fadd R Exact.reals) with Rplus in *;
  change (@fsub R Exact.reals) with Rminus in *;
  change (@fmul R Exact.reals) with Rmult in *;
  change (@fdiv R Exact.reals) with Rdiv in *;
  change (@fabs R Exact.reals) with Rabs in *;
  change (@int_div R Exact.reals) with Exact.real_int_div in *;
  change (@flog R Exact.real_math) with ln in *;
  change (@fexp R Exact.real_math) with exp in *.

(** Evaluates the list functions on explicit lists. *)
Ltac lists :=
  cbn [range seq map combine tl hd List.length len
       Z.of_nat Pos.of_succ_nat Pos.succ];
  rewrite ?of_int_R, ?fsum_cons, ?fsum_nil; to_R.

Lemma spec_r2_lt_1 (ss_res ss_tot dflt : R) :
  (0 < ss_res)%R -> (0 <= dflt < 1)%R -> (spec_r2 ss_res ss_tot dflt < 1)%R.
Proof.
  intros Hres Hd. unfold spec_r2. rewrite max0_R.
  destruct (fgt ss_tot c_1em10) eqn:E.
  - apply fgt_R in E. pose proof c_1em10_pos as Hc.
    rewrite of_int_R. to_R.
    assert (0 < ss_res / ss_tot)%R.
    { apply Rmult_lt_0_compat; [exact Hres |]. apply Rinv_0_lt_compat. lra. }
    apply Rmax_lub_lt; lra.
  - apply Rmax_lub_lt; lra.
Qed.

Lemma sum_sq_pos (r0 r1 r2 r3 rest : R) :
  (0 <= rest)%R -> (r0 <> 0 \/ r1 <> 0 \/ r2 <> 0 \/ r3 <> 0)%R ->
  (0 < r0 * r0 + (r1 * r1 + (r2 * r2 + (r3 * r3 + rest))))%R.
Proof.
  intros Hrest H.
  pose proof (Rle_0_sqr r0) as H0. pose proof (Rle_0_sqr r1) as H1.
  pose proof (Rle_0_sqr r2) as H2. pose proof (Rle_0_sqr r3) as H3.
  unfold Rsqr in *.
  destruct H as [H | [H | [H | H]]];
    apply Rsqr_pos_lt in H; unfold Rsqr in H; lra.
Qed.

Lemma powers_not_linear (a b : R) :
  (0 < spec_ss_res powers
         (map (fun xi => fadd (fmul a (of_int xi)) b) (range 6)))%R.
Proof.
  unfold spec_ss_res, powers, sq. lists.
  apply sum_sq_pos.
  - pose proof (Rle_0_sqr (16 - (a * 4 + b))) as H4.
    pose proof (Rle_0_sqr (32 - (a * 5 + b))) as H5.
    unfold Rsqr in *. lra.
  - destruct (Req_dec (1 - (a * 0 + b)) 0) as [E0 | E0]; [| now left].
    destruct (Req_dec (2 - (a * 1 + b)) 0) as [E1 | E1]; [| now right; left].
    right. right. left. lra.
Qed.

Lemma powers_not_quadratic (a b c : R) :
  (0 < spec_ss_res powers
         (map (fun i => fadd (fadd (fmul (fmul a (of_int i)) (of_int i))
                                (fmul b (of_int i))) c) (range 6)))%R.
Proof.
  unfold spec_ss_res, powers, sq. lists.
  apply sum_sq_pos.
  - pose proof (Rle_0_sqr (16 - (a * 4 * 4 + b * 4 + c))) as H4.
    pose proof (Rle_0_sqr (32 - (a * 5 * 5 + b * 5 + c))) as H5.
    unfold Rsqr in *. lra.
  - destruct (Req_dec (1 - (a * 0 * 0 + b * 0 + c)) 0) as [E0 | E0];
      [| now left].
    destruct (Req_dec (2 - (a * 1 * 1 + b * 1 + c)) 0) as [E1 | E1];
      [| now right; left].
    destruct (Req_dec (4 - (a * 2 * 2 + b * 2 + c)) 0) as [E2 | E2];
      [| now right; right; left].
    right. right. right. lra.
Qed.

Lemma ln_pow2 (n : nat) : ln (2 ^ n) = (INR n * ln 2)%R.
Proof. apply ln_pow. lra. Qed.

(** The logarithms of the powers of two are the multiples of [ln 2]. *)
Lemma log_powers :
  map ln powers
  = [0; ln 2; 2 * ln 2; 3 * ln 2; 4 * ln 2; 5 * ln 2]%R.
Proof.
  unfold powers. cbn [map].
  replace 4%R with (2 ^ 2)%R by lra. replace 8%R with (2 ^ 3)%R by lra.
  replace 16%R with (2 ^ 4)%R by lra. replace 32%R with (2 ^ 5)%R by lra.
  rewrite !ln_pow2, ln_1. cbn [INR].
  repeat f_equal; lra.
Qed.

Lemma fit_log_powers :
  spec_fit (range 6) (map ln powers) = (ln 2, 0, 1)%R.
Proof.
  rewrite log_powers. pose proof ln_lt_2 as HL. set (L := ln 2) in *.
  assert (Hmy : spec_mean [0; L; 2 * L; 3 * L; 4 * L; 5 * L]%R
                = (5 / 2 * L)%R).
  { rewrite spec_mean_R. lists. lra. }
  assert (Hmx : @int_div R Exact.reals (zsum (range 6)) (len (range 6))
                = (5 / 2)%R).
  { change (zsum (range 6)) with 15. lists. unfold Exact.real_int_div. lra. }
  assert (Ha : spec_slope (range 6) [0; L; 2 * L; 3 * L; 4 * L; 5 * L]%R = L).
  { unfold spec_slope. cbv zeta. rewrite Hmy, Hmx. unfold sq. lists.
    match goal with
    | |- context [fgt (Rabs ?d) _] => replace d with (35 / 2)%R by lra
    end.
    assert (E : fgt (Rabs (35 / 2)) c_1em10 = true).
    { apply fgt_R. rewrite c_1em10_R, Rabs_right by lra. lra. }
    rewrite E. lra. }
  unfold spec_fit. cbv zeta. rewrite Ha, Hmy, Hmx.
  f_equal; [f_equal; to_R; lra |].
  unfold spec_r2, spec_ss_tot, spec_ss_res, sq. rewrite Hmy. lists.
  match goal with
  | |- context [fgt ?t c_1em10] =>
      replace t with (35 / 2 * (L * L))%R by lra
  end.
  assert (E : fgt (35 / 2 * (L * L))%R c_1em10 = true).
  { apply fgt_R. rewrite c_1em10_R. nra. }
  rewrite E, max0_R.
  match goal with
  | |- Rmax 0 (1 - ?n / ?d) = _ => replace n with 0%R by lra
  end.
  unfold Rdiv. rewrite Rmult_0_l, Rminus_0_r. apply Rmax_right. lra.
Qed.

Lemma powers_positive :
  forallb (fun yi => fgt yi (of_int 0)) powers = true.
Proof.
  unfold powers. cbn [forallb]. rewrite of_int_R.
  rewrite !(proj2 (fgt_R _ 0%R)) by lra. reflexivity.
Qed.

Lemma powers_linear_score :
  (snd (spec_fit (range 6) powers) < 1)%R.
Proof.
  unfold spec_fit. cbv zeta. cbn [snd].
  apply spec_r2_lt_1; [apply powers_not_linear |].
  rewrite c_0_5_R. lra.
Qed.

Lemma powers_quad_score (dflt : R) :
  (get (spec_quad (range 6) powers) "r2" dflt < 1)%R.
Proof.
  unfold spec_quad. cbv zeta. unfold get. cbn [dict_get].
  change (("r2" =? "r2")%string) with true. cbv iota.
  apply spec_r2_lt_1; [apply powers_not_quadratic |].
  rewrite c_0_3_R. lra.
Qed.

Lemma powers_expo :
  spec_expo (range 6) powers = [("r2", 1); ("a", 1); ("b", ln 2)]%R.
Proof.
  unfold spec_expo. change (map flog powers) with (map ln powers).
  rewrite fit_log_powers. change (fexp 0%R) with (exp 0). now rewrite exp_0.
Qed.

Lemma powers_candidates :
  candidates powers =
  [("LINEAR",
    let '(a, b, r2) := spec_fit (range 6) powers in
    [("r2", r2); ("a", a); ("b", b)]);
   ("QUAD", spec_quad (range 6) powers);
   ("EXP", [("r2", 1); ("a", 1); ("b", ln 2)]%R)].
Proof.
  rewrite candidates_R by discriminate. cbv zeta.
  rewrite powers_positive.
  change (List.length powers) with 6%nat. rewrite powers_expo.
  reflexivity.
Qed.

(** ** The powers of two in double precision *)

Lemma expo_powers_b64 (log exp : float -> float) :
  map log [1; 2; 4; 8; 16; 32]%float
  = [0; 0x1.62e42fefa39efp-1; 0x1.62e42fefa39efp+0; 0x1.0a2b23f3bab73p+1;
     0x1.62e42fefa39efp+1; 0x1.bb9d3beb8c86bp+1]%float ->
  exp (-0x1p-52)%float = 0x1.ffffffffffffep-1%float ->
  expo (PF := B64.binary64) (PM := B64.libm log exp) (range 6)
    [1; 2; 4; 8; 16; 32]%float
  = Ok (Some [("r2", 1); ("a", 0x1.ffffffffffffep-1);
              ("b", 0x1.62e42fefa39fp-1)]%float).
Proof.
  intros Hlog Hexp. unfold expo.
  change (forallb _ _) with true. cbv iota.
  rewrite (mapM_ok _ log).
  2:{ intros v Hv. repeat (destruct Hv as [<- | Hv]; [reflexivity |]).
      destruct Hv. }
  cbn [bind]. rewrite Hlog.
  match goal with
  | |- context [fit ?x ?y] =>
      replace (fit x y) with (Ok (0x1.62e42fefa39fp-1, -0x1p-52, 1)%float
                              : result (float * float * float))
        by (vm_compute; reflexivity)
  end.
  cbn [bind]. unfold py_exp.
  change (fexp (-0x1p-52)%float) with (exp (-0x1p-52)%float).
  rewrite Hexp. reflexivity.
Qed.

Lemma analyze_powers_b64 (log exp : float -> float) :
  map log [1; 2; 4; 8; 16; 32]%float
  = [0; 0x1.62e42fefa39efp-1; 0x1.62e42fefa39efp+0; 0x1.0a2b23f3bab73p+1;
     0x1.62e42fefa39efp+1; 0x1.bb9d3beb8c86bp+1]%float ->
  exp (-0x1p-52)%float = 0x1.ffffffffffffep-1%float ->
  analyze (PF := B64.binary64) (PM := B64.libm log exp)
    [1; 2; 4; 8; 16; 32]%float
  = Ok {| t := "EXP"; r := 1%float;
          p := [("r2", 1); ("a", 0x1.ffffffffffffep-1);
                ("b", 0x1.62e42fefa39fp-1)]%float |}.
Proof.
  intros Hlog Hexp. unfold analyze, candidates.
  change (List.length [1; 2; 4; 8; 16; 32]%float) with 6%nat.
  rewrite (expo_powers_b64 log exp Hlog Hexp).
  vm_compute. reflexivity.
Qed.

(** C8: [analyze] on [[1, 2, 4, 8, 16, 32]] selects the EXP model.  In
    exact arithmetic the amplitude is 1, the rate [ln 2] and the score
    1: the logarithms of the data lie on a line, and neither the LINEAR
    nor the QUAD candidate reaches the score 1.  In double precision,
    when [math.log] returns the correctly rounded logarithms of the six
    values and [math.exp] the correctly rounded exponential of the
    intercept [-2^-52], the score is exactly 1.0, the amplitude
    0.9999999999999998 and the rate 0.6931471805599454. *)
Theorem analyze_powers_of_two :
  analyze (PF := Exact.reals) [1; 2; 4; 8; 16; 32]%R
  = Ok {| t := "EXP"; r := 1%R;
          p := [("r2", 1); ("a", 1); ("b", ln 2)]%R |} /\
  (forall log exp : float -> float,
      map log [1; 2; 4; 8; 16; 32]%float
      = [0; 0x1.62e42fefa39efp-1; 0x1.62e42fefa39efp+0;
         0x1.0a2b23f3bab73p+1; 0x1.62e42fefa39efp+1;
         0x1.bb9d3beb8c86bp+1]%float ->
      exp (-0x1p-52)%float = 0x1.ffffffffffffep-1%float ->
      analyze (PF := B64.binary64) (PM := B64.libm log exp)
        [1; 2; 4; 8; 16; 32]%float
      = Ok {| t := "EXP"; r := 1%float;
              p := [("r2", 1); ("a", 0x1.ffffffffffffep-1);
                    ("b", 0x1.62e42fefa39fp-1)]%float |}).
Proof.
  split; [| exact analyze_powers_b64].
  change [1; 2; 4; 8; 16; 32]%R with powers.
  unfold analyze.
  destruct (max_by_R score (candidates powers) (candidates_nonempty powers))
    as [best [l1 [l2 [Hmax [Heq [H1 H2]]]]]].
  rewrite Hmax. cbn [bind].
  rewrite powers_candidates in Heq.
  assert (HL : (score ("LINEAR",
                       let '(a, b, r2) := spec_fit (range 6) powers in
                       [("r2", r2); ("a", a); ("b", b)]) < 1)%R).
  { unfold score. cbn [snd]. pose proof powers_linear_score as H.
    destruct (spec_fit (range 6) powers) as [[a b] r2]. exact H. }
  assert (HQ : (score ("QUAD", spec_quad (range 6) powers) < 1)%R)
    by apply powers_quad_score.
  assert (HE : score ("EXP", [("r2", 1); ("a", 1); ("b", ln 2)]%R) = 1%R)
    by reflexivity.
  remember ("LINEAR", _) as cL eqn:EL in Heq, HL.
  remember ("QUAD", _) as cQ eqn:EQ in Heq, HQ.
  clear EL EQ.
  destruct l1 as [| c1 [| c2 [| c3 l1]]]; cbn [app] in Heq.
  - injection Heq as <- <-.
    specialize (H2 _ (or_intror (or_introl eq_refl))). lra.
  - injection Heq as <- <- <-.
    specialize (H2 _ (or_introl eq_refl)). lra.
  - injection Heq as <- <- <- <-. reflexivity.
  - injection Heq as _ _ _ Heq. destruct l1; discriminate Heq.
Qed.

Lemma analyze_powers_of_two_sample :
  analyze (PF := B64.binary64)
    (PM := B64.libm B64.log_sample B64.exp_sample)
    [1; 2; 4; 8; 16; 32]%float
  = Ok {| t := "EXP"; r := 1%float;
          p := [("r2", 1); ("a", 0x1.ffffffffffffep-1);
                ("b", 0x1.62e42fefa39fp-1)]%float |}.
Proof.
  apply (proj2 analyze_powers_of_two); reflexivity.
Defined.

(** ** [sorted] *)

Section SortedFacts.

Context {F : Type} {PF : PyFloat F}.

Lemma insert_perm (v : F) (l : list F) : Permutation (v :: l) (insert v l).
Proof.
  induction l as [| a l IH]; cbn [insert]; [reflexivity |].
  destruct (flt v a); [reflexivity |].
  rewrite perm_swap. now apply perm_skip.
Qed.

Lemma sorted_from_perm (l acc : list F) :
  Permutation (acc ++ l) (fold_left (fun acc v => insert v acc) l acc).
Proof.
  revert acc. induction l as [| v l IH]; intros acc; cbn [fold_left].
  - now rewrite app_nil_r.
  - rewrite <- IH. rewrite <- insert_perm.
    symmetry. apply Permutation_middle.
Qed.

(** [sorted(l)] is a rearrangement of [l]. *)
Lemma sorted_perm (l : list F) : Permutation l (sorted l).
Proof. apply (sorted_from_perm l []). Qed.

Lemma sorted_length (l : list F) : List.length (sorted l) = List.length l.
Proof. symmetry. apply Permutation_length, sorted_perm. Qed.

End SortedFacts.

Lemma insert_sorted_R (v : R) (l : list R) :
  Sorted Rle l -> Sorted Rle (insert v l).
Proof.
  induction l as [| a l IH]; intros Hs; cbn [insert].
  - repeat constructor.
  - change (flt v a) with (Exact.Rltb v a).
    destruct (Exact.Rltb v a) eqn:E.
    + apply Rltb_true in E. constructor; [exact Hs |]. constructor. lra.
    + apply Rltb_false in E. inversion Hs as [| a' l' Hs' Hhd]; subst.
      constructor; [now apply IH |].
      destruct l as [| b l]; cbn [insert].
      * constructor. exact E.
      * change (flt v b) with (Exact.Rltb v b).
        destruct (Exact.Rltb v b); constructor; [exact E |].
        now inversion Hhd.
Qed.

(** In exact arithmetic [sorted(l)] is in ascending order. *)
Lemma sorted_sorted_R (l : list R) : Sorted Rle (sorted l).
Proof.
  unfold sorted. assert (H : Sorted Rle []) by constructor.
  revert H. generalize (@nil R). induction l as [| v l IH]; intros acc H.
  - exact H.
  - cbn [fold_left]. apply IH. now apply insert_sorted_R.
Qed.

(** ** [proc] in exact arithmetic *)

Lemma analyze_total {F : Type} {PF : PyFloat F} {PM : PyMath F} (y : list F) :
  exists pat, analyze y = Ok pat.
Proof.
  unfold analyze, max_by. pose proof (candidates_nonempty y) as H.
  destruct (candidates y); [easy |]. eexists. reflexivity.
Qed.

Lemma py_min_total {F : Type} {PF : PyFloat F} (l : list F) :
  l <> [] -> exists v, py_min l = Ok v.
Proof. destruct l; [easy |]. intros _. eexists. reflexivity. Qed.

Lemma py_max_total {F : Type} {PF : PyFloat F} (l : list F) :
  l <> [] -> exists v, py_max l = Ok v.
Proof. destruct l; [easy |]. intros _. eexists. reflexivity. Qed.

Lemma half_length_lt (n : nat) :
  (0 < n)%nat -> (Z.to_nat (Z.of_nat n / 2) < n)%nat.
Proof.
  intros H. apply Nat2Z.inj_lt. rewrite Z2Nat.id by (apply Z.div_pos; lia).
  apply Z.div_lt; lia.
Qed.

Lemma proc_R (batch : list R) (bid inv : Z) :
  exists s : Summary,
    proc batch bid inv = Ok (Some s) /\
    nth_error (sorted (fst (clean batch)))
      (Z.to_nat (len (fst (clean batch)) / 2)) = Some (median s).
Proof.
  unfold proc. pose proof (clean_truthy batch) as Ht.
  destruct (clean batch) as [cl inv_clean]. cbn [fst] in *.
  rewrite Ht. cbn [negb].
  apply truthy_nonempty in Ht.
  pose proof (IZR_len_nonzero cl Ht) as Hnz.
  rewrite of_int_R, truediv_R by exact Hnz. cbn [bind].
  set (m := (fsum cl / IZR (len cl))%R).
  rewrite (mapM_ok _ (fun x => ((x - m) * (x - m))%R)) by (intros; reflexivity).
  cbn [bind]. rewrite truediv_R by exact Hnz. cbn [bind].
  rewrite py_sqrt_R.
  2:{ apply Rmult_le_pos; [apply fsum_squares_nonneg |].
      left. apply Rinv_0_lt_compat. now apply len_pos_R. }
  cbn [bind].
  destruct (analyze_total cl) as [pat Hpat]. rewrite Hpat. cbn [bind].
  destruct (anom cl) as [[anom_c dang] details].
  destruct (py_min_total cl Ht) as [lo Hlo].
  destruct (py_max_total cl Ht) as [hi Hhi].
  rewrite Hlo, Hhi. cbn [bind].
  destruct (nth_error (sorted cl) (Z.to_nat (len cl / 2))) as [med |] eqn:Hmed.
  2:{ apply nth_error_None in Hmed. rewrite sorted_length in Hmed.
      pose proof (half_length_lt (List.length cl)) as Hh.
      unfold len in Hmed. destruct cl; [easy | simpl in Hh, Hmed; lia]. }
  unfold index. rewrite Hmed. cbn [bind].
  destruct (negb (feq m (of_int 0))) eqn:Hm0.
  - rewrite truediv_R.
    + cbn [bind]. eexists. split; reflexivity.
    + apply negb_true_iff in Hm0. rewrite of_int_R in Hm0.
      now apply Reqb_false in Hm0.
  - cbn [bind]. eexists. split; reflexivity.
Qed.

(** C10: in exact arithmetic [proc] returns a summary for every batch,
    and its median is the element at index [n / 2] (integer division) of
    the cleaned values in ascending order, [n] being their number: the
    upper of the two middle elements when [n = 2k], the middle element
    when [n = 2k + 1].  In every arithmetic a summary that [proc]
    returns has that element as its median; in double precision the
    batch [[4, -1, 2, 1]] has the median 2, not the average 1.5 of the
    middle elements 1 and 2. *)
Theorem median_is_element_at_half_length :
  (forall (batch : list R) (bid inv : Z),
      let cleaned := fst (clean batch) in
      exists s : Summary,
        proc batch bid inv = Ok (Some s) /\
        Sorted Rle (sorted cleaned) /\
        Permutation cleaned (sorted cleaned) /\
        nth_error (sorted cleaned) (Z.to_nat (len cleaned / 2))
        = Some (median s) /\
        (forall k : nat,
            (List.length cleaned = 2 * k \/
             List.length cleaned = 2 * k + 1)%nat ->
            nth_error (sorted cleaned) k = Some (median s))) /\
  (forall (F : Type) (PF : PyFloat F) (PM : PyMath F)
          (batch : list F) (bid inv : Z) (s : Summary),
      proc batch bid inv = Ok (Some s) ->
      nth_error (sorted (fst (clean batch)))
        (Z.to_nat (len (fst (clean batch)) / 2)) = Some (median s)) /\
  (forall log exp : float -> float,
      exists s : Summary,
        proc (PF := B64.binary64) (PM := B64.libm log exp)
          [4; -1; 2; 1]%float 1 0 = Ok (Some s) /\
        median s = 2%float).
Proof.
  split; [| split; [intros F PF PM; apply proc_median |]].
  - intros batch bid inv cleaned.
    destruct (proc_R batch bid inv) as [s [Hs Hmed]].
    exists s. fold cleaned in Hmed.
    split; [exact Hs |]. split; [apply sorted_sorted_R |].
    split; [apply sorted_perm |]. split; [exact Hmed |].
    intros k Hk. rewrite <- Hmed. f_equal. unfold len.
    destruct Hk as [-> | ->].
    + rewrite Nat2Z.inj_mul, Z.mul_comm, Z.div_mul by lia.
      symmetry. apply Nat2Z.id.
    + rewrite Nat2Z.inj_add, Nat2Z.inj_mul. change (Z.of_nat 2) with 2.
      change (Z.of_nat 1) with 1.
      rewrite Z.mul_comm, Z.div_add_l by lia.
      change (1 / 2) with 0. rewrite Z.add_0_r. symmetry. apply Nat2Z.id.
  - intros log exp. eexists. split; [vm_compute; reflexivity | reflexivity].
Qed.

(** ** [parse] *)

Section ParseFacts.

Context {F : Type} {PF : PyFloat F}.
Variable py_float : string -> result F.

Lemma len_app1 {A : Type} (l : list A) (a : A) : len (l ++ [a]) = len l + 1.
Proof. unfold len. rewrite length_app. simpl. lia. Qed.

(** Every token is either accepted or counted as rejected. *)
Lemma parse_loop_count (parts : list string) :
  forall (vals vals' : list F) (inv inv' : Z),
    parse_loop py_float parts vals inv = Ok (vals', inv') ->
    inv' + len vals' = inv + len vals + len parts.
Proof.
  induction parts as [| p parts IH]; intros vals vals' inv inv' H.
  - cbn [parse_loop] in H. inversion H; subst.
    change (len (@nil string)) with 0. lia.
  - cbn [parse_loop] in H.
    assert (Hl : len (p :: parts) = len parts + 1)
      by (unfold len; cbn [List.length]; lia).
    rewrite Hl.
    destruct (negb (nonempty (strip p))).
    { apply IH in H. lia. }
    destruct (str_in (upper (strip p)) missing_markers).
    { apply IH in H. lia. }
    destruct (py_float (strip p)) as [v | e].
    + destruct (isnan v || isinf v).
      * apply IH in H. lia.
      * apply IH in H. rewrite len_app1 in H. lia.
    + destruct e; try discriminate H. apply IH in H. lia.
Qed.

(** When [float] raises nothing but [ValueError] the loop returns. *)
Lemma parse_loop_total (parts : list string) :
  (forall s e, py_float s = Raise e -> e = ValueError) ->
  forall (vals : list F) (inv : Z),
    exists vals' inv', parse_loop py_float parts vals inv = Ok (vals', inv').
Proof.
  intros Hve. induction parts as [| p parts IH]; intros vals inv.
  - now exists vals, inv.
  - cbn [parse_loop].
    destruct (negb (nonempty (strip p))); [apply IH |].
    destruct (str_in (upper (strip p)) missing_markers); [apply IH |].
    destruct (py_float (strip p)) as [v | e] eqn:E.
    + destruct (isnan v || isinf v); apply IH.
    + rewrite (Hve _ _ E). apply IH.
Qed.

Lemma parse_truthy (raw : string) : truthy (fst (parse py_float raw)) = true.
Proof.
  unfold parse, parse_body.
  destruct (parse_loop py_float (tokens raw) [] 0) as [[vals inv] | e];
    cbn [bind fst]; [| reflexivity].
  destruct vals; reflexivity.
Qed.

End ParseFacts.

Lemma b64_py_float_value_error (s : string) (e : exn) :
  B64.py_float s = Raise e -> e = ValueError.
Proof.
  unfold B64.py_float.
  destruct (B64.drop_underscores _ _) as [s' |]; [| now intros [= <-]].
  destruct (B64.read_sign s') as [neg body].
  destruct (_ || _); [discriminate |].
  destruct (_ =? _)%string; [discriminate |].
  destruct (B64.read_number body) as [[m ex] |]; [discriminate |].
  now intros [= <-].
Qed.

(** C7: [parse] is a total function whose first component is never
    empty; an exception that escapes the loop (any that [float] raises
    besides [ValueError]) yields [([0], 1)]; when the loop returns, every
    token has been accepted or counted, and with no accepted sample the
    result is [[0]] with the count of rejected tokens.  With the [float]
    of double precision the loop always returns. *)
Theorem parse_never_raises :
  (forall (F : Type) (PF : PyFloat F) (py_float : string -> result F)
          (raw : string),
      truthy (fst (parse py_float raw)) = true /\
      (forall e, parse_body py_float raw = Raise e ->
                 parse py_float raw = ([of_int 0], 1)) /\
      (forall vals inv,
          parse_loop py_float (tokens raw) [] 0 = Ok (vals, inv) ->
          inv + len vals = len (tokens raw) /\
          parse py_float raw
          = (if truthy vals then vals else [of_int 0], inv))) /\
  (forall raw : string,
      exists vals inv,
        parse_loop (PF := B64.binary64) B64.py_float (tokens raw) [] 0
        = Ok (vals, inv)) /\
  parse (PF := B64.binary64) B64.py_float "" = ([0%float], 0) /\
  parse (PF := B64.binary64) B64.py_float "NA, abc nan" = ([0%float], 3) /\
  parse (PF := B64.binary64) B64.py_float "[1, 2.5], -3e2 NULL"
  = ([1; 2.5; -300]%float, 1) /\
  parse (PF := B64.binary64) (fun _ => Raise OverflowError) "1"
  = ([0%float], 1).
Proof.
  split; [| split; [| repeat split; vm_compute; reflexivity]].
  - intros F PF py_float raw. split; [apply parse_truthy |]. split.
    + intros e H. unfold parse. now rewrite H.
    + intros vals inv H. split.
      * apply parse_loop_count in H. change (len (@nil F)) with 0 in H. lia.
      * unfold parse, parse_body. rewrite H. reflexivity.
  - intros raw. apply parse_loop_total. apply b64_py_float_value_error.
Qed.

(** * Further properties *)

(** ** [clean]: what is kept and what is counted *)

Lemma len_filter_split {A : Type} (f : A -> bool) (l : list A) :
  len (filter f l) + len (filter (fun a => negb (f a)) l) = len l.
Proof.
  unfold len. induction l as [| a l IH]; [reflexivity |].
  cbn [filter]. destruct (f a); cbn [negb List.length]; lia.
Qed.

Lemma filter_all {A : Type} (f : A -> bool) (l : list A) :
  Forall (fun a => f a = true) l -> filter f l = l.
Proof.
  induction 1 as [| a l Ha _ IH]; [reflexivity |].
  cbn [filter]. now rewrite Ha, IH.
Qed.

Lemma filter_none {A : Type} (f : A -> bool) (l : list A) :
  Forall (fun a => f a = true) l -> filter (fun a => negb (f a)) l = [].
Proof.
  induction 1 as [| a l Ha _ IH]; [reflexivity |].
  cbn [filter]. now rewrite Ha.
Qed.

Lemma filter_Forall {A : Type} (f : A -> bool) (l : list A) :
  Forall (fun a => f a = true) (filter f l).
Proof. apply Forall_forall. intros a Ha. now apply filter_In in Ha. Qed.

(** X1: [clean] keeps the accepted values, in their order, and counts
    the others: the count is the number of values that fail the test;
    when a value is accepted the result is the list of the accepted
    values and its length and the count add up to the length of the
    input; when none is, the result is [[0]] and the count is the length
    of the input. *)
Theorem clean_keeps_order_and_counts :
  forall (F : Type) (PF : PyFloat F) (d : list F),
    let kept := filter keep d in
    snd (clean d) = len d - len kept /\
    (kept <> [] ->
     fst (clean d) = kept /\ len (fst (clean d)) + snd (clean d) = len d) /\
    (kept = [] -> clean d = ([of_int 0], len d)).
Proof.
  intros F PF d kept. rewrite clean_spec. fold kept. cbn [fst snd].
  pose proof (len_filter_split keep d) as H. fold kept in H.
  split; [lia |]. split.
  - intros Hne. destruct kept; [easy |]. cbn [truthy].
    split; [reflexivity | lia].
  - intros He. rewrite He in *. cbn [truthy]. f_equal.
    change (len (@nil F)) with 0 in H. lia.
Qed.

Lemma clean_output_keep {F : Type} {PF : PyFloat F} (d : list F) :
  keep (of_int 0) = true -> Forall (fun v => keep v = true) (fst (clean d)).
Proof.
  intros H0. rewrite clean_spec. cbn [fst].
  destruct (filter keep d) eqn:E; cbn [truthy].
  - now constructor.
  - rewrite <- E. apply filter_Forall.
Qed.

(** X2: in an arithmetic where 0 passes the test of [clean], every
    value that [clean] returns passes it, and cleaning a cleaned list
    returns it unchanged with the count 0. *)
Theorem clean_is_idempotent :
  forall (F : Type) (PF : PyFloat F),
    keep (of_int 0) = true ->
    forall d : list F,
      Forall (fun v => keep v = true) (fst (clean d)) /\
      clean (fst (clean d)) = (fst (clean d), 0).
Proof.
  intros F PF H0 d. pose proof (clean_output_keep d H0) as Hk.
  split; [exact Hk |].
  pose proof (clean_truthy d) as Ht.
  rewrite (clean_spec (fst (clean d))).
  rewrite (filter_all _ _ Hk), (filter_none _ _ Hk), Ht. reflexivity.
Qed.

Lemma clean_is_idempotent_b64 :
  keep (PF := B64.binary64) (of_int 0) = true /\
  Forall (fun v => keep (PF := B64.binary64) v = true)
    (fst (clean [1; nan; 1e16; -2.5]%float)) /\
  clean (PF := B64.binary64) (fst (clean [1; nan; 1e16; -2.5]%float))
  = (fst (clean [1; nan; 1e16; -2.5]%float), 0).
Proof.
  split; [vm_compute; reflexivity |].
  apply (clean_is_idempotent float B64.binary64). vm_compute. reflexivity.
Defined.

(** ** [parse]: the tokens *)

Lemma chars_app (s1 s2 : string) :
  list_ascii_of_string (s1 ++ s2)
  = list_ascii_of_string s1 ++ list_ascii_of_string s2.
Proof. induction s1 as [| c s1 IH]; simpl; [reflexivity | now rewrite IH]. Qed.

Lemma replace_Forall (P : ascii -> Prop) (old : ascii) (new s : string) :
  Forall P (list_ascii_of_string new) ->
  Forall P (list_ascii_of_string s) ->
  Forall P (list_ascii_of_string (replace old new s)).
Proof.
  intros Hn. induction s as [| c s IH]; intros Hs; simpl; [constructor |].
  simpl in Hs. inversion Hs as [| ? ? Hc Hs']; subst.
  destruct (Ascii.eqb c old).
  - rewrite chars_app. apply Forall_app. auto.
  - simpl. constructor; auto.
Qed.

Lemma replace_removes (old : ascii) (new s : string) :
  Forall (fun c => c <> old) (list_ascii_of_string new) ->
  Forall (fun c => c <> old) (list_ascii_of_string (replace old new s)).
Proof.
  intros Hn. induction s as [| c s IH]; simpl; [constructor |].
  destruct (Ascii.eqb c old) eqn:E.
  - rewrite chars_app. apply Forall_app. auto.
  - simpl. constructor; [| exact IH]. now apply Ascii.eqb_neq.
Qed.

Lemma split_from_Forall (Q : ascii -> Prop) (s : string) :
  forall cur : string,
    Forall Q (list_ascii_of_string cur) ->
    Forall Q (list_ascii_of_string s) ->
    Forall (fun p => Forall Q (list_ascii_of_string p)) (split_from cur s).
Proof.
  induction s as [| c s IH]; intros cur Hcur Hs; simpl.
  - destruct cur; [constructor |]. constructor; [exact Hcur | constructor].
  - simpl in Hs. inversion Hs as [| ? ? Hc Hs']; subst.
    destruct (is_space c).
    + destruct cur.
      * apply IH; [constructor | exact Hs'].
      * constructor; [exact Hcur |]. apply IH; [constructor | exact Hs'].
    + apply IH; [| exact Hs']. rewrite chars_app. apply Forall_app.
      split; [exact Hcur |]. simpl. now repeat constructor.
Qed.

Lemma split_from_words (s : string) :
  forall cur : string,
    Forall (fun c => is_space c = false) (list_ascii_of_string cur) ->
    Forall (fun p => p <> "" /\
                     Forall (fun c => is_space c = false)
                       (list_ascii_of_string p))
      (split_from cur s).
Proof.
  induction s as [| c s IH]; intros cur Hcur; simpl.
  - destruct cur; [constructor |]. constructor; [| constructor].
    split; [discriminate | exact Hcur].
  - destruct (is_space c) eqn:E.
    + destruct cur.
      * apply IH. constructor.
      * constructor; [split; [discriminate | exact Hcur] |].
        apply IH. constructor.
    + apply IH. rewrite chars_app. apply Forall_app.
      split; [exact Hcur |]. simpl. now repeat constructor.
Qed.

Lemma rstrip_word (p : string) :
  p <> "" ->
  Forall (fun c => is_space c = false) (list_ascii_of_string p) ->
  rstrip p = p.
Proof.
  induction p as [| c p IH]; intros Hne H; [easy |].
  simpl in H. inversion H as [| ? ? Hc Hp]; subst. simpl.
  destruct p as [| c' p'].
  - simpl. now rewrite Hc.
  - rewrite IH by (easy || exact Hp). reflexivity.
Qed.

Lemma strip_word (p : string) :
  p <> "" ->
  Forall (fun c => is_space c = false) (list_ascii_of_string p) ->
  strip p = p.
Proof.
  intros Hne H. unfold strip.
  assert (Hl : lstrip p = p).
  { destruct p as [| c p]; [easy |]. simpl in H. inversion H; subst.
    simpl. now match goal with Hc : is_space c = false |- _ => rewrite Hc end. }
  rewrite Hl. now apply rstrip_word.
Qed.

(** X3: every token that the loop of [parse] runs over is a non-empty
    string without white space, comma or bracket, which [strip] leaves
    unchanged; so the branch [if not p] of the loop is never taken. *)
Theorem tokens_are_stripped_words :
  forall raw : string,
    Forall (fun p =>
              nonempty (strip p) = true /\ strip p = p /\
              Forall (fun c => is_space c = false /\
                               c <> ","%char /\ c <> "["%char /\ c <> "]"%char)
                (list_ascii_of_string p))
      (tokens raw).
Proof.
  intros raw. unfold tokens, split.
  set (s1 := replace "[" "" (strip raw)).
  set (s2 := replace "]" "" s1).
  set (s3 := replace "," " " s2).
  assert (H1 : Forall (fun c => c <> "["%char) (list_ascii_of_string s1))
    by (apply replace_removes; constructor).
  assert (H2 : Forall (fun c => c <> "]"%char) (list_ascii_of_string s2))
    by (apply replace_removes; constructor).
  assert (H2' : Forall (fun c => c <> "["%char) (list_ascii_of_string s2))
    by (apply replace_Forall; [constructor | exact H1]).
  assert (H3 : Forall (fun c => c <> ","%char) (list_ascii_of_string s3))
    by (apply replace_removes; repeat constructor; discriminate).
  assert (H3' : Forall (fun c => c <> "["%char) (list_ascii_of_string s3))
    by (apply replace_Forall; [repeat constructor; discriminate | exact H2']).
  assert (H3'' : Forall (fun c => c <> "]"%char) (list_ascii_of_string s3))
    by (apply replace_Forall; [repeat constructor; discriminate | exact H2]).
  pose proof (split_from_words s3 "" (Forall_nil _)) as Hw.
  pose proof (split_from_Forall _ s3 "" (Forall_nil _) H3) as Hc.
  pose proof (split_from_Forall _ s3 "" (Forall_nil _) H3') as Hb.
  pose proof (split_from_Forall _ s3 "" (Forall_nil _) H3'') as He.
  rewrite Forall_forall in *. intros p Hp.
  destruct (Hw p Hp) as [Hne Hsp].
  specialize (Hc p Hp). specialize (Hb p Hp). specialize (He p Hp).
  rewrite (strip_word p Hne Hsp).
  split; [destruct p; easy |]. split; [reflexivity |].
  rewrite Forall_forall in *. intros c Hin. auto.
Qed.

(** ** [parse]: the values *)

Section ParseValues.

Context {F : Type} {PF : PyFloat F}.
Variable py_float : string -> result F.

Lemma parse_loop_finite (parts : list string) :
  forall (vals vals' : list F) (inv inv' : Z),
    Forall (fun v => isnan v = false /\ isinf v = false) vals ->
    parse_loop py_float parts vals inv = Ok (vals', inv') ->
    Forall (fun v => isnan v = false /\ isinf v = false) vals'.
Proof.
  induction parts as [| p parts IH]; intros vals vals' inv inv' Hv H.
  - cbn [parse_loop] in H. now inversion H; subst.
  - cbn [parse_loop] in H.
    destruct (negb (nonempty (strip p))); [now apply IH in H |].
    destruct (str_in (upper (strip p)) missing_markers); [now apply IH in H |].
    destruct (py_float (strip p)) as [v | e].
    + destruct (isnan v || isinf v) eqn:E; [now apply IH in H |].
      apply orb_false_iff in E. apply IH in H; [exact H |].
      apply Forall_app. split; [exact Hv |]. now repeat constructor.
    + destruct e; try discriminate H. now apply IH in H.
Qed.

End ParseValues.

(** X4: in an arithmetic where 0 is neither NaN nor infinite, no value
    that [parse] returns is NaN or infinite, whatever [float] returns
    for the tokens. *)
Theorem parse_values_are_finite :
  forall (F : Type) (PF : PyFloat F) (py_float : string -> result F),
    isnan (of_int 0) = false ->
    isinf (of_int 0) = false ->
    forall raw : string,
      Forall (fun v => isnan v = false /\ isinf v = false)
        (fst (parse py_float raw)).
Proof.
  intros F PF py_float Hn Hi raw. unfold parse, parse_body.
  destruct (parse_loop py_float (tokens raw) [] 0) as [[vals inv] | e] eqn:E;
    cbn [bind fst].
  - apply parse_loop_finite in E; [| constructor].
    destruct vals; cbn [truthy]; [now repeat constructor | exact E].
  - now repeat constructor.
Qed.

Lemma parse_values_are_finite_b64 :
  @isnan float B64.binary64 (of_int 0) = false /\
  @isinf float B64.binary64 (of_int 0) = false /\
  Forall (fun v => @isnan float B64.binary64 v = false /\
                   @isinf float B64.binary64 v = false)
    (fst (parse B64.py_float "1e400, nan 2.5 -inf 7")).
Proof.
  split; [vm_compute; reflexivity |]. split; [vm_compute; reflexivity |].
  apply (parse_values_are_finite float B64.binary64 B64.py_float);
    vm_compute; reflexivity.
Defined.

(** ** [anom]: the records *)

Section AnomRecords.

Context {F : Type} {PF : PyFloat F}.

(** What the loop appends: records of samples of [y], at increasing
    positions from [i] on, each with a z-score above the threshold and
    the severity that goes with it. *)
Lemma anom_loop_records (m s : F) (y : list F) :
  forall (i : Z) (acc l : list (@Anomaly F)),
    anom_loop m s i y acc = Ok l ->
    exists l',
      l = acc ++ l' /\
      Forall (fun a =>
                (exists k : nat,
                    nth_error y k = Some (val a) /\ idx a = i + Z.of_nat k) /\
                fgt (z a) z_th = true /\
                sev a = if fgt (z a) (of_int 5) then "CRITICAL" else "HIGH")
        l' /\
      StronglySorted Z.lt (map idx l').
Proof.
  induction y as [| yi y IH]; intros i acc l H.
  - cbn [anom_loop] in H. inversion H; subst. exists [].
    rewrite app_nil_r. repeat split; constructor.
  - cbn [anom_loop] in H.
    destruct (truediv (fsub yi m) s) as [q | e]; [| discriminate H].
    cbn [bind] in H. destruct (fgt (fabs q) z_th) eqn:Ez.
    + apply IH in H. destruct H as [l' [-> [Hall Hs]]].
      eexists (_ :: l'). rewrite <- app_assoc. split; [reflexivity |].
      split.
      * constructor.
        -- cbn [idx val z sev]. split; [| split; [exact Ez | reflexivity]].
           exists 0%nat. split; [reflexivity | lia].
        -- eapply Forall_impl; [| exact Hall]. cbv beta.
           intros a [[k [Hk Hi]] Hrest]. split; [| exact Hrest].
           exists (S k). split; [exact Hk | lia].
      * cbn [map idx]. constructor; [exact Hs |].
        rewrite Forall_map. eapply Forall_impl; [| exact Hall]. cbv beta.
        intros a [[k [_ Hi]] _]. lia.
    + apply IH in H. destruct H as [l' [-> [Hall Hs]]].
      exists l'. split; [reflexivity |]. split; [| exact Hs].
      eapply Forall_impl; [| exact Hall]. cbv beta.
      intros a [[k [Hk Hi]] Hrest]. split; [| exact Hrest].
      exists (S k). split; [exact Hk | lia].
Qed.

Lemma existsb_critical (l : list (@Anomaly F)) :
  existsb (fun a => String.eqb (sev a) "CRITICAL") l = true <->
  exists a, In a l /\ sev a = "CRITICAL".
Proof.
  rewrite existsb_exists. split; intros [a [Hin Ha]]; exists a;
    (split; [exact Hin |]); now apply String.eqb_eq.
Qed.

End AnomRecords.

(** The records that [anom] returns. *)
Lemma anom_details_spec {F : Type} {PF : PyFloat F} (y : list F) :
  let '(count, danger, anomalies) := anom y in
  count = len anomalies /\
  danger = (if existsb (fun a => String.eqb (sev a) "CRITICAL") anomalies
            then "CRITICAL"
            else if truthy anomalies then "HIGH" else "LOW") /\
  Forall (fun a =>
            0 <= idx a < len y /\
            nth_error y (Z.to_nat (idx a)) = Some (val a) /\
            fgt (z a) z_th = true /\
            sev a = if fgt (z a) (of_int 5) then "CRITICAL" else "HIGH")
    anomalies /\
  StronglySorted Z.lt (map idx anomalies).
Proof.
  unfold anom. destruct (anom_body y) as [[[count danger] l] | e] eqn:E.
  2:{ repeat split; constructor. }
  unfold anom_body in E. destruct (len y <? 2).
  { inversion E; subst. repeat split; constructor. }
  apply bind_Ok_inv in E. destruct E as [m [_ E]].
  apply bind_Ok_inv in E. destruct E as [s [_ E]].
  apply bind_Ok_inv in E. destruct E as [l0 [Hloop E]].
  cbv zeta in E. inversion E; subst; clear E.
  apply anom_loop_records in Hloop.
  destruct Hloop as [l' [-> [Hall Hs]]]. cbn [app].
  rewrite len_filter_critical.
  split; [reflexivity |]. split; [reflexivity |]. split; [| exact Hs].
  eapply Forall_impl; [| exact Hall]. cbv beta.
  intros a [[k [Hk Hi]] Hrest]. rewrite Hi, Z.add_0_l, Nat2Z.id.
  assert (k < List.length y)%nat by (apply nth_error_Some; congruence).
  unfold len. repeat split; try tauto; lia.
Qed.

Lemma anom_positions {F : Type} {PF : PyFloat F} (y : list F)
    (a : @Anomaly F) :
  In a (snd (anom y)) -> 0 <= idx a < len y.
Proof.
  pose proof (anom_details_spec y) as H.
  destruct (anom y) as [[count danger] l]. cbn [snd].
  destruct H as [_ [_ [H _]]]. rewrite Forall_forall in H.
  intros Hin. now apply H.
Qed.

(** X5: in every arithmetic, what [anom] returns is consistent: the
    count is the number of records; the level is LOW exactly when there
    is no record and CRITICAL exactly when a record is CRITICAL; every
    record holds the position of a sample of the input and that sample,
    a z-score above the threshold, and the severity CRITICAL when the
    z-score exceeds 5 and HIGH otherwise; the positions increase. *)
Theorem anom_records_are_consistent :
  forall (F : Type) (PF : PyFloat F) (y : list F),
    let '(count, danger, anomalies) := anom y in
    count = len anomalies /\
    (danger = "LOW" <-> anomalies = []) /\
    (danger = "CRITICAL" <->
     exists a, In a anomalies /\ sev a = "CRITICAL") /\
    (danger = "LOW" \/ danger = "HIGH" \/ danger = "CRITICAL") /\
    Forall (fun a =>
              0 <= idx a < len y /\
              nth_error y (Z.to_nat (idx a)) = Some (val a) /\
              fgt (z a) z_th = true /\
              sev a = if fgt (z a) (of_int 5) then "CRITICAL" else "HIGH")
      anomalies /\
    StronglySorted Z.lt (map idx anomalies).
Proof.
  intros F PF y. pose proof (anom_details_spec y) as H.
  destruct (anom y) as [[count danger] l].
  destruct H as [Hc [Hd [Hall Hs]]].
  split; [exact Hc |].
  destruct (existsb (fun a => String.eqb (sev a) "CRITICAL") l) eqn:Ec.
  - apply existsb_critical in Ec. subst danger. split.
    + split; [discriminate |]. intros ->. now destruct Ec as [a [[] _]].
    + split; [easy |]. split; [now right; right |]. split; assumption.
  - assert (Hno : ~ exists a, In a l /\ sev a = "CRITICAL").
    { intros Hex. apply existsb_critical in Hex. congruence. }
    subst danger. split; [| split; [| split; [| split; assumption]]].
    + destruct l; cbn [truthy]; split; try easy; discriminate.
    + destruct (truthy l); split; try discriminate; intros Hex;
        now destruct Hno.
    + destruct (truthy l); auto.
Qed.

(** ** [calc_stability] without points *)

(** The only exception is the OverflowError of a quotient, and there is
    none without points. *)
Lemma calc_stability_raises {F : Type} {PF : PyFloat F}
    (total_invalid total_points anomalies : Z) (danger : string) (e : exn) :
  calc_stability total_invalid total_points anomalies danger = Raise e ->
  e = OverflowError /\ 0 < total_points /\
  quotients_in_range total_invalid total_points anomalies = false.
Proof.
  unfold calc_stability, int_truediv, quotients_in_range.
  destruct (total_points >? 0) eqn:E; [| discriminate].
  assert (H : (total_points =? 0) = false) by lia. rewrite H.
  destruct (isinf (int_div (total_points - total_invalid) total_points)).
  - cbn [bind]. intros [= <-]. repeat split; lia.
  - cbn [bind].
    destruct (isinf (int_div anomalies total_points)); [| discriminate].
    cbn [bind]. intros [= <-]. repeat split; lia.
Qed.

Lemma calc_stability_no_points_b64 (ti tp an : Z) (danger : string) :
  tp <= 0 ->
  calc_stability (PF := B64.binary64) ti tp an danger
  = Ok (if String.eqb danger "LOW" then 50
        else if String.eqb danger "HIGH" then 40
        else if String.eqb danger "CRITICAL" then 30
        else 45)%float.
Proof.
  intros H. unfold calc_stability.
  assert (E : (tp >? 0) = false) by lia. rewrite E. cbn [bind].
  rewrite danger_score_spec. unfold spec_danger_score.
  destruct (String.eqb danger "LOW"); [vm_compute; reflexivity |].
  destruct (String.eqb danger "HIGH"); [vm_compute; reflexivity |].
  destruct (String.eqb danger "CRITICAL"); vm_compute; reflexivity.
Qed.

(** X6: [calc_stability] never raises ZeroDivisionError: it divides
    only when [total_points > 0].  In every arithmetic the only
    exception it raises is OverflowError, and only with
    [total_points > 0] and a quotient beyond the floats.  Without points
    it returns whatever the other counts are, and in double precision
    the score then depends on the level alone: 50.0 for LOW, 40.0 for
    HIGH, 30.0 for CRITICAL and 45.0 for any other level. *)
Theorem calc_stability_guards_division :
  (forall (F : Type) (PF : PyFloat F)
          (total_invalid total_points anomalies : Z) (danger : string)
          (e : exn),
      calc_stability total_invalid total_points anomalies danger = Raise e ->
      e = OverflowError /\ 0 < total_points /\
      quotients_in_range total_invalid total_points anomalies = false) /\
  (forall (total_invalid total_points anomalies : Z) (danger : string),
      total_points <= 0 ->
      calc_stability (PF := B64.binary64)
        total_invalid total_points anomalies danger
      = Ok (if String.eqb danger "LOW" then 50
            else if String.eqb danger "HIGH" then 40
            else if String.eqb danger "CRITICAL" then 30
            else 45)%float) /\
  calc_stability (PF := B64.binary64) (10 ^ 400) 0 (- 10 ^ 400) "HIGH"
  = Ok 40%float.
Proof.
  split; [| split].
  - intros F PF ti tp an d e. apply calc_stability_raises.
  - intros. now apply calc_stability_no_points_b64.
  - vm_compute. reflexivity.
Qed.

(** ** [proc]: the counts of a summary *)

Lemma min_from_in {F : Type} {PF : PyFloat F} (l : list F) :
  forall best : F, In (min_from best l) (best :: l).
Proof.
  induction l as [| a l IH]; intros best; cbn [min_from]; [now left |].
  destruct (flt a best).
  - right. apply IH.
  - destruct (IH best) as [H | H]; [now left | now right; right].
Qed.

Lemma max_from_in {F A : Type} {PF : PyFloat F} (key : A -> F) (l : list A) :
  forall best : A, In (max_from key best l) (best :: l).
Proof.
  induction l as [| a l IH]; intros best; cbn [max_from]; [now left |].
  destruct (fgt (key a) (key best)).
  - right. apply IH.
  - destruct (IH best) as [H | H]; [now left | now right; right].
Qed.

Section ProcCounts.

Context {F : Type} {PF : PyFloat F} {PM : PyMath F}.

Lemma proc_fields (batch : list F) (b inv : Z) (s : Summary) :
  proc batch b inv = Ok (Some s) ->
  bid s = b /\ total s = len batch /\ invalid_parse s = inv /\
  valid s = len (fst (clean batch)) /\
  invalid_clean s = snd (clean batch) /\
  total_invalid s = inv + snd (clean batch) /\
  (s_anom s, danger s, anom_details s) = anom (fst (clean batch)).
Proof.
  unfold proc. destruct (clean batch) as [cl inv_clean]. cbn [fst snd].
  destruct (negb (truthy cl)); [discriminate |]. intros H.
  do 5 (apply bind_Ok_inv in H; destruct H as [? [_ H]]).
  destruct (anom cl) as [[c d] l].
  do 6 (apply bind_Ok_inv in H; destruct H as [? [_ H]]).
  inversion H. cbn. repeat split; reflexivity.
Qed.

Lemma proc_extremes (batch : list F) (b inv : Z) (s : Summary) :
  proc batch b inv = Ok (Some s) ->
  In (s_min s) (fst (clean batch)) /\ In (s_max s) (fst (clean batch)) /\
  In (median s) (fst (clean batch)) /\
  s_range s = fsub (s_max s) (s_min s).
Proof.
  intros H. pose proof (proc_median _ _ _ _ H) as Hmed. revert H.
  unfold proc. destruct (clean batch) as [cl inv_clean]. cbn [fst] in *.
  destruct (negb (truthy cl)); [discriminate |]. intros H.
  do 5 (apply bind_Ok_inv in H; destruct H as [? [_ H]]).
  destruct (anom cl) as [[c d] l].
  apply bind_Ok_inv in H. destruct H as [lo [Hlo H]].
  apply bind_Ok_inv in H. destruct H as [hi [Hhi H]].
  apply bind_Ok_inv in H. destruct H as [med [_ H]].
  apply bind_Ok_inv in H. destruct H as [hi' [Hhi' H]].
  apply bind_Ok_inv in H. destruct H as [lo' [Hlo' H]].
  apply bind_Ok_inv in H. destruct H as [cv0 [_ H]].
  inversion H; subst; clear H. cbn [s_min s_max median s_range] in *.
  rewrite Hlo in Hlo'. rewrite Hhi in Hhi'.
  inversion Hlo'; subst lo'. inversion Hhi'; subst hi'.
  split; [| split; [| split; [| reflexivity]]].
  - destruct cl as [| a cl]; [discriminate |]. cbn [py_min] in Hlo.
    inversion Hlo. apply min_from_in.
  - destruct cl as [| a cl]; [discriminate |].
    unfold py_max in Hhi. cbn [max_by] in Hhi.
    inversion Hhi. apply (max_from_in (fun v => v)).
  - apply (Permutation_in _ (Permutation_sym (sorted_perm cl))).
    eapply nth_error_In. exact Hmed.
Qed.

End ProcCounts.

Lemma anom_loop_length {F : Type} {PF : PyFloat F} (m s : F) (y : list F) :
  forall (i : Z) (acc l : list (@Anomaly F)),
    anom_loop m s i y acc = Ok l ->
    (List.length l <= List.length acc + List.length y)%nat.
Proof.
  induction y as [| yi y IH]; intros i acc l H.
  - cbn [anom_loop] in H. inversion H; subst. lia.
  - cbn [anom_loop] in H.
    destruct (truediv (fsub yi m) s) as [q | e]; [| discriminate H].
    cbn [bind] in H. destruct (fgt (fabs q) z_th).
    + apply IH in H. rewrite length_app in H. cbn [List.length] in *. lia.
    + apply IH in H. cbn [List.length]. lia.
Qed.

Lemma anom_count {F : Type} {PF : PyFloat F} (y : list F) :
  fst (fst (anom y)) = len (snd (anom y)) /\
  0 <= fst (fst (anom y)) <= len y.
Proof.
  unfold anom. destruct (anom_body y) as [[[count danger] l] | e] eqn:E.
  2:{ cbn. unfold len. cbn. lia. }
  unfold anom_body in E. destruct (len y <? 2).
  { inversion E; subst. cbn. unfold len. cbn. lia. }
  apply bind_Ok_inv in E. destruct E as [m [_ E]].
  apply bind_Ok_inv in E. destruct E as [s [_ E]].
  apply bind_Ok_inv in E. destruct E as [l0 [Hloop E]].
  cbv zeta in E. inversion E; subst; clear E.
  apply anom_loop_length in Hloop. cbn [fst snd List.length] in *.
  unfold len. lia.
Qed.

(** X7: in every summary that [proc] returns, [total] is the length of
    the batch, [total_invalid] is [invalid_parse + invalid_clean],
    [valid] is at least 1, [anom] is the number of anomaly records and
    at most [valid]; [valid + invalid_clean = total] unless [clean]
    rejected the whole batch, in which case [valid] is 1; [min], [max]
    and [median] are cleaned values and [range] is [max - min]. *)
Theorem proc_counts_add_up :
  forall (F : Type) (PF : PyFloat F) (PM : PyMath F)
         (batch : list F) (b inv : Z) (s : Summary),
    proc batch b inv = Ok (Some s) ->
    total s = len batch /\
    invalid_parse s = inv /\
    total_invalid s = invalid_parse s + invalid_clean s /\
    0 <= invalid_clean s <= total s /\
    1 <= valid s /\
    (invalid_clean s < total s -> valid s + invalid_clean s = total s) /\
    (invalid_clean s = total s -> valid s = 1) /\
    s_anom s = len (anom_details s) /\
    0 <= s_anom s <= valid s /\
    In (s_min s) (fst (clean batch)) /\ In (s_max s) (fst (clean batch)) /\
    In (median s) (fst (clean batch)) /\
    s_range s = fsub (s_max s) (s_min s).
Proof.
  intros F PF PM batch b inv s H.
  pose proof (proc_extremes _ _ _ _ H) as Hext.
  apply proc_fields in H.
  destruct H as [_ [Ht [Hip [Hv [Hic [Hti Han]]]]]].
  pose proof (anom_count (fst (clean batch))) as [Hc1 Hc2].
  rewrite <- Han in Hc1, Hc2. cbn [fst snd] in Hc1, Hc2.
  rewrite clean_spec in Hv, Hic, Hti, Hc2. cbn [fst snd] in Hv, Hic, Hti, Hc2.
  pose proof (len_filter_split keep batch) as Hsplit.
  assert (Hk : 0 <= len (filter keep batch)) by (unfold len; lia).
  assert (Hr : 0 <= len (filter (fun v => negb (keep v)) batch))
    by (unfold len; lia).
  rewrite Ht, Hip, Hti, Hic.
  destruct (filter keep batch) as [| v kept] eqn:Ek; cbn [truthy] in Hv, Hc2.
  - change (len (@nil F)) with 0 in *. change (len [of_int 0]) with 1 in *.
    repeat split; try lia; tauto.
  - assert (1 <= len (v :: kept)) by (unfold len; cbn [List.length]; lia).
    repeat split; try lia; tauto.
Qed.

Lemma proc_counts_add_up_b64 :
  exists s : Summary,
    proc (PF := B64.binary64) (PM := B64.libm B64.log_sample B64.exp_sample)
      [-1; nan; 3; 1e16]%float 1 2 = Ok (Some s) /\
    total s = len [-1; nan; 3; 1e16]%float /\
    invalid_parse s = 2 /\
    total_invalid s = invalid_parse s + invalid_clean s /\
    0 <= invalid_clean s <= total s /\
    1 <= valid s /\
    (invalid_clean s < total s -> valid s + invalid_clean s = total s) /\
    (invalid_clean s = total s -> valid s = 1) /\
    s_anom s = len (anom_details s) /\
    0 <= s_anom s <= valid s /\
    In (s_min s) (fst (clean [-1; nan; 3; 1e16]%float)) /\
    In (s_max s) (fst (clean [-1; nan; 3; 1e16]%float)) /\
    In (median s) (fst (clean [-1; nan; 3; 1e16]%float)) /\
    s_range s = fsub (s_max s) (s_min s).
Proof.
  eexists. split; [vm_compute; reflexivity |].
  apply (proc_counts_add_up float B64.binary64
           (B64.libm B64.log_sample B64.exp_sample)
           [-1; nan; 3; 1e16]%float 1 2).
  vm_compute. reflexivity.
Defined.

(** ** [fit]: the lengths of its arguments *)

Lemma mapM_raise {A B : Type} (f : A -> result B) (l1 l2 : list A) (a : A)
    (e : exn) :
  (forall b, In b l1 -> exists v, f b = Ok v) ->
  f a = Raise e ->
  mapM f (l1 ++ a :: l2) = Raise e.
Proof.
  intros H1 Ha. induction l1 as [| b l1 IH]; cbn [app mapM].
  - now rewrite Ha.
  - destruct (H1 b (or_introl eq_refl)) as [v Hv]. rewrite Hv. cbn [bind].
    rewrite IH by (intros; apply H1; now right). reflexivity.
Qed.

Lemma index_Ok {A : Type} (l : list A) (i : nat) :
  (i < List.length l)%nat -> exists a, index l i = Ok a.
Proof.
  intros H. unfold index. destruct (nth_error l i) eqn:E; [eauto |].
  apply nth_error_None in E. lia.
Qed.

Lemma index_Raise {A : Type} (l : list A) (i : nat) :
  (List.length l <= i)%nat -> index l i = Raise IndexError.
Proof.
  intros H. unfold index. apply nth_error_None in H. now rewrite H.
Qed.

Lemma seq_split_at (n k : nat) :
  (k < n)%nat -> seq 0 n = seq 0 k ++ k :: seq (S k) (n - S k).
Proof.
  intros H. replace n with (k + S (n - S k))%nat at 1 by lia.
  rewrite seq_app. reflexivity.
Qed.

Section FitLengths.

Context {F : Type} {PF : PyFloat F}.

Lemma fit_empty_x (y : list F) : fit [] y = Raise ZeroDivisionError.
Proof. reflexivity. Qed.

(** The first element of a list that passes a test. *)
Lemma existsb_first {A : Type} (f : A -> bool) (l : list A) :
  existsb f l = true ->
  exists l1 a l2,
    l = l1 ++ a :: l2 /\ f a = true /\ forall b, In b l1 -> f b = false.
Proof.
  induction l as [| a l IH]; [discriminate |]. cbn [existsb].
  destruct (f a) eqn:E.
  - intros _. exists [], a, l. repeat split; [exact E | intros b []].
  - intros H. destruct (IH H) as [l1 [a' [l2 [-> [Ha Hl1]]]]].
    exists (a :: l1), a', l2. repeat split; [exact Ha |].
    intros b [<- | Hb]; [exact E | now apply Hl1].
Qed.

Lemma existsb_none {A : Type} (f : A -> bool) (l : list A) (a : A) :
  existsb f l = false -> In a l -> f a = false.
Proof.
  intros H Hin. destruct (f a) eqn:E; [| reflexivity].
  assert (existsb f l = true) by (apply existsb_exists; eauto). congruence.
Qed.

Lemma nth_error_firstn_lt {A : Type} (l : list A) (n i : nat) :
  (i < n)%nat -> nth_error (firstn n l) i = nth_error l i.
Proof.
  intros H. rewrite nth_error_firstn.
  apply Nat.ltb_lt in H. now rewrite H.
Qed.

Lemma float_of_int_Ok (n : Z) :
  isinf (of_int n) = false -> float_of_int n = Ok (of_int n).
Proof. intros H. unfold float_of_int. cbv zeta. now rewrite H. Qed.

Lemma float_of_int_Raise (n : Z) :
  isinf (of_int n) = true -> float_of_int n = Raise OverflowError.
Proof. intros H. unfold float_of_int. cbv zeta. now rewrite H. Qed.

(** The first loop of [fit] when [y] is shorter than [x]: it stops at
    the first int that does not convert, and otherwise at the first
    position that [y] lacks. *)
Lemma fit_loop_short_y (x : list Z) (y : list F) (mx my : F) :
  (List.length y < List.length x)%nat ->
  mapM (fun i => xi <- index x i ;; fx <- float_of_int xi ;;
                 yi <- index y i ;;
                 Ok (fmul (fsub fx mx) (fsub yi my)))
    (seq 0 (List.length x))
  = Raise (if existsb (fun xi => isinf (of_int xi))
                (firstn (S (List.length y)) x)
           then OverflowError else IndexError).
Proof.
  intros H.
  destruct (existsb _ (firstn (S (List.length y)) x)) eqn:E.
  - apply existsb_first in E. destruct E as [l1 [a [l2 [Heq [Ha Hl1]]]]].
    assert (Hj : (List.length l1 < S (List.length y))%nat).
    { apply (f_equal (@List.length Z)) in Heq.
      rewrite length_firstn, length_app in Heq. cbn [List.length] in Heq.
      lia. }
    assert (Hx : forall i, (i <= List.length l1)%nat ->
                   nth_error x i = nth_error (l1 ++ a :: l2) i).
    { intros i Hi. rewrite <- Heq. symmetry. apply nth_error_firstn_lt. lia. }
    rewrite (seq_split_at (List.length x) (List.length l1)) by lia.
    apply mapM_raise.
    + intros i Hi. apply in_seq in Hi. unfold index at 1.
      rewrite Hx by lia. rewrite nth_error_app1 by lia.
      destruct (nth_error l1 i) as [xi |] eqn:Ei.
      2:{ apply nth_error_None in Ei. lia. }
      cbn [bind]. rewrite float_of_int_Ok
        by (apply Hl1; eapply nth_error_In; exact Ei).
      cbn [bind]. destruct (index_Ok y i) as [yi Hy]; [lia |].
      rewrite Hy. cbn [bind]. eauto.
    + unfold index at 1. rewrite Hx by lia.
      rewrite nth_error_app2, Nat.sub_diag by lia. cbn [nth_error bind].
      now rewrite float_of_int_Raise.
  - rewrite (seq_split_at _ _ H).
    assert (Hc : forall i xi, (i <= List.length y)%nat ->
                   nth_error x i = Some xi -> isinf (of_int xi) = false).
    { intros i xi Hi Hxi.
      apply (existsb_none _ _ xi E).
      apply (nth_error_In _ i). rewrite nth_error_firstn_lt by lia.
      exact Hxi. }
    apply mapM_raise.
    + intros i Hi. apply in_seq in Hi. unfold index at 1.
      destruct (nth_error x i) as [xi |] eqn:Ei.
      2:{ apply nth_error_None in Ei. lia. }
      cbn [bind]. rewrite float_of_int_Ok by (apply (Hc i); [lia | exact Ei]).
      cbn [bind]. destruct (index_Ok y i) as [yi Hy]; [lia |].
      rewrite Hy. cbn [bind]. eauto.
    + unfold index at 1.
      destruct (nth_error x (List.length y)) as [xi |] eqn:Ei.
      2:{ apply nth_error_None in Ei. lia. }
      cbn [bind].
      rewrite float_of_int_Ok by (apply (Hc (List.length y)); [lia | exact Ei]).
      cbn [bind]. rewrite index_Raise by lia. reflexivity.
Qed.

Lemma fit_short_y (x : list Z) (y : list F) :
  (List.length y < List.length x)%nat ->
  fit x y =
  Raise (if isinf (int_div (zsum x) (len x)) then OverflowError
         else if feq (of_int (len y)) (of_int 0) then ZeroDivisionError
         else if existsb (fun xi => isinf (of_int xi))
                   (firstn (S (List.length y)) x)
         then OverflowError else IndexError).
Proof.
  intros H. unfold fit, int_truediv, truediv.
  assert (E : (len x =? 0) = false) by (unfold len; lia). rewrite E.
  cbv zeta. destruct (isinf (int_div (zsum x) (len x))); [reflexivity |].
  cbn [bind]. destruct (feq (of_int (len y)) (of_int 0)); [reflexivity |].
  cbn [bind]. rewrite fit_loop_short_y by exact H. reflexivity.
Qed.

End FitLengths.

(** X8: [fit] returns nothing on input that is too short.  It raises
    ZeroDivisionError when [x] is empty.  When [y] is shorter than [x] it
    raises, in this order of precedence: OverflowError if the mean of [x]
    is beyond the floats, ZeroDivisionError if [len(y)] is 0 as a float,
    OverflowError if one of the ints [x[0]], ..., [x[len(y)]] is beyond
    the floats, and IndexError otherwise.  In double precision
    [fit([0, 1, 2], [1.0, 2.0])] raises IndexError, [fit([1], [])]
    ZeroDivisionError, and [fit([10^400, 0], [1.0])] and
    [fit([0, 10^400, -10^400], [1.0])] OverflowError. *)
Theorem fit_raises_on_short_input :
  (forall (F : Type) (PF : PyFloat F) (y : list F),
      fit [] y = Raise ZeroDivisionError) /\
  (forall (F : Type) (PF : PyFloat F) (x : list Z) (y : list F),
      (List.length y < List.length x)%nat ->
      fit x y =
      Raise (if isinf (int_div (zsum x) (len x)) then OverflowError
             else if feq (of_int (len y)) (of_int 0) then ZeroDivisionError
             else if existsb (fun xi => isinf (of_int xi))
                       (firstn (S (List.length y)) x)
             then OverflowError else IndexError)) /\
  fit (PF := B64.binary64) [0; 1; 2] [1; 2]%float = Raise IndexError /\
  fit (PF := B64.binary64) [1] [] = Raise ZeroDivisionError /\
  fit (PF := B64.binary64) [10 ^ 400; 0] [1%float] = Raise OverflowError /\
  fit (PF := B64.binary64) [0; 10 ^ 400; - 10 ^ 400] [1%float]
  = Raise OverflowError.
Proof.
  split; [intros; apply fit_empty_x |].
  split; [intros; now apply fit_short_y |].
  repeat split; vm_compute; reflexivity.
Qed.

(** ** [proc]: the order of the statistics *)

Section OrderedStatistics.

Context {F : Type} {PF : PyFloat F}.

Hypothesis flt_irrefl : forall a : F, flt a a = false.
Hypothesis flt_trans :
  forall a b c : F, flt a b = true -> flt b c = true -> flt a c = true.
Hypothesis flt_total :
  forall a b c : F,
    flt a c = true -> isnan b = false -> flt a b = true \/ flt b c = true.

Lemma flt_asym (a b : F) : flt a b = true -> flt b a = false.
Proof.
  intros H. destruct (flt b a) eqn:E; [| reflexivity].
  rewrite <- (flt_irrefl a). symmetry. exact (flt_trans _ _ _ H E).
Qed.

(** [min(l)] is below every element. *)
Lemma min_from_le (l : list F) :
  forall (seen : list F) (best : F),
    (forall c, In c seen -> flt c best = false) ->
    forall c, In c (seen ++ best :: l) -> flt c (min_from best l) = false.
Proof.
  induction l as [| a l IH]; intros seen best Hs c Hc; cbn [min_from].
  - apply in_app_or in Hc. destruct Hc as [Hc | [<- | []]];
      [now apply Hs | apply flt_irrefl].
  - destruct (flt a best) eqn:E.
    + apply (IH (seen ++ [best])).
      * intros c' Hc'. apply in_app_or in Hc'.
        destruct Hc' as [Hc' | [<- | []]].
        -- destruct (flt c' a) eqn:E'; [| reflexivity].
           rewrite <- (Hs c' Hc'). symmetry. exact (flt_trans _ _ _ E' E).
        -- now apply flt_asym.
      * rewrite <- app_assoc. exact Hc.
    + apply (IH (seen ++ [a])).
      * intros c' Hc'. apply in_app_or in Hc'.
        destruct Hc' as [Hc' | [<- | []]]; [now apply Hs | exact E].
      * apply in_app_or in Hc. apply in_or_app.
        destruct Hc as [Hc | [<- | [<- | Hc]]].
        -- left. apply in_or_app. now left.
        -- right. now left.
        -- left. apply in_or_app. right. now left.
        -- right. now right.
Qed.

Lemma py_min_le (l : list F) (lo : F) :
  py_min l = Ok lo -> forall c, In c l -> flt c lo = false.
Proof.
  destruct l as [| a l]; [discriminate |]. cbn [py_min]. intros [= <-] c Hc.
  apply (min_from_le l [] a); [intros c' [] | exact Hc].
Qed.

(** [max(l)] is above every element. *)
Lemma py_max_ge (l : list F) (hi : F) :
  (forall c, In c l -> isnan c = false) ->
  py_max l = Ok hi -> forall c, In c l -> flt hi c = false.
Proof.
  intros Hn Hmax c Hc. unfold py_max in Hmax.
  destruct l as [| a l]; [discriminate |].
  destruct (max_by_first flt_trans flt_total (fun v => v) (a :: l))
    as [best [l1 [l2 [Hb [Heq [H1 H2]]]]]]; [discriminate | exact Hn |].
  rewrite Hmax in Hb. injection Hb as <-.
  rewrite Heq in Hc. apply in_app_or in Hc.
  destruct Hc as [Hc | [<- | Hc]].
  - apply flt_asym. now apply H1.
  - apply flt_irrefl.
  - now apply H2.
Qed.

(** [sorted(l)] is in ascending order. *)
Lemma insert_ascending (v : F) (l : list F) :
  Sorted (fun a b => flt b a = false) l ->
  Sorted (fun a b => flt b a = false) (insert v l).
Proof.
  induction l as [| a l IH]; intros Hs; cbn [insert].
  - repeat constructor.
  - destruct (flt v a) eqn:E.
    + constructor; [exact Hs |]. constructor. now apply flt_asym.
    + inversion Hs as [| a' l' Hs' Hhd]; subst.
      constructor; [now apply IH |].
      destruct l as [| b l]; cbn [insert].
      * constructor. exact E.
      * destruct (flt v b); constructor; [exact E |]. now inversion Hhd.
Qed.

Lemma sorted_ascending (l : list F) :
  Sorted (fun a b => flt b a = false) (sorted l).
Proof.
  unfold sorted.
  assert (H : Sorted (fun a b : F => flt b a = false) []) by constructor.
  revert H. generalize (@nil F). induction l as [| v l IH]; intros acc H.
  - exact H.
  - cbn [fold_left]. apply IH. now apply insert_ascending.
Qed.

End OrderedStatistics.

Lemma keep_not_nan {F : Type} {PF : PyFloat F} (v : F) :
  keep v = true -> isnan v = false.
Proof.
  unfold keep. destruct (isnan v); [discriminate | reflexivity].
Qed.

(** The cleaned values are not NaN. *)
Lemma clean_not_nan_b64 (batch : list float) (v : float) :
  In v (fst (clean (PF := B64.binary64) batch)) ->
  PrimFloat.is_nan v = false.
Proof.
  rewrite clean_spec. cbn [fst].
  destruct (filter keep batch) as [| a l] eqn:E; cbn [truthy].
  - intros [<- | []]. reflexivity.
  - rewrite <- E. intros Hin. apply filter_In in Hin.
    apply (keep_not_nan (PF := B64.binary64)). tauto.
Qed.

Lemma proc_min_max {F : Type} {PF : PyFloat F} {PM : PyMath F}
    (batch : list F) (b inv : Z) (s : Summary) :
  proc batch b inv = Ok (Some s) ->
  py_min (fst (clean batch)) = Ok (s_min s) /\
  py_max (fst (clean batch)) = Ok (s_max s).
Proof.
  unfold proc. destruct (clean batch) as [cl inv_clean]. cbn [fst].
  destruct (negb (truthy cl)); [discriminate |]. intros H.
  do 5 (apply bind_Ok_inv in H; destruct H as [? [_ H]]).
  destruct (anom cl) as [[c d] l].
  apply bind_Ok_inv in H. destruct H as [lo [Hlo H]].
  apply bind_Ok_inv in H. destruct H as [hi [Hhi H]].
  do 4 (apply bind_Ok_inv in H; destruct H as [? [_ H]]).
  inversion H. cbn [s_min s_max]. split; assumption.
Qed.

Lemma Sorted_impl_in {A : Type} (R1 R2 : A -> A -> Prop) (l : list A) :
  (forall a b, In a l -> In b l -> R1 a b -> R2 a b) ->
  Sorted R1 l -> Sorted R2 l.
Proof.
  induction l as [| a l IH]; intros Himp Hs; [constructor |].
  inversion Hs as [| a' l' Hs' Hhd]; subst. constructor.
  - apply IH; [| exact Hs']. intros x y Hx Hy. apply Himp; now right.
  - destruct l as [| b l]; constructor.
    inversion Hhd; subst. apply Himp; [now left | right; now left | assumption].
Qed.

(** X17: in double precision, in every summary that [proc] returns,
    [min] is at most, and [max] at least, every cleaned value, so that
    [min <= median <= max]; and the sorted cleaned values, among which
    the median is taken, are in ascending order.  The mean and the
    deviation are not bound by the extremes: for three values 0.1 the
    mean is 0.10000000000000002, above the maximum 0.1, and the deviation
    1.39e-17 exceeds the range 0. *)
Theorem proc_statistics_are_ordered :
  (forall (log exp : float -> float) (batch : list float) (bid inv : Z)
          (s : Summary),
      proc (PF := B64.binary64) (PM := B64.libm log exp) batch bid inv
      = Ok (Some s) ->
      let cleaned := fst (clean (PF := B64.binary64) batch) in
      Forall (fun v => PrimFloat.leb (s_min s) v = true /\
                       PrimFloat.leb v (s_max s) = true) cleaned /\
      PrimFloat.leb (s_min s) (median s) = true /\
      PrimFloat.leb (median s) (s_max s) = true /\
      PrimFloat.leb (s_min s) (s_max s) = true /\
      Sorted (fun a b => PrimFloat.leb a b = true) (sorted cleaned)) /\
  (exists s : Summary,
        proc (PF := B64.binary64)
          (PM := B64.libm B64.log_sample B64.exp_sample)
          (repeat (B64.b64_of_decimal 1 (-1)) 3) 1 0 = Ok (Some s) /\
        s_max s = B64.b64_of_decimal 1 (-1) /\
        mean s = 0x1.999999999999bp-4%float /\
        PrimFloat.ltb (s_max s) (mean s) = true /\
        s_range s = 0%float /\
        std s = 0x1p-56%float /\
        PrimFloat.ltb (s_range s) (std s) = true).
Proof.
  split.
  - intros log exp batch bid inv s H cleaned.
    pose proof (proc_extremes _ _ _ _ H) as [Hlo [Hhi [Hmed _]]].
    pose proof (proc_min_max _ _ _ _ H) as [Hmin Hmax].
    fold cleaned in Hlo, Hhi, Hmed, Hmin, Hmax.
    assert (Hn : forall v, In v cleaned -> PrimFloat.is_nan v = false)
      by (intros v; apply clean_not_nan_b64).
    assert (Hle : forall v, In v cleaned ->
                   PrimFloat.leb (s_min s) v = true /\
                   PrimFloat.leb v (s_max s) = true).
    { intros v Hv. rewrite !b64_leb_not_ltb by auto. split.
      - change (PrimFloat.ltb v (s_min s)) with (flt v (s_min s)).
        rewrite (py_min_le (PF := B64.binary64) b64_ltb_irrefl
                   b64_ltb_trans cleaned _ Hmin v Hv). reflexivity.
      - change (PrimFloat.ltb (s_max s) v) with (flt (s_max s) v).
        rewrite (py_max_ge (PF := B64.binary64) b64_ltb_irrefl
                   b64_ltb_trans b64_ltb_total cleaned _ Hn Hmax v Hv).
        reflexivity. }
    split; [apply Forall_forall; exact Hle |].
    split; [apply (Hle _ Hmed) |]. split; [apply (Hle _ Hmed) |].
    split; [apply (Hle _ Hhi) |].
    apply (Sorted_impl_in (fun a b => PrimFloat.ltb b a = false)).
    + intros a b Ha Hb Hab.
      assert (Hs : forall v, In v (sorted cleaned) -> In v cleaned).
      { intros v Hv.
        apply (Permutation_in _ (Permutation_sym (sorted_perm cleaned))).
        exact Hv. }
      rewrite b64_leb_not_ltb by (apply Hn, Hs; assumption).
      now rewrite Hab.
    + apply (sorted_ascending (PF := B64.binary64) b64_ltb_irrefl
               b64_ltb_trans).
  - eexists. split; [vm_compute; reflexivity |].
    repeat split; vm_compute; reflexivity.
Qed.

(** ** [parse]: the words for a missing value *)

(** The characters that [upper] maps to a given one. *)
Lemma upper_char_inv (c d : ascii) :
  upper_char c = d -> c = d \/ upper_char c = d /\ c = B64.lower_char d.
Proof.
  intros <-.
  destruct c as [[] [] [] [] [] [] [] []]; vm_compute; auto.
Qed.

Lemma upper_inv_nil (p : string) : upper p = "" -> p = "".
Proof. destruct p; [reflexivity | discriminate]. Qed.

Lemma upper_inv_cons (p : string) (d : ascii) (w : string) :
  upper p = String d w ->
  exists c p', p = String c p' /\ (c = d \/ c = B64.lower_char d) /\
               upper p' = w.
Proof.
  destruct p as [| c p']; [discriminate |]. cbn [upper].
  intros [= Hc Hw]. exists c, p'. split; [reflexivity |].
  split; [| exact Hw]. apply upper_char_inv in Hc. tauto.
Qed.

Ltac upper_cases H :=
  repeat
    (apply upper_inv_cons in H;
     let c := fresh "c" in let p := fresh "p" in
     let Hc := fresh "Hc" in
     destruct H as [c [p [-> [Hc H]]]];
     destruct Hc as [-> | ->]);
  apply upper_inv_nil in H; subst.

(** X18: a word that [parse] takes for a marker of a missing value
    (NULL, NA, NAN, NONE, N/A or -, in any case of the letters) is one
    that [float] of double precision rejects with ValueError or reads
    as NaN: [parse] would count it as invalid without the test. *)
Theorem missing_markers_are_not_numbers :
  forall p : string,
    str_in (upper (strip p)) missing_markers = true ->
    B64.py_float (strip p) = Raise ValueError \/
    exists v, B64.py_float (strip p) = Ok v /\ PrimFloat.is_nan v = true.
Proof.
  intros p. generalize (strip p). clear p. intros p.
  unfold str_in, missing_markers. cbn [existsb].
  rewrite !orb_true_iff, !String.eqb_eq.
  intros [H | [H | [H | [H | [H | [H | H]]]]]]; [.. | discriminate H];
    upper_cases H;
    first [ left; vm_compute; reflexivity
          | right; eexists; split; vm_compute; reflexivity ].
Qed.

Lemma missing_markers_are_not_numbers_example :
  str_in (upper (strip " n/a ")) missing_markers = true /\
  (B64.py_float (strip " n/a ") = Raise ValueError \/
   exists v, B64.py_float (strip " n/a ") = Ok v /\
             PrimFloat.is_nan v = true).
Proof.
  split; [vm_compute; reflexivity |].
  apply (missing_markers_are_not_numbers " n/a "). vm_compute. reflexivity.
Defined.

(** ** [parse]: separators, brackets and surrounding white space *)

Lemma blank_nil : blank "".
Proof. constructor. Qed.

Lemma blank_cons (c : ascii) (s : string) :
  blank (String c s) <-> is_space c = true /\ blank s.
Proof.
  unfold blank. cbn [list_ascii_of_string]. split.
  - intros H. now inversion H.
  - intros [H1 H2]. now constructor.
Qed.

Lemma string_app_nil_r (s : string) : (s ++ "")%string = s.
Proof. induction s as [| c s IH]; cbn; [reflexivity | now rewrite IH]. Qed.

Lemma string_app_assoc (s1 s2 s3 : string) :
  ((s1 ++ s2) ++ s3)%string = (s1 ++ (s2 ++ s3))%string.
Proof. induction s1 as [| c s1 IH]; cbn; [reflexivity | now rewrite IH]. Qed.

Lemma scrub_cons (c : ascii) (s : string) :
  scrub (String c s) = (scrub_char c ++ scrub s)%string.
Proof.
  unfold scrub, scrub_char. cbn [replace].
  destruct (Ascii.eqb c "[") eqn:E1.
  - reflexivity.
  - cbn [replace]. destruct (Ascii.eqb c "]") eqn:E2.
    + reflexivity.
    + cbn [replace]. destruct (Ascii.eqb c ",") eqn:E3; reflexivity.
Qed.

Lemma scrub_app (s1 s2 : string) :
  scrub (s1 ++ s2) = (scrub s1 ++ scrub s2)%string.
Proof.
  induction s1 as [| c s1 IH]; [reflexivity |].
  cbn [append]. now rewrite !scrub_cons, IH, string_app_assoc.
Qed.

Lemma scrub_char_space (c : ascii) :
  is_space c = true -> scrub_char c = String c "".
Proof.
  intros H. unfold scrub_char.
  destruct (Ascii.eqb c "[") eqn:E1;
    [apply Ascii.eqb_eq in E1; subst; discriminate H |].
  destruct (Ascii.eqb c "]") eqn:E2;
    [apply Ascii.eqb_eq in E2; subst; discriminate H |].
  destruct (Ascii.eqb c ",") eqn:E3;
    [apply Ascii.eqb_eq in E3; subst; discriminate H |].
  reflexivity.
Qed.

Lemma scrub_blank (ws : string) : blank ws -> scrub ws = ws /\ blank (scrub ws).
Proof.
  induction ws as [| c ws IH]; intros H; [split; [reflexivity | exact H] |].
  apply blank_cons in H. destruct H as [Hc Hws].
  destruct (IH Hws) as [E _].
  rewrite scrub_cons, scrub_char_space, E by exact Hc.
  split; [reflexivity |]. now apply blank_cons.
Qed.

Lemma lstrip_split (s : string) :
  exists ws, blank ws /\ s = (ws ++ lstrip s)%string.
Proof.
  induction s as [| c s IH];
    [exists ""; split; [constructor | reflexivity] |].
  cbn [lstrip]. destruct (is_space c) eqn:E.
  - destruct IH as [ws [Hws Hs]]. exists (String c ws). split.
    + now apply blank_cons.
    + cbn [append]. now rewrite <- Hs.
  - exists "". split; [constructor | reflexivity].
Qed.

Lemma rstrip_split (s : string) :
  exists ws, blank ws /\ s = (rstrip s ++ ws)%string.
Proof.
  induction s as [| c s IH];
    [exists ""; split; [constructor | reflexivity] |].
  destruct IH as [ws [Hws Hs]]. cbn [rstrip].
  destruct (rstrip s) as [| c' s''] eqn:E.
  - cbn [append] in Hs. subst s. destruct (is_space c) eqn:Ec.
    + exists (String c ws). split; [now apply blank_cons | reflexivity].
    + exists ws. split; [exact Hws | reflexivity].
  - exists ws. split; [exact Hws |]. cbn [append] in Hs |- *.
    now rewrite <- Hs.
Qed.

Lemma strip_split (s : string) :
  exists ws1 ws2,
    blank ws1 /\ blank ws2 /\ s = (ws1 ++ strip s ++ ws2)%string.
Proof.
  destruct (lstrip_split s) as [ws1 [H1 Hs]].
  destruct (rstrip_split (lstrip s)) as [ws2 [H2 Hl]].
  exists ws1, ws2. split; [exact H1 |]. split; [exact H2 |].
  unfold strip. now rewrite <- Hl.
Qed.

Lemma split_from_leading (ws s : string) :
  blank ws -> split_from "" (ws ++ s) = split_from "" s.
Proof.
  induction ws as [| c ws IH]; intros H; [reflexivity |].
  apply blank_cons in H. destruct H as [Hc Hws].
  cbn [append split_from]. rewrite Hc. now apply IH.
Qed.

Lemma split_from_blank (ws : string) :
  blank ws -> split_from "" ws = [].
Proof.
  intros H. rewrite <- (string_app_nil_r ws).
  now rewrite split_from_leading.
Qed.

Lemma split_from_trailing (s ws : string) :
  blank ws ->
  forall cur, split_from cur (s ++ ws) = split_from cur s.
Proof.
  intros H. induction s as [| c s IH]; intros cur.
  - cbn [append]. destruct ws as [| c ws]; [reflexivity |].
    pose proof H as H'. apply blank_cons in H'. destruct H' as [Hc Hws].
    cbn [split_from]. rewrite Hc.
    rewrite (split_from_blank ws Hws). destruct cur; reflexivity.
  - cbn [append split_from]. destruct (is_space c).
    + destruct cur; now rewrite IH.
    + apply IH.
Qed.

Lemma split_ignores_margins (ws1 s ws2 : string) :
  blank ws1 -> blank ws2 -> split (ws1 ++ s ++ ws2) = split s.
Proof.
  intros H1 H2. unfold split.
  now rewrite split_from_leading, split_from_trailing.
Qed.

Lemma tokens_scrub (raw : string) : tokens raw = split (scrub raw).
Proof.
  unfold tokens. fold (scrub (strip raw)).
  destruct (strip_split raw) as [ws1 [ws2 [H1 [H2 Hs]]]].
  rewrite Hs at 2. rewrite !scrub_app.
  destruct (scrub_blank ws1 H1) as [-> _].
  destruct (scrub_blank ws2 H2) as [-> _].
  symmetry. now apply split_ignores_margins.
Qed.

Lemma scrub_char_scrub (c : ascii) : scrub (scrub_char c) = scrub_char c.
Proof.
  unfold scrub_char.
  destruct (Ascii.eqb c "[") eqn:E1; [reflexivity |].
  destruct (Ascii.eqb c "]") eqn:E2; [reflexivity |].
  destruct (Ascii.eqb c ",") eqn:E3; [reflexivity |].
  rewrite scrub_cons. unfold scrub_char. now rewrite E1, E2, E3.
Qed.

(** Scrubbing after one of the replacements of [parse] is scrubbing. *)
Lemma scrub_replace (old : ascii) (new : string) (s : string) :
  scrub new = scrub_char old ->
  scrub (replace old new s) = scrub s.
Proof.
  intros Hnew. induction s as [| c s IH]; [reflexivity |].
  cbn [replace]. destruct (Ascii.eqb c old) eqn:E.
  - apply Ascii.eqb_eq in E. subst c.
    now rewrite scrub_app, scrub_cons, IH, Hnew.
  - now rewrite !scrub_cons, IH.
Qed.

Lemma parse_tokens {F : Type} {PF : PyFloat F}
    (py_float : string -> result F) (raw raw' : string) :
  tokens raw = tokens raw' -> parse py_float raw = parse py_float raw'.
Proof. intros H. unfold parse, parse_body. now rewrite H. Qed.

(** X19: the tokens of [parse] are the words of the text in which the
    brackets are deleted and the commas replaced by spaces; the call of
    [strip] changes nothing.  So [parse] returns the same for a text and
    for the text with commas replaced by spaces, with the brackets
    deleted, stripped, or set between spaces. *)
Theorem parse_ignores_layout :
  forall (F : Type) (PF : PyFloat F) (py_float : string -> result F)
         (raw : string),
    tokens raw
    = split (replace "," " " (replace "]" "" (replace "[" "" raw))) /\
    parse py_float (replace "," " " raw) = parse py_float raw /\
    parse py_float (replace "[" "" raw) = parse py_float raw /\
    parse py_float (replace "]" "" raw) = parse py_float raw /\
    parse py_float (strip raw) = parse py_float raw /\
    parse py_float (" " ++ raw ++ " ") = parse py_float raw.
Proof.
  intros F PF py_float raw.
  split; [apply tokens_scrub |].
  repeat split; apply parse_tokens; rewrite !tokens_scrub.
  - f_equal. now apply scrub_replace.
  - f_equal. now apply scrub_replace.
  - f_equal. now apply scrub_replace.
  - destruct (strip_split raw) as [ws1 [ws2 [H1 [H2 Hs]]]].
    rewrite Hs at 2. rewrite !scrub_app.
    destruct (scrub_blank ws1 H1) as [-> _].
    destruct (scrub_blank ws2 H2) as [-> _].
    symmetry. now apply split_ignores_margins.
  - rewrite !scrub_app.
    apply (split_ignores_margins " " (scrub raw) " ");
      repeat constructor.
Qed.

(** ** The empty list *)

Lemma analyze_nil_R :
  analyze (PF := Exact.reals) []
  = Ok {| t := "LINEAR"; r := (-1)%R; p := [("r2", (-1)%R)] |}.
Proof.
  unfold analyze. rewrite candidates_nil. cbn [max_by max_from bind].
  assert (E : fgt (score ("EXP", failed)) (score ("LINEAR", failed)) = false).
  { apply fgt_R_false. rewrite !score_failed. lra. }
  rewrite E. cbn [fst snd]. unfold failed, get, dict_get.
  rewrite String.eqb_refl, of_int_R. reflexivity.
Qed.

(** X20: on the empty list, in every arithmetic, [clean] returns
    [([0], 0)] and [anom] returns [(0, LOW, [])], as it does on a list of
    one value; [analyze] returns LINEAR with the score -1 and no
    parameters, the LINEAR and the EXP block having failed (in exact
    arithmetic and in double precision); and [proc], in double
    precision, returns a summary of the sentinel: 0 points in total, 1
    valid, the mean 0, LINEAR with the score 0.5. *)
Theorem empty_input_is_handled :
  (forall (F : Type) (PF : PyFloat F),
      clean (@nil F) = ([of_int 0], 0) /\
      anom (@nil F) = (0, "LOW", []) /\
      (forall v : F, anom [v] = (0, "LOW", []))) /\
  analyze (PF := Exact.reals) []
  = Ok {| t := "LINEAR"; r := (-1)%R; p := [("r2", (-1)%R)] |} /\
  (forall log exp : float -> float,
      analyze (PF := B64.binary64) (PM := B64.libm log exp) []
      = Ok {| t := "LINEAR"; r := (-1)%float; p := [("r2", (-1)%float)] |} /\
      exists s : Summary,
        proc (PF := B64.binary64) (PM := B64.libm log exp) [] 1 0
        = Ok (Some s) /\
        total s = 0 /\ valid s = 1 /\ mean s = 0%float /\
        type s = "LINEAR" /\ r2 s = 0.5%float).
Proof.
  split; [| split; [apply analyze_nil_R |]].
  - intros F PF. repeat split.
  - intros log exp. split; [vm_compute; reflexivity |].
    eexists. split; [vm_compute; reflexivity |]. repeat split.
Qed.

(** ** [run]: the batches *)

Lemma len_nonneg {A : Type} (l : list A) : 0 <= len l.
Proof. unfold len. lia. Qed.

Lemma zsum_acc (l : list Z) (a : Z) : fold_left Z.add l a = a + zsum l.
Proof.
  unfold zsum. revert a. induction l as [| x l IH]; intros a; cbn [fold_left].
  - lia.
  - rewrite IH, (IH (0 + x)). lia.
Qed.

Lemma zsum_cons (x : Z) (l : list Z) : zsum (x :: l) = x + zsum l.
Proof. unfold zsum at 1. cbn [fold_left]. now rewrite zsum_acc. Qed.

Lemma firstn_plus {A : Type} (a b : nat) (l : list A) :
  firstn (a + b) l = firstn a l ++ firstn b (skipn a l).
Proof.
  revert l. induction a as [| a IH]; intros l; [reflexivity |].
  destruct l as [| v l]; cbn [Nat.add firstn skipn app].
  - now rewrite firstn_nil.
  - now rewrite IH.
Qed.

(** A batch is the next [batch_sz] values, or what is left of them. *)
Lemma batch_of_chunk {A : Type} (data : list A) (i : nat) :
  batch_of data (Z.of_nat i)
  = firstn (Z.to_nat batch_sz) (skipn (i * Z.to_nat batch_sz) data).
Proof.
  unfold batch_of, slice. cbv zeta.
  set (B := Z.to_nat batch_sz).
  assert (HB : batch_sz = Z.of_nat B) by reflexivity.
  rewrite HB, <- Nat2Z.inj_mul, Nat2Z.id.
  assert (E : firstn (Z.to_nat (Z.min (Z.of_nat (i * B) + Z.of_nat B)
                                  (len data))) data
              = firstn (i * B + B) data).
  { unfold len. destruct (Z.le_gt_cases (Z.of_nat (i * B) + Z.of_nat B)
                            (Z.of_nat (List.length data))) as [H | H].
    - rewrite Z.min_l by exact H. f_equal. lia.
    - rewrite Z.min_r by lia. rewrite Nat2Z.id, firstn_all.
      symmetry. apply firstn_all2. lia. }
  rewrite E. symmetry. apply firstn_skipn_comm.
Qed.

Lemma concat_chunks {A : Type} (B : nat) (l : list A) (n : nat) :
  List.concat (map (fun i => firstn B (skipn (i * B) l)) (seq 0 n))
  = firstn (n * B) l.
Proof.
  induction n as [| n IH]; [reflexivity |].
  rewrite seq_S, map_app, concat_app, IH. cbn [map List.concat Nat.add].
  rewrite app_nil_r. replace (S n * B)%nat with (n * B + B)%nat by lia.
  symmetry. apply firstn_plus.
Qed.

Lemma nb_of_bounds {A : Type} (data : list A) :
  1 <= nb_of data /\
  (nb_of data - 1) * batch_sz < Z.max 1 (len data) <= nb_of data * batch_sz.
Proof.
  unfold nb_of, batch_sz. pose proof (len_nonneg data) as H.
  set (L := len data) in *. clearbody L.
  pose proof (Z.div_mod (L + 1000 - 1) 1000) as Hd.
  pose proof (Z.mod_pos_bound (L + 1000 - 1) 1000) as Hm.
  lia.
Qed.

Lemma batches_concat {A : Type} (data : list A) :
  List.concat (map (batch_of data) (range (Z.to_nat (nb_of data)))) = data.
Proof.
  unfold range. rewrite map_map.
  rewrite (map_ext _ (fun i => firstn (Z.to_nat batch_sz)
                                 (skipn (i * Z.to_nat batch_sz) data)))
    by (intros; apply batch_of_chunk).
  rewrite concat_chunks. apply firstn_all2.
  pose proof (nb_of_bounds data) as [H1 [_ H2]]. unfold len in H2.
  apply Nat2Z.inj_le.
  rewrite Nat2Z.inj_mul, !Z2Nat.id by (unfold batch_sz; lia).
  lia.
Qed.

Lemma batch_of_length {A : Type} (data : list A) (i : nat) :
  len (batch_of data (Z.of_nat i))
  = Z.min batch_sz (len data - Z.of_nat i * batch_sz) \/
  (len data < Z.of_nat i * batch_sz /\ len (batch_of data (Z.of_nat i)) = 0).
Proof.
  rewrite batch_of_chunk. unfold len.
  rewrite length_firstn, length_skipn.
  assert (HB : batch_sz = Z.of_nat (Z.to_nat batch_sz)) by reflexivity.
  set (B := Z.to_nat batch_sz) in *. rewrite HB.
  destruct (Nat.le_gt_cases (i * B) (List.length data)) as [H | H].
  - left. lia.
  - right. lia.
Qed.

Lemma batch_of_bounds {A : Type} (data : list A) (i : Z) :
  In i (range (Z.to_nat (nb_of data))) ->
  len (batch_of data i) <= batch_sz /\
  (data <> [] -> 1 <= len (batch_of data i)).
Proof.
  intros Hin. unfold range in Hin. apply in_map_iff in Hin.
  destruct Hin as [k [<- Hk]]. apply in_seq in Hk.
  pose proof (nb_of_bounds data) as [Hnb Hb].
  split.
  - destruct (batch_of_length data k) as [-> | [_ ->]]; unfold batch_sz; lia.
  - intros Hne.
    assert (HL : 1 <= len data).
    { pose proof (len_nonneg data). pose proof (len_nonzero data Hne). lia. }
    assert (Hi' : Z.of_nat k <= nb_of data - 1) by lia.
    destruct (batch_of_length data k) as [-> | [Hlt _]];
      unfold batch_sz in *; nia.
Qed.

(** X21: the batches of [run] partition the data: in their order they
    concatenate to the data; there are [nb] of them, the least number
    with [len(data) <= nb * batch_sz] and at least 1; none is longer
    than [batch_sz], and none is empty unless the data are. *)
Theorem run_batches_partition :
  forall (A : Type) (data : list A),
    let bs := map (batch_of data) (range (Z.to_nat (nb_of data))) in
    List.concat bs = data /\
    len bs = nb_of data /\
    (nb_of data - 1) * batch_sz < Z.max 1 (len data) <= nb_of data * batch_sz /\
    Forall (fun b => len b <= batch_sz) bs /\
    (data <> [] -> Forall (fun b => 1 <= len b) bs).
Proof.
  intros A data bs.
  pose proof (nb_of_bounds data) as [Hnb Hb].
  split; [apply batches_concat |]. split.
  { unfold bs, len. rewrite length_map, range_length. lia. }
  split; [exact Hb |]. split.
  - apply Forall_forall. intros b Hin. apply in_map_iff in Hin.
    destruct Hin as [i [<- Hi]]. now apply batch_of_bounds.
  - intros Hne. apply Forall_forall. intros b Hin. apply in_map_iff in Hin.
    destruct Hin as [i [<- Hi]]. now apply batch_of_bounds.
Qed.

(** ** [run]: the totals *)

Lemma zsum_app (l1 l2 : list Z) : zsum (l1 ++ l2) = zsum l1 + zsum l2.
Proof.
  induction l1 as [| x l1 IH]; cbn [app]; [reflexivity |].
  rewrite !zsum_cons, IH. lia.
Qed.

Lemma zsum_len_concat {A : Type} (l : list (list A)) :
  zsum (map len l) = len (List.concat l).
Proof.
  induction l as [| x l IH]; [reflexivity |].
  cbn [map List.concat]. rewrite zsum_cons, IH. unfold len.
  rewrite length_app. lia.
Qed.

Lemma zsum_map_add {A : Type} (f g : A -> Z) (l : list A) :
  zsum (map (fun a => f a + g a) l) = zsum (map f l) + zsum (map g l).
Proof.
  induction l as [| a l IH]; [reflexivity |].
  cbn [map]. rewrite !zsum_cons, IH. lia.
Qed.

Lemma zsum_Forall2 {A B : Type} (R : A -> B -> Prop) (g : B -> Z) (h : A -> Z)
    (la : list A) (lb : list B) :
  Forall2 R la lb -> (forall a b, R a b -> g b = h a) ->
  zsum (map g lb) = zsum (map h la).
Proof.
  intros H Hgh. induction H as [| a b la lb Hab _ IH]; [reflexivity |].
  cbn [map]. rewrite !zsum_cons, IH, (Hgh a b Hab). reflexivity.
Qed.

(** Only the first batch carries the count of [parse]. *)
Lemma zsum_first_only (ip : Z) (n : nat) :
  zsum (map (fun i => if i =? 0 then ip else 0) (range (S n))) = ip.
Proof.
  unfold range. rewrite <- cons_seq. cbn [map]. rewrite zsum_cons.
  change (Z.of_nat 0 =? 0) with true. cbv iota.
  assert (H : forall s l, (forall i, In i l -> (s <= i)%nat) -> (0 < s)%nat ->
            zsum (map (fun i => if i =? 0 then ip else 0) (map Z.of_nat l))
            = 0).
  { intros s l. induction l as [| i l IH]; intros Hl Hs; [reflexivity |].
    cbn [map]. rewrite zsum_cons, IH by (intros; try apply Hl; auto; now right).
    specialize (Hl i (or_introl eq_refl)).
    assert (E : (Z.of_nat i =? 0) = false) by lia. rewrite E. reflexivity. }
  rewrite (H 1%nat); [lia | | lia].
  intros i Hi. apply in_seq in Hi. lia.
Qed.

(** [max] with an int key returns an element whose key is greatest. *)
Lemma max_from_int_spec {A : Type} (key : A -> Z) (l : list A) :
  forall best : A,
    In (max_from_int key best l) (best :: l) /\
    (forall a, In a (best :: l) -> key a <= key (max_from_int key best l)).
Proof.
  induction l as [| b l IH]; intros best; cbn [max_from_int].
  - split; [now left |]. intros a [<- | []]. lia.
  - destruct (key b >? key best) eqn:E.
    + destruct (IH b) as [Hin Hle]. split; [now right |].
      intros a [<- | Ha]; [| now apply Hle].
      specialize (Hle b (or_introl eq_refl)). lia.
    + destruct (IH best) as [Hin Hle]. split.
      * destruct Hin as [Hin | Hin]; [now left | now right; right].
      * intros a [<- | [<- | Ha]].
        -- apply Hle. now left.
        -- specialize (Hle best (or_introl eq_refl)). lia.
        -- apply Hle. now right.
Qed.

Lemma max_by_int_spec {A : Type} (key : A -> Z) (l : list A) (b : A) :
  max_by_int key l = Ok b ->
  In b l /\ (forall a, In a l -> key a <= key b).
Proof.
  destruct l as [| a l]; [discriminate |]. cbn [max_by_int].
  intros [= <-]. apply max_from_int_spec.
Qed.

Section RunTotals.

Context {F : Type} {PF : PyFloat F} {PM : PyMath F}.

Lemma run_loop_spec (data : list F) (ip : Z) (indexes : list Z) :
  forall acc bs : list (@Summary F),
    run_loop data ip indexes acc = Ok bs ->
    exists new, bs = acc ++ new /\
                Forall2 (batch_summary data ip) indexes new.
Proof.
  induction indexes as [| i indexes IH]; intros acc bs H.
  - cbn [run_loop] in H. inversion H; subst. exists [].
    rewrite app_nil_r. split; [reflexivity | constructor].
  - cbn [run_loop] in H. cbv zeta in H.
    destruct (proc (batch_of data i) (i + 1) (if i =? 0 then ip else 0))
      as [[s |] | e] eqn:E; cbn [bind] in H.
    + apply IH in H. destruct H as [new [-> HF]].
      exists (s :: new). rewrite <- app_assoc. split; [reflexivity |].
      constructor; [exact E | exact HF].
    + now apply proc_never_none in E.
    + discriminate H.
Qed.

(** The figures of a report, read off the summaries of its batches. *)
Lemma run_body_fields (data : list F) (ip : Z) (rep : Report) :
  run_body data ip = Ok rep ->
  nb rep = nb_of data /\
  Forall2 (batch_summary data ip) (range (Z.to_nat (nb_of data)))
    (batches rep) /\
  total_invalid_all rep = zsum (map total_invalid (batches rep)) /\
  total_valid_all rep = zsum (map valid (batches rep)) /\
  total_points rep = zsum (map total (batches rep)) /\
  total_anom rep = zsum (map s_anom (batches rep)) /\
  calc_stability (total_invalid_all rep) (total_points rep) (total_anom rep)
    (max_danger_val rep) = Ok (stability rep) /\
  stab_color rep =
  (if fge (stability rep) (of_int 80) then GREEN
   else if fge (stability rep) (of_int 60) then YELLOW else RED) /\
  truediv (fsum (map mean (batches rep))) (of_int (len (batches rep)))
  = Ok (overall_mean rep) /\
  (exists best,
      max_by r2 (batches rep) = Ok best /\
      pat_type rep = type best /\ run_params rep = params best) /\
  predictions rep =
  map (fun pos => (pos, predict (pat_type rep) (run_params rep)
                          (overall_mean rep) pos))
    [total_points rep; total_points rep + 5; total_points rep + 10] /\
  all_anomalies rep = List.concat (map anom_details (batches rep)) /\
  truediv (fsum (map r2 (batches rep))) (of_int (len (batches rep)))
  = Ok (avg_r2 rep) /\
  max_by_int danger_rank (map danger (batches rep))
  = Ok (max_danger_val rep).
Proof.
  unfold run_body. cbv zeta. intros H.
  apply bind_Ok_inv in H. destruct H as [bs [Hloop H]].
  apply bind_Ok_inv in H. destruct H as [om [Hom H]].
  apply bind_Ok_inv in H. destruct H as [ar [Har H]].
  apply bind_Ok_inv in H. destruct H as [os [_ H]].
  apply bind_Ok_inv in H. destruct H as [best [Hbest H]].
  apply bind_Ok_inv in H. destruct H as [md [Hmd H]].
  apply bind_Ok_inv in H. destruct H as [st [Hst H]].
  apply bind_Ok_inv in H. destruct H as [q [_ H]].
  inversion H; subst; clear H.
  cbn [nb batches total_invalid_all total_valid_all total_points total_anom
       max_danger_val stability stab_color overall_mean pat_type run_params
       predictions all_anomalies avg_r2].
  apply run_loop_spec in Hloop. destruct Hloop as [new [-> HF]].
  cbn [app] in *. unfold len in Hom, Har |- *.
  rewrite length_map in Hom, Har.
  repeat split; try reflexivity; try assumption.
  exists best. repeat split; assumption.
Qed.

Lemma batches_nonempty (data : list F) (ip : Z) (bs : list (@Summary F)) :
  Forall2 (batch_summary data ip) (range (Z.to_nat (nb_of data))) bs ->
  List.length bs = Z.to_nat (nb_of data) /\ bs <> [].
Proof.
  intros HF. apply Forall2_length in HF. rewrite range_length in HF.
  pose proof (nb_of_bounds data) as [Hnb _].
  split; [congruence |]. intros ->. cbn in HF. lia.
Qed.

Lemma run_total_points (data : list F) (ip : Z) (bs : list (@Summary F)) :
  Forall2 (batch_summary data ip) (range (Z.to_nat (nb_of data))) bs ->
  zsum (map total bs) = len data.
Proof.
  intros HF.
  rewrite (zsum_Forall2 _ total (fun i => len (batch_of data i)) _ _ HF).
  - rewrite <- (map_map (batch_of data) len), zsum_len_concat.
    now rewrite batches_concat.
  - intros i s Hs. apply proc_fields in Hs. tauto.
Qed.

Lemma run_total_invalid (data : list F) (ip : Z) (bs : list (@Summary F)) :
  Forall2 (batch_summary data ip) (range (Z.to_nat (nb_of data))) bs ->
  zsum (map total_invalid bs)
  = ip + len (filter (fun v => negb (keep v)) data).
Proof.
  intros HF.
  rewrite (zsum_Forall2 _ total_invalid
             (fun i => (if i =? 0 then ip else 0)
                       + len (filter (fun v => negb (keep v))
                                (batch_of data i))) _ _ HF).
  - rewrite zsum_map_add. f_equal.
    + pose proof (nb_of_bounds data) as [Hnb _].
      destruct (Z.to_nat (nb_of data)) as [| n] eqn:E; [lia |].
      apply zsum_first_only.
    + rewrite <- (map_map (batch_of data)
                    (fun b => len (filter (fun v => negb (keep v)) b))).
      rewrite <- (map_map (filter (fun v => negb (keep v))) len).
      rewrite zsum_len_concat, concat_filter_map.
      now rewrite batches_concat.
  - intros i s Hs. apply proc_fields in Hs.
    destruct Hs as [_ [_ [_ [_ [_ [Hti _]]]]]].
    rewrite Hti, clean_spec. reflexivity.
Qed.

Lemma run_total_anom (bs : list (@Summary F)) :
  (forall s, In s bs -> s_anom s = len (anom_details s)) ->
  zsum (map s_anom bs) = len (List.concat (map anom_details bs)).
Proof.
  intros H. rewrite <- zsum_len_concat, map_map. f_equal.
  apply map_ext_in. exact H.
Qed.

Lemma Forall2_in_r {A B : Type} (R : A -> B -> Prop) (la : list A)
    (lb : list B) (b : B) :
  Forall2 R la lb -> In b lb -> exists a, In a la /\ R a b.
Proof.
  intros H. induction H as [| a' b' la lb Hab _ IH]; intros Hin; [easy |].
  destruct Hin as [<- | Hin].
  - exists a'. split; [now left | exact Hab].
  - destruct (IH Hin) as [a [Ha HR]]. exists a. split; [now right | exact HR].
Qed.

End RunTotals.

(** X22: in every arithmetic, when [run] reaches its report there is
    one summary per batch, in order, each returned by [proc] for its
    batch with the number [i + 1] and with the count of [parse] for the
    first batch only; [total_points] is the number of parsed values;
    [total_invalid_all] is the count of [parse] plus the number of
    values that [clean] rejects; [total_anom] is the number of anomalies
    listed, whose positions are relative to their batch, hence below
    [batch_sz]; the level reported is the level of a batch, and no batch
    has a level of a higher rank; the predictions are made for the
    positions [len(data)], [len(data) + 5] and [len(data) + 10]. *)
Theorem run_totals :
  forall (F : Type) (PF : PyFloat F) (PM : PyMath F)
         (data : list F) (invalid_parse : Z) (rep : Report),
    run_body data invalid_parse = Ok rep ->
    nb rep = nb_of data /\
    len (batches rep) = nb rep /\
    Forall2 (fun i s =>
               proc (batch_of data i) (i + 1)
                 (if i =? 0 then invalid_parse else 0) = Ok (Some s))
      (range (Z.to_nat (nb_of data))) (batches rep) /\
    total_points rep = len data /\
    total_invalid_all rep
    = invalid_parse + len (filter (fun v => negb (keep v)) data) /\
    total_anom rep = len (all_anomalies rep) /\
    Forall (fun a => 0 <= idx a < batch_sz) (all_anomalies rep) /\
    (exists s, In s (batches rep) /\ danger s = max_danger_val rep) /\
    Forall (fun s => danger_rank (danger s)
                     <= danger_rank (max_danger_val rep)) (batches rep) /\
    map fst (predictions rep) = [len data; len data + 5; len data + 10].
Proof.
  intros F PF PM data ip rep H.
  apply run_body_fields in H.
  destruct H
    as [Hnb [HF [Hti [_ [Htp [Hta [_ [_ [_ [_ [Hpred [Hall [_ Hmd]]]]]]]]]]]]].
  pose proof (batches_nonempty data ip _ HF) as [Hlen _].
  pose proof (nb_of_bounds data) as [Hpos _].
  rewrite Htp, (run_total_points data ip _ HF) in *.
  split; [exact Hnb |]. split; [unfold len; rewrite Hlen, Hnb; lia |].
  split; [exact HF |]. split; [reflexivity |].
  split; [rewrite Hti; now apply run_total_invalid |].
  apply max_by_int_spec in Hmd. destruct Hmd as [Hmd_in Hmd_le].
  split; [| split; [| split; [| split]]].
  - rewrite Hta, Hall. apply run_total_anom. intros s Hs.
    destruct (Forall2_in_r _ _ _ _ HF Hs) as [i [_ Hi]].
    apply proc_fields in Hi.
    destruct Hi as [_ [_ [_ [_ [_ [_ Han]]]]]].
    pose proof (anom_count (fst (clean (batch_of data i)))) as [Hc _].
    rewrite <- Han in Hc. exact Hc.
  - rewrite Hall. apply Forall_forall. intros a Ha.
    apply in_concat in Ha. destruct Ha as [l [Hl Ha]].
    apply in_map_iff in Hl. destruct Hl as [s [<- Hs]].
    destruct (Forall2_in_r _ _ _ _ HF Hs) as [i [Hi Hp]].
    apply proc_fields in Hp.
    destruct Hp as [_ [_ [_ [_ [_ [_ Han]]]]]].
    pose proof (anom_positions (fst (clean (batch_of data i))) a) as Hpos'.
    rewrite <- Han in Hpos'. specialize (Hpos' Ha).
    pose proof (batch_of_bounds data i Hi) as [Hb _].
    rewrite clean_spec in Hpos'. cbn [fst] in Hpos'.
    pose proof (len_filter_split keep (batch_of data i)) as Hsp.
    pose proof (len_nonneg (filter (fun a => negb (keep a))
                              (batch_of data i))).
    destruct (filter keep (batch_of data i)); cbn [truthy] in Hpos'.
    + change (len [of_int 0]) with 1 in Hpos'. unfold batch_sz. lia.
    + lia.
  - apply in_map_iff in Hmd_in. destruct Hmd_in as [s [Hs Hin]].
    now exists s.
  - apply Forall_forall. intros s Hs. apply Hmd_le.
    apply in_map_iff. now exists s.
  - rewrite Hpred. reflexivity.
Qed.

Lemma run_totals_b64 :
  exists rep : Report,
    run_body (PF := B64.binary64)
      (PM := B64.libm B64.log_sample B64.exp_sample)
      [3; nan; 7; 1e16; -11]%float 2 = Ok rep /\
    nb rep = nb_of [3; nan; 7; 1e16; -11]%float /\
    len (batches rep) = nb rep /\
    Forall2 (fun i s =>
               proc (PF := B64.binary64)
                 (PM := B64.libm B64.log_sample B64.exp_sample)
                 (batch_of [3; nan; 7; 1e16; -11]%float i) (i + 1)
                 (if i =? 0 then 2 else 0) = Ok (Some s))
      (range (Z.to_nat (nb_of [3; nan; 7; 1e16; -11]%float))) (batches rep) /\
    total_points rep = len [3; nan; 7; 1e16; -11]%float /\
    total_invalid_all rep
    = 2 + len (filter (fun v => negb (keep v)) [3; nan; 7; 1e16; -11]%float) /\
    total_anom rep = len (all_anomalies rep) /\
    Forall (fun a => 0 <= idx a < batch_sz) (all_anomalies rep) /\
    (exists s, In s (batches rep) /\ danger s = max_danger_val rep) /\
    Forall (fun s => danger_rank (danger s)
                     <= danger_rank (max_danger_val rep)) (batches rep) /\
    map fst (predictions rep)
    = [len [3; nan; 7; 1e16; -11]%float;
       len [3; nan; 7; 1e16; -11]%float + 5;
       len [3; nan; 7; 1e16; -11]%float + 10].
Proof.
  eexists. split; [vm_compute; reflexivity |].
  apply (run_totals float B64.binary64
           (B64.libm B64.log_sample B64.exp_sample)
           [3; nan; 7; 1e16; -11]%float 2).
  vm_compute. reflexivity.
Defined.

(** ** [run]: the inputs that are not analysed *)

Section RunOutcomes.

Context {F : Type} {PF : PyFloat F} {PM : PyMath F}.
Variable py_float : string -> result F.

Lemma run_empty (raw : string) :
  run py_float raw = Ok EmptyInput <-> raw = "".
Proof.
  unfold run. destruct raw as [| c raw]; cbn [nonempty negb].
  - tauto.
  - split; [| discriminate].
    destruct (parse py_float (String c raw)) as [data ip].
    destruct (negb (truthy data)); cbn [bind]; [discriminate |].
    destruct (len data =? 1).
    + destruct (index data 0) as [d0 | e]; cbn [bind]; [| discriminate].
      destruct (feq d0 (of_int 0)); [discriminate |].
      destruct (run_body data ip); discriminate.
    + cbn [bind]. destruct (run_body data ip); discriminate.
Qed.

Lemma run_could_not_parse (raw : string) :
  run py_float raw = Ok CouldNotParse <->
  raw <> "" /\
  exists v k, parse py_float raw = ([v], k) /\ feq v (of_int 0) = true.
Proof.
  unfold run. destruct raw as [| c raw]; cbn [nonempty negb].
  - split; [discriminate | intros [H _]; now destruct H].
  - pose proof (parse_truthy py_float (String c raw)) as Ht.
    destruct (parse py_float (String c raw)) as [data ip]. cbn [fst] in Ht.
    rewrite Ht. cbn [negb].
    destruct data as [| v [| w data]]; [discriminate | |].
    + change (len [v] =? 1) with true. cbn [index nth_error bind].
      destruct (feq v (of_int 0)) eqn:E.
      * split; [| reflexivity]. intros _. split; [discriminate |].
        now exists v, ip.
      * split.
        -- destruct (run_body [v] ip); discriminate.
        -- intros [_ [v' [k [Hp Hv]]]]. inversion Hp; subst. congruence.
    + assert (E : (len (v :: w :: data) =? 1) = false)
        by (apply Z.eqb_neq; unfold len; cbn [List.length]; lia).
      rewrite E. cbn [bind]. split.
      * destruct (run_body (v :: w :: data) ip); discriminate.
      * intros [_ [v' [k [Hp _]]]]. discriminate Hp.
Qed.

End RunOutcomes.

(** X26: [run] ends with "Empty input" exactly for the empty text,
    and with "Could not parse valid data" exactly for a text that is
    not empty and for which [parse] returns a single value equal to 0:
    in double precision, a text of which no token is accepted, but also
    one whose only accepted value is 0, such as "0" or "-0.0, abc",
    whereas "0 0" is analysed. *)
Theorem run_rejects_a_lone_zero :
  (forall (F : Type) (PF : PyFloat F) (PM : PyMath F)
          (py_float : string -> result F) (raw : string),
      (run py_float raw = Ok EmptyInput <-> raw = "") /\
      (run py_float raw = Ok CouldNotParse <->
       raw <> "" /\
       exists v k, parse py_float raw = ([v], k) /\
                   feq v (of_int 0) = true)) /\
  (forall (log exp : float -> float) (raw : string) (inv : Z),
      raw <> "" ->
      parse_loop B64.py_float (tokens raw) [] 0 = Ok ([], inv) ->
      run (PF := B64.binary64) (PM := B64.libm log exp) B64.py_float raw
      = Ok CouldNotParse) /\
  (forall log exp : float -> float,
      run (PF := B64.binary64) (PM := B64.libm log exp) B64.py_float "0"
      = Ok CouldNotParse /\
      run (PF := B64.binary64) (PM := B64.libm log exp) B64.py_float
        "-0.0, abc" = Ok CouldNotParse /\
      exists rep,
        run (PF := B64.binary64) (PM := B64.libm log exp) B64.py_float
          "0 0" = Ok (Analysed rep) /\ total_points rep = 2).
Proof.
  split; [| split].
  - intros F PF PM py_float raw. split.
    + apply run_empty.
    + apply run_could_not_parse.
  - intros log exp raw inv Hne Hloop.
    apply (run_could_not_parse (PM := B64.libm log exp)).
    split; [exact Hne |]. exists 0%float, inv. split; [| reflexivity].
    unfold parse, parse_body. rewrite Hloop. reflexivity.
  - intros log exp. split; [vm_compute; reflexivity |].
    split; [vm_compute; reflexivity |].
    eexists. split; [vm_compute; reflexivity | reflexivity].
Qed.
